(** * Tsuki sensory camera client: the WebSocket client of
    [tools/sensory_camera_client.py]

    A shallow embedding of [SimpleWebSocketClient]: the frame codec
    ([_encode_frame], [_recv_frame], [_read_exact]), the HTTP upgrade
    handshake ([connect], [_read_http_response]), the receive loop
    ([read_messages], [_send_pong]) and the connection life cycle
    ([send_text], [send_json], [close]).

    Python values are modelled as follows.
    - [bytes] is [list byte]; an [int] is a [Z]; a [str] is the list of its
      code points.
    - An exception is a value of [exn]; a method that can raise returns an
      [outcome].
    - The operating system (socket, clock, [os.urandom], standard output) is
      an explicit [world] threaded through every call. *)

From Stdlib Require Import ZArith NArith QArith Qminmax Lia List Bool String Ascii.
From Stdlib Require Import Init.Byte Strings.Byte DecimalString.
From stdpp Require Import base option list gmap.
From Equations Require Import Equations.
From Equations.Prop Require Import Logic.

Local Open Scope Z_scope.

(** ** Bytes and integers *)

Abbreviation bytes := (list byte).

(** A [str]: the list of its Unicode code points. *)
Abbreviation pystr := (list N).

(** The value of a byte as a Python [int] (iterating over [bytes]). *)
Definition Z_of_byte (b : byte) : Z := Z.of_N (Byte.to_N b).

(** The byte made of the low eight bits of an [int]. *)
Definition byte_of_Z (z : Z) : byte :=
  Byte.of_bits
    (Z.testbit z 0, (Z.testbit z 1, (Z.testbit z 2, (Z.testbit z 3,
    (Z.testbit z 4, (Z.testbit z 5, (Z.testbit z 6, Z.testbit z 7))))))).

(** [a ^ b] on two bytes. *)
Definition byte_xor (a b : byte) : byte :=
  let '(a0, (a1, (a2, (a3, (a4, (a5, (a6, a7))))))) := Byte.to_bits a in
  let '(b0, (b1, (b2, (b3, (b4, (b5, (b6, b7))))))) := Byte.to_bits b in
  Byte.of_bits
    (xorb a0 b0, (xorb a1 b1, (xorb a2 b2, (xorb a3 b3,
    (xorb a4 b4, (xorb a5 b5, (xorb a6 b6, xorb a7 b7))))))).

(** ** Exceptions *)

Inductive runtime_error :=
| NotConnected                                (* "WebSocket is not connected" *)
| HandshakeFailed (status : Z) (accept : option pystr).
                              (* "WebSocket handshake failed: status=.. accept=.." *)

Inductive exn :=
| ValueError (msg : string)
| RuntimeError (r : runtime_error)
| ConnectionError            (* "WebSocket connection closed"; an OSError *)
| socket_timeout             (* socket.timeout; an OSError *)
| OSError
| struct_error
| BlockingIOError            (* no data on a non-blocking socket; an OSError *)
| UnicodeEncodeError
| UnicodeDecodeError
| IndexError
| AttributeError.

(** [except OSError] also catches its subclasses. *)
Definition is_OSError (e : exn) : bool :=
  match e with
  | ConnectionError | socket_timeout | BlockingIOError | OSError => true
  | _ => false
  end.

Inductive outcome (A : Type) :=
| Ok (a : A)
| Raise (e : exn).
Arguments Ok {A} a.
Arguments Raise {A} e.

(** ** [struct.pack] / [struct.unpack], network byte order *)

(** The [n] low-order bytes of [v], most significant first. *)
Fixpoint be_bytes (n : nat) (v : Z) : bytes :=
  match n with
  | O => []
  | S k => byte_of_Z (Z.shiftr v (8 * Z.of_nat k)) :: be_bytes k v
  end.

(** One unsigned field of [n] bytes: [struct.error] when out of range. *)
Definition pack_uint (n : nat) (v : Z) : outcome bytes :=
  if (0 <=? v) && (v <? 2 ^ (8 * Z.of_nat n)) then Ok (be_bytes n v)
  else Raise struct_error.

Definition unpack_uint (bs : bytes) : Z :=
  fold_left (fun acc b => acc * 256 + Z_of_byte b) bs 0.

(** [struct.pack("!BB", a, b)] *)
Definition pack_BB (a b : Z) : outcome bytes :=
  match pack_uint 1 a, pack_uint 1 b with
  | Ok x, Ok y => Ok (x ++ y)
  | _, _ => Raise struct_error
  end.

(** [struct.pack("!BBH", a, b, h)] *)
Definition pack_BBH (a b h : Z) : outcome bytes :=
  match pack_uint 1 a, pack_uint 1 b, pack_uint 2 h with
  | Ok x, Ok y, Ok z => Ok (x ++ y ++ z)
  | _, _, _ => Raise struct_error
  end.

(** [struct.pack("!BBQ", a, b, q)] *)
Definition pack_BBQ (a b q : Z) : outcome bytes :=
  match pack_uint 1 a, pack_uint 1 b, pack_uint 8 q with
  | Ok x, Ok y, Ok z => Ok (x ++ y ++ z)
  | _, _, _ => Raise struct_error
  end.

(** ** Masking *)

(** [mask_key[i % 4]]; the key is always four bytes long ([os.urandom(4)]
    or [_read_exact(4)]). *)
Definition mask_at (mask_key : bytes) (i : nat) : byte :=
  nth (i mod 4)%nat mask_key "000"%byte.

(** [bytes(b ^ mask_key[i % 4] for i, b in enumerate(payload))] *)
Definition xor_mask (mask_key payload : bytes) : bytes :=
  imap (fun i b => byte_xor b (mask_at mask_key i)) payload.

(** ** Strings *)

(** A [str] literal. *)
Definition py (s : string) : pystr := map N_of_ascii (list_ascii_of_string s).

(** A [bytes] literal. *)
Definition pyb (s : string) : bytes := list_byte_of_string s.

(** [s.encode("ascii")] *)
Definition ascii_encode (s : pystr) : outcome bytes :=
  if forallb (fun cp => (cp <? 128)%N) s
  then Ok (map (fun cp => byte_of_Z (Z.of_N cp)) s)
  else Raise UnicodeEncodeError.

(** [b.decode("ascii")] *)
Definition ascii_decode (b : bytes) : outcome pystr :=
  if forallb (fun x => Z_of_byte x <? 128) b
  then Ok (map Byte.to_N b)
  else Raise UnicodeDecodeError.

(** [b.decode("ascii", errors="replace")]: a byte outside ASCII becomes
    U+FFFD. *)
Definition ascii_decode_replace (b : bytes) : pystr :=
  map (fun x => if Z_of_byte x <? 128 then Byte.to_N x else 0xFFFD%N) b.

(** [str(n)] for an [int]. *)
Definition str_of_Z (n : Z) : pystr :=
  py (DecimalString.NilZero.string_of_int (Z.to_int n)).

(** [s.lower()], on the strings that arise here (ASCII and U+FFFD). *)
Definition lower (s : pystr) : pystr :=
  map (fun cp => if (65 <=? cp)%N && (cp <=? 90)%N then (cp + 32)%N else cp) s.

(** White space for [str.split()] and [str.isspace()], among ASCII and
    U+FFFD: tab, line feed, vertical tab, form feed, carriage return, the
    four separators 0x1c..0x1f and the space. *)
Definition str_isspace (cp : N) : bool :=
  ((9 <=? cp) && (cp <=? 13) || (28 <=? cp) && (cp <=? 32))%N.

(** [s.split()]: the maximal runs of characters that are not white space.
    [cur] is the run being read, reversed. *)
Fixpoint split_ws_from (cur : pystr) (s : pystr) : list pystr :=
  match s with
  | [] => match cur with [] => [] | _ => [rev cur] end
  | cp :: rest =>
      if str_isspace cp
      then match cur with
           | [] => split_ws_from [] rest
           | _ => rev cur :: split_ws_from [] rest
           end
      else split_ws_from (cp :: cur) rest
  end.
Definition split_ws (s : pystr) : list pystr := split_ws_from [] s.

(** [l[i]] *)
Definition index {A} (l : list A) (i : nat) : outcome A :=
  match l !! i with
  | Some x => Ok x
  | None => Raise IndexError
  end.

(** [sys.get_int_max_str_digits()], CPython's default. *)
Definition int_max_str_digits : nat := 4300.

Definition is_digit (cp : N) : bool := ((48 <=? cp) && (cp <=? 57))%N.

(** The digits of an [int] literal, most significant first: decimal digits
    with single underscores between them.  [after_digit] tells whether the
    previous character was a digit. *)
Fixpoint int_digits (after_digit : bool) (s : pystr) : option (list Z) :=
  match s with
  | [] => if after_digit then Some [] else None
  | cp :: rest =>
      if is_digit cp then
        ds ← int_digits true rest; Some ((Z.of_N cp - 48) :: ds)
      else if (cp =? 95)%N && after_digit then
        match rest with
        | [] => None
        | _ => int_digits false rest
        end
      else None
  end.

(** [int(s)] for a [str] without surrounding white space (a field that
    [split] returned), among ASCII and U+FFFD: an optional sign and a
    literal of at most [int_max_str_digits] digits; [ValueError] otherwise. *)
Definition py_int (s : pystr) : outcome Z :=
  let '(sign, body) :=
    match s with
    | 43%N :: rest => (1, rest)
    | 45%N :: rest => (-1, rest)
    | _ => (1, s)
    end in
  match int_digits false body with
  | Some ds =>
      if (List.length ds <=? int_max_str_digits)%nat
      then Ok (sign * fold_left (fun acc d => acc * 10 + d) ds 0)
      else Raise (ValueError "Exceeds the limit for integer string conversion")
  | None => Raise (ValueError "invalid literal for int() with base 10")
  end.

(** ** Byte strings *)

Definition byte_eqb (a b : byte) : bool := Byte.eqb a b.

(** [b.startswith(prefix)] *)
Fixpoint starts_with (prefix b : bytes) : bool :=
  match prefix, b with
  | [], _ => true
  | p :: prefix', x :: b' => byte_eqb p x && starts_with prefix' b'
  | _ :: _, [] => false
  end.

(** [b.partition(sep)], for a non-empty [sep]: the part before the first
    occurrence of [sep] and the part behind it; [None] when [sep] does not
    occur. *)
Fixpoint cut (sep b : bytes) : option (bytes * bytes) :=
  if starts_with sep b then Some ([], drop (List.length sep) b)
  else match b with
       | [] => None
       | x :: b' => '(before, behind) ← cut sep b'; Some (x :: before, behind)
       end.

(** [sep in b] *)
Definition contains (sep b : bytes) : bool :=
  match cut sep b with Some _ => true | None => false end.

(** [before, _, behind = b.partition(sep)] *)
Definition partition (sep b : bytes) : bytes * bytes :=
  match cut sep b with
  | Some r => r
  | None => (b, [])
  end.

(** [b.split(sep)]; the recursion is bounded by the length of [b]. *)
Fixpoint split_by_fuel (fuel : nat) (sep b : bytes) : list bytes :=
  match fuel, cut sep b with
  | S fuel', Some (before, behind) => before :: split_by_fuel fuel' sep behind
  | _, _ => [b]
  end.
Definition split_by (sep b : bytes) : list bytes :=
  split_by_fuel (List.length b) sep b.

(** White space for [bytes.strip()]. *)
Definition bytes_isspace (x : byte) : bool :=
  let z := Z_of_byte x in (9 <=? z) && (z <=? 13) || (z =? 32).

Fixpoint lstrip (b : bytes) : bytes :=
  match b with
  | x :: b' => if bytes_isspace x then lstrip b' else b
  | [] => []
  end.
(** [b.strip()] *)
Definition strip (b : bytes) : bytes := rev (lstrip (rev (lstrip b))).

(** ** [hashlib.sha1] (FIPS 180-4) *)

Module Sha1.

Definition w32 (x : Z) : Z := x mod 2 ^ 32.
Definition add32 (x y : Z) : Z := w32 (x + y).
Definition rotl (n x : Z) : Z := w32 (Z.lor (Z.shiftl x n) (Z.shiftr x (32 - n))).
Definition not32 (x : Z) : Z := Z.lxor x 0xFFFFFFFF.

(** The message, a 1 bit, zero bits up to 56 modulo 64 bytes, and the
    length in bits as a 64-bit big-endian integer. *)
Definition pad (msg : bytes) : bytes :=
  let l := List.length msg in
  msg ++ byte_of_Z 0x80 :: repeat (byte_of_Z 0) ((64 - (l + 9) mod 64) mod 64)
      ++ be_bytes 8 (8 * Z.of_nat l).

(** Big-endian 32-bit words. *)
Fixpoint words (b : bytes) : list Z :=
  match b with
  | b0 :: b1 :: b2 :: b3 :: rest => unpack_uint [b0; b1; b2; b3] :: words rest
  | _ => []
  end.

(** The message schedule, latest word first: [n] more words. *)
Fixpoint schedule (n : nat) (ws : list Z) : list Z :=
  match n with
  | O => ws
  | S k =>
      let w := rotl 1 (Z.lxor (Z.lxor (nth 2 ws 0) (nth 7 ws 0))
                              (Z.lxor (nth 13 ws 0) (nth 15 ws 0))) in
      schedule k (w :: ws)
  end.

Definition f (t : nat) (b c d : Z) : Z :=
  if (t <? 20)%nat then Z.lor (Z.land b c) (Z.land (not32 b) d)
  else if (t <? 40)%nat then Z.lxor (Z.lxor b c) d
  else if (t <? 60)%nat then Z.lor (Z.lor (Z.land b c) (Z.land b d)) (Z.land c d)
  else Z.lxor (Z.lxor b c) d.

Definition K (t : nat) : Z :=
  if (t <? 20)%nat then 0x5A827999
  else if (t <? 40)%nat then 0x6ED9EBA1
  else if (t <? 60)%nat then 0x8F1BBCDC
  else 0xCA62C1D6.

Definition state : Type := Z * Z * Z * Z * Z.

Definition round (st : state) (tw : nat * Z) : state :=
  let '(a, b, c, d, e) := st in
  let '(t, w) := tw in
  (add32 (add32 (add32 (add32 (rotl 5 a) (f t b c d)) e) (K t)) w,
   a, rotl 30 b, c, d).

Definition block (h : state) (ws16 : list Z) : state :=
  let ws := rev (schedule 64 (rev ws16)) in
  let '(a, b, c, d, e) := fold_left round (combine (seq 0 80) ws) h in
  let '(h0, h1, h2, h3, h4) := h in
  (add32 h0 a, add32 h1 b, add32 h2 c, add32 h3 d, add32 h4 e).

(** The blocks of 16 words; [n] bounds their number. *)
Fixpoint blocks (n : nat) (h : state) (ws : list Z) : state :=
  match n, ws with
  | S k, _ :: _ => blocks k (block h (take 16 ws)) (drop 16 ws)
  | _, _ => h
  end.

Definition initial : state :=
  (0x67452301, 0xEFCDAB89, 0x98BADCFE, 0x10325476, 0xC3D2E1F0).

(** [hashlib.sha1(msg).digest()] *)
Definition digest (msg : bytes) : bytes :=
  let ws := words (pad msg) in
  let '(h0, h1, h2, h3, h4) := blocks (List.length ws) initial ws in
  be_bytes 4 h0 ++ be_bytes 4 h1 ++ be_bytes 4 h2 ++ be_bytes 4 h3 ++ be_bytes 4 h4.

End Sha1.

(** ** [base64.b64encode] (RFC 4648) *)

Definition b64_alphabet : bytes :=
  pyb "ABCDEFGHIJKLMNOPQRSTUVWXYZabcdefghijklmnopqrstuvwxyz0123456789+/".

(** The character for a 6-bit value. *)
Definition b64_char (v : Z) : byte := nth (Z.to_nat (v mod 64)) b64_alphabet "="%byte.

Fixpoint b64encode (b : bytes) : bytes :=
  match b with
  | [] => []
  | [x] =>
      let n := Z.shiftl (Z_of_byte x) 16 in
      [b64_char (Z.shiftr n 18); b64_char (Z.shiftr n 12); "="%byte; "="%byte]
  | [x; y] =>
      let n := Z.lor (Z.shiftl (Z_of_byte x) 16) (Z.shiftl (Z_of_byte y) 8) in
      [b64_char (Z.shiftr n 18); b64_char (Z.shiftr n 12); b64_char (Z.shiftr n 6);
       "="%byte]
  | x :: y :: z :: rest =>
      let n := Z.lor (Z.lor (Z.shiftl (Z_of_byte x) 16) (Z.shiftl (Z_of_byte y) 8))
                     (Z_of_byte z) in
      b64_char (Z.shiftr n 18) :: b64_char (Z.shiftr n 12) :: b64_char (Z.shiftr n 6)
        :: b64_char n :: b64encode rest
  end.

(** ** The handshake's accept value *)

Definition GUID : pystr := py "258EAFA5-E914-47DA-95CA-C5AB0DC85B11".

(** [base64.b64encode(hashlib.sha1(f"{key}{GUID}".encode("ascii")).digest())
    .decode("ascii")] *)
Definition accept_value (key : pystr) : outcome pystr :=
  match ascii_encode (key ++ GUID) with
  | Ok b => ascii_decode (b64encode (Sha1.digest b))
  | Raise e => Raise e
  end.

(** ** The operating system

    One peer is on the other end of the connection.  [incoming] is what it
    will send: each entry [(d, chunk)] is a chunk that reaches the socket [d]
    seconds after the previous one was there; an empty chunk is the peer
    closing the connection (nothing behind it is ever delivered); an empty
    list is a peer that stays silent for ever.  [send_faults] holds the
    outcome of the coming [sendall] calls ([true]: the call raises
    [OSError]); past its end every call succeeds.  [entropy] is the byte
    source behind [os.urandom], read from position [drawn].  [trace] records
    every call the program makes on the socket and the console, oldest
    first.  Computation takes no time: the clock [now] advances only while
    a [recv] blocks. *)

Inductive io_event :=
| EvConnect (host : pystr) (port : Z)
| EvRecv (n : nat) (blocked : Q) (result : outcome bytes)
| EvSendall (data : bytes) (result : outcome unit)
| EvClose
| EvPrint (line : pystr).

Record world := World {
  now : Q;
  incoming : list (Q * bytes);
  send_faults : list bool;
  entropy : nat -> byte;
  drawn : nat;
  trace : list io_event;
  connect_fault : bool;   (* socket.create_connection raises OSError *)
  tls_fault : bool;       (* wrap_socket raises ssl.SSLError, an OSError *)
  close_fault : bool      (* sock.close() raises OSError *)
}.

Definition with_net (t : Q) (inc : list (Q * bytes)) (w : world) : world :=
  World t inc (send_faults w) (entropy w) (drawn w) (trace w)
        (connect_fault w) (tls_fault w) (close_fault w).

Definition with_send_faults (f : list bool) (w : world) : world :=
  World (now w) (incoming w) f (entropy w) (drawn w) (trace w)
        (connect_fault w) (tls_fault w) (close_fault w).

Definition with_drawn (n : nat) (w : world) : world :=
  World (now w) (incoming w) (send_faults w) (entropy w) n (trace w)
        (connect_fault w) (tls_fault w) (close_fault w).

Definition log (ev : io_event) (w : world) : world :=
  World (now w) (incoming w) (send_faults w) (entropy w) (drawn w)
        (trace w ++ [ev]) (connect_fault w) (tls_fault w) (close_fault w).

(** The bytes the peer has sent or will send that no [recv] has returned
    yet. *)
Definition pending (inc : list (Q * bytes)) : bytes := concat (map snd inc).

(** What went out on the wire: the data of the [sendall] calls that
    succeeded. *)
Definition sent_of (t : list io_event) : list bytes :=
  omap (fun ev => match ev with EvSendall data (Ok _) => Some data | _ => None end) t.
Definition sent (w : world) : list bytes := sent_of (trace w).

(** [time.time()] *)
Definition time_time (w : world) : Q := now w.

(** [os.urandom(n)] *)
Definition os_urandom (n : nat) (w : world) : bytes * world :=
  (map (entropy w) (seq (drawn w) n), with_drawn (drawn w + n)%nat w).

(** [print(line)] *)
Definition print (line : pystr) (w : world) : world := log (EvPrint line) w.

(** A socket object: all the client ever reads back from it is the timeout
    that [create_connection] or [settimeout] stored. *)
Record socket := Socket { timeout : Q }.

(** What a [recv] raises when nothing arrives in time: a socket with
    timeout zero is non-blocking. *)
Definition no_data (s : socket) : exn :=
  if Qeq_bool (timeout s) 0 then BlockingIOError else socket_timeout.

(** [sock.recv(n)], for [n > 0]: the result, the time spent blocked and
    what the peer still has to deliver.  A chunk that arrives within the
    timeout is returned, at most [n] bytes of it, the rest staying in the
    socket; the empty chunk (peer closed) is returned as [b""] and stays.
    Otherwise the call blocks for the whole timeout and raises. *)
Definition recv_step (s : socket) (n : nat) (inc : list (Q * bytes))
  : outcome bytes * Q * list (Q * bytes) :=
  match inc with
  | [] => (Raise (no_data s), timeout s, [])
  | (d, chunk) :: rest =>
      if Qle_bool d (timeout s) then
        match chunk, drop n chunk with
        | [], _ => (Ok [], d, (0%Q, []) :: rest)
        | _, [] => (Ok chunk, d, rest)
        | _, later => (Ok (take n chunk), d, (0%Q, later) :: rest)
        end
      else (Raise (no_data s), timeout s, ((d - timeout s)%Q, chunk) :: rest)
  end.

Definition sock_recv (s : socket) (n : nat) (w : world) : outcome bytes * world :=
  let '(r, blocked, inc) := recv_step s n (incoming w) in
  (r, log (EvRecv n blocked r) (with_net (now w + blocked)%Q inc w)).

(** [sock.sendall(data)] *)
Definition sock_sendall (data : bytes) (w : world) : outcome unit * world :=
  match send_faults w with
  | true :: f => (Raise OSError, log (EvSendall data (Raise OSError)) (with_send_faults f w))
  | _ :: f => (Ok tt, log (EvSendall data (Ok tt)) (with_send_faults f w))
  | [] => (Ok tt, log (EvSendall data (Ok tt)) w)
  end.

(** [sock.close()] *)
Definition sock_close (w : world) : outcome unit * world :=
  (if close_fault w then Raise OSError else Ok tt, log EvClose w).

(** ** The client object and its methods *)

Record client := Client {
  url : pystr;
  sock : option socket;
  buffer : bytes
}.

(** [SimpleWebSocketClient.__init__] *)
Definition init (u : pystr) : client := Client u None [].

Definition set_sock (s : option socket) (c : client) : client :=
  Client (url c) s (buffer c).
Definition set_buffer (b : bytes) (c : client) : client :=
  Client (url c) (sock c) b.

(** A method: it may change the object and the world, and returns or
    raises. *)
Definition M (A : Type) : Type := client -> world -> outcome A * client * world.

Definition ret {A} (a : A) : M A := fun c w => (Ok a, c, w).
Definition raise {A} (e : exn) : M A := fun c w => (Raise e, c, w).
Definition bind {A B} (m : M A) (k : A -> M B) : M B :=
  fun c w =>
    match m c w with
    | (Ok a, c', w') => k a c' w'
    | (Raise e, c', w') => (Raise e, c', w')
    end.
(** [try: m  except <handles>: h] *)
Definition try_except {A} (m : M A) (handles : exn -> bool) (h : M A) : M A :=
  fun c w =>
    match m c w with
    | (Raise e, c', w') => if handles e then h c' w' else (Raise e, c', w')
    | r => r
    end.
(** [try: m  finally: f] *)
Definition try_finally {A} (m : M A) (f : M unit) : M A :=
  fun c w =>
    match m c w with
    | (r, c', w') =>
        match f c' w' with
        | (Ok _, c'', w'') => (r, c'', w'')
        | (Raise e, c'', w'') => (Raise e, c'', w'')
        end
    end.
(** A call into the operating system. *)
Definition os {A} (f : world -> outcome A * world) : M A :=
  fun c w => let '(r, w') := f w in (r, c, w').
Definition of_outcome {A} (r : outcome A) : M A := fun c w => (r, c, w).
Definition get_sock : M (option socket) := fun c w => (Ok (sock c), c, w).
Definition get_buffer : M bytes := fun c w => (Ok (buffer c), c, w).
Definition put_sock (s : option socket) : M unit := fun c w => (Ok tt, set_sock s c, w).
Definition put_buffer (b : bytes) : M unit := fun c w => (Ok tt, set_buffer b c, w).

Declare Scope py_scope.
Delimit Scope py_scope with py.
Notation "'do' x <- m ; k" := (bind m (fun x => k))
  (at level 10, x name, m at level 100, k at level 200,
   format "'[v' 'do'  x  <-  m ; '/' k ']'") : py_scope.
Notation "'run' m ; k" := (bind m (fun _ => k))
  (at level 10, m at level 100, k at level 200,
   format "'[v' 'run'  m ; '/' k ']'") : py_scope.
Local Open Scope py_scope.

(** *** [_encode_frame] *)

Definition _encode_frame (payload : bytes) (opcode : Z) : M bytes :=
  let fin_opcode := Z.lor 0x80 opcode in
  let mask_bit := 0x80 in
  let length := Z.of_nat (List.length payload) in
  do header <- of_outcome
      (if length <? 126 then pack_BB fin_opcode (Z.lor mask_bit length)
       else if length <? Z.shiftl 1 16
            then pack_BBH fin_opcode (Z.lor mask_bit 126) length
            else pack_BBQ fin_opcode (Z.lor mask_bit 127) length);
  do mask_key <- os (fun w => let '(k, w') := os_urandom 4 w in (Ok k, w'));
  let masked_payload := xor_mask mask_key payload in
  ret (header ++ mask_key ++ masked_payload).

(** *** [_read_exact] *)

(** [while len(self.buffer) < length: ...]: every pass that does not raise
    lengthens the buffer. *)
Equations? read_exact_loop (n : nat) (c : client) (w : world)
  : outcome unit * client * world by wf (n - List.length (buffer c))%nat lt :=
  read_exact_loop n c w with lt_dec (List.length (buffer c)) n := {
    | right _ => (Ok tt, c, w)
    | left _ with sock c := {
        | None => (Raise AttributeError, c, w)
        | Some s with sock_recv s (n - List.length (buffer c)) w := {
            | (Raise e, w') => (Raise e, c, w')
            | (Ok [], w') => (Raise ConnectionError, c, w')
            | (Ok (b :: chunk), w') =>
                read_exact_loop n (set_buffer (buffer c ++ b :: chunk) c) w' } } }.
Proof. simpl. rewrite length_app. simpl. lia. Qed.

Definition _read_exact (length : nat) : M bytes :=
  if (length =? 0)%nat then ret []
  else
    run read_exact_loop length;
    do buf <- get_buffer;
    run put_buffer (drop length buf);
    ret (take length buf).

(** *** [_recv_frame] *)

(** [self.sock.settimeout(timeout)]: a negative timeout is refused. *)
Definition settimeout (t : Q) : M unit :=
  if Qle_bool 0 t then put_sock (Some (Socket t))
  else raise (ValueError "Timeout value out of range").

Definition is_timeout (e : exn) : bool :=
  match e with socket_timeout => true | _ => false end.

Definition _recv_frame (timeout : Q) : M (option (Z * bytes)) :=
  do so <- get_sock;
  match so with
  | None => ret None
  | Some _ =>
    run settimeout timeout;
    do header <- try_except (do h <- _read_exact 2; ret (Some h)) is_timeout (ret None);
    match header with
    | None => ret None
    | Some [b1; b2] =>
        let opcode := Z.land (Z_of_byte b1) 0x0F in
        let masked := Z.land (Z_of_byte b2) 0x80 in
        let length := Z.land (Z_of_byte b2) 0x7F in
        do length <-
          (if length =? 126 then
             do length_bytes <- _read_exact 2; ret (unpack_uint length_bytes)
           else if length =? 127 then
             do length_bytes <- _read_exact 8; ret (unpack_uint length_bytes)
           else ret length);
        do mask_key <-
          (if masked =? 0 then ret None
           else do k <- _read_exact 4; ret (Some k));
        do payload <-
          (if length =? 0 then ret [] else _read_exact (Z.to_nat length));
        let payload :=
          match mask_key with
          | Some ((_ :: _) as k) => xor_mask k payload
          | _ => payload
          end in
        ret (Some (opcode, payload))
    | Some _ => raise (ValueError "not enough values to unpack")
    end
  end.

(** ** The handshake *)

(** What [urlparse(url)] exposes: [port] raises [ValueError] for a port that
    is not a number in 0..65535. *)
Record url_parts := UrlParts {
  scheme : pystr;
  hostname : option pystr;
  port : outcome (option Z);
  path : pystr;
  query : pystr
}.

(** The parsed response: [{"status": .., "headers": ..}]. *)
Record response := Response {
  status : Z;
  headers : gmap pystr pystr
}.

Definition CRLF : bytes := ["013"; "010"]%byte.
Definition CRLF2 : bytes := CRLF ++ CRLF.

(** [while b"\r\n\r\n" not in data: ...] of [_read_http_response]: every pass
    that goes on has taken at least one byte from the peer. *)
Equations? http_read_loop (s : socket) (data : bytes) (w : world)
  : outcome bytes * world by wf (List.length (pending (incoming w))) lt :=
  http_read_loop s data w with contains CRLF2 data := {
    | true => (Ok data, w)
    | false with inspect (sock_recv s 4096 w) := {
        | exist _ (Raise e, w') _ => (Raise e, w')
        | exist _ (Ok [], w') _ => (Ok data, w')
        | exist _ (Ok (b :: chunk), w') Heq =>
            http_read_loop s (data ++ b :: chunk) w' } }.
Proof.
  clear http_read_loop. revert Heq. unfold sock_recv, recv_step.
  destruct (incoming w) as [|[d ch] rest]; [discriminate|].
  destruct (Qle_bool d (timeout s)); [|discriminate].
  destruct ch as [|x ch]; [discriminate|].
  destruct (drop 4096 (x :: ch)) as [|y later] eqn:D.
  - intros H; inversion H; subst; simpl.
    unfold pending. simpl. rewrite length_app. lia.
  - assert (L : List.length (y :: later) = (List.length (x :: ch) - 4096)%nat)
      by (rewrite <- D; apply length_drop).
    intros H; inversion H; subst; simpl.
    unfold pending. simpl. simpl in L. rewrite !length_app. simpl. lia.
Qed.

(** [try: status = int(status_line.split()[1])
     except (IndexError, ValueError): status = -1] *)
Definition parse_status (status_line : pystr) : outcome Z :=
  match (match index (split_ws status_line) 1 with
         | Ok field => py_int field
         | Raise e => Raise e
         end) with
  | Ok n => Ok n
  | Raise IndexError => Ok (-1)
  | Raise (ValueError _) => Ok (-1)
  | Raise e => Raise e
  end.

(** One pass of [for line in lines[1:]: ...] *)
Definition parse_header_line (hs : gmap pystr pystr) (line : bytes) : gmap pystr pystr :=
  if contains (pyb ":") line then
    let '(name, value) := partition (pyb ":") line in
    <[lower (ascii_decode_replace name) := ascii_decode_replace (strip value)]> hs
  else hs.

(** [_read_http_response] from [data.partition] on. *)
Definition parse_response (data : bytes) : outcome (response * bytes) :=
  let '(header_bytes, leftover) := partition CRLF2 data in
  let lines := split_by CRLF header_bytes in
  match index lines 0 with
  | Raise e => Raise e
  | Ok first =>
      let status_line := ascii_decode_replace first in
      match parse_status status_line with
      | Raise e => Raise e
      | Ok st => Ok (Response st (fold_left parse_header_line (drop 1 lines) ∅), leftover)
      end
  end.

Definition _read_http_response (s : socket) (w : world)
  : outcome (response * bytes) * world :=
  match http_read_loop s [] w with
  | (Ok data, w') => (parse_response data, w')
  | (Raise e, w') => (Raise e, w')
  end.

(** [socket.create_connection((host, port), timeout=10)] *)
Definition create_connection (host : pystr) (p : Z) (w : world) : outcome socket * world :=
  (if connect_fault w then Raise OSError else Ok (Socket 10), log (EvConnect host p) w).

(** [context.wrap_socket(sock, server_hostname=host)] *)
Definition wrap_socket (s : socket) (w : world) : outcome socket * world :=
  (if tls_fault w then Raise OSError else Ok s, w).

(** ["\r\n".join(lines)] *)
Fixpoint join_crlf (lines : list pystr) : pystr :=
  match lines with
  | [] => []
  | [l] => l
  | l :: rest => l ++ py (String "013" (String "010" "")) ++ join_crlf rest
  end.

Section Connect.

(** [urllib.parse.urlparse] *)
Variable urlparse : pystr -> url_parts.

(** [connect], up to and including the request (source lines 153-183): the
    key and the socket it goes on with. *)
Definition open_socket : M (pystr * socket) :=
  fun c =>
  let parsed := urlparse (url c) in
  (if bool_decide (scheme parsed = py "ws") || bool_decide (scheme parsed = py "wss")
   then
     match hostname parsed with
     | None | Some [] => raise (ValueError "WebSocket URL must include a host")
     | Some host =>
         do p <- of_outcome (port parsed);
         let dflt := if bool_decide (scheme parsed = py "wss") then 443 else 80 in
         let port := match p with
                     | Some n => if n =? 0 then dflt else n
                     | None => dflt
                     end in
         let path := match path parsed with [] => py "/" | p => p end in
         let path := match query parsed with
                     | [] => path
                     | q => path ++ py "?" ++ q
                     end in
         do raw <- os (fun w => let '(k, w') := os_urandom 16 w in (Ok k, w'));
         do key <- of_outcome (ascii_decode (b64encode raw));
         let lines := [
           py "GET " ++ path ++ py " HTTP/1.1";
           py "Host: " ++ host ++ py ":" ++ str_of_Z port;
           py "Upgrade: websocket";
           py "Connection: Upgrade";
           py "Sec-WebSocket-Key: " ++ key;
           py "Sec-WebSocket-Version: 13";
           py "Origin: http://localhost"
         ] in
         do sock <- os (create_connection host port);
         do sock <- (if bool_decide (scheme parsed = py "wss")
                     then os (wrap_socket sock) else ret sock);
         let request := join_crlf lines ++ py (String "013" (String "010" ""))
                                      ++ py (String "013" (String "010" "")) in
         do data <- of_outcome (ascii_encode request);
         run os (sock_sendall data);
         ret (key, sock)
     end
   else raise (ValueError "Unsupported scheme")) c.

(** The end of [connect] (source lines 188-195): the handshake is accepted
    or refused. *)
Definition check_handshake (key : pystr) (sock : socket) (resp : response) : M unit :=
  do expected_accept <- of_outcome (accept_value key);
  let actual_accept := headers resp !! py "sec-websocket-accept" in
  if negb (status resp =? 101)
     || negb (bool_decide (actual_accept = Some expected_accept))
  then raise (RuntimeError (HandshakeFailed (status resp) actual_accept))
  else put_sock (Some sock).

Definition connect : M unit :=
  do ks <- open_socket;
  do rl <- os (_read_http_response (snd ks));
  run put_buffer (snd rl);
  check_handshake (fst ks) (snd ks) (fst rl).

End Connect.

(** ** Sending, receiving and closing *)

(** [s.encode("utf-8")]: a surrogate cannot be encoded. *)
Definition utf8_char (cp : Z) : outcome bytes :=
  if cp <? 0x80 then Ok [byte_of_Z cp]
  else if cp <? 0x800 then
    Ok [byte_of_Z (Z.lor 0xC0 (Z.shiftr cp 6));
        byte_of_Z (Z.lor 0x80 (Z.land cp 0x3F))]
  else if (0xD800 <=? cp) && (cp <=? 0xDFFF) then Raise UnicodeEncodeError
  else if cp <? 0x10000 then
    Ok [byte_of_Z (Z.lor 0xE0 (Z.shiftr cp 12));
        byte_of_Z (Z.lor 0x80 (Z.land (Z.shiftr cp 6) 0x3F));
        byte_of_Z (Z.lor 0x80 (Z.land cp 0x3F))]
  else if cp <? 0x110000 then
    Ok [byte_of_Z (Z.lor 0xF0 (Z.shiftr cp 18));
        byte_of_Z (Z.lor 0x80 (Z.land (Z.shiftr cp 12) 0x3F));
        byte_of_Z (Z.lor 0x80 (Z.land (Z.shiftr cp 6) 0x3F));
        byte_of_Z (Z.lor 0x80 (Z.land cp 0x3F))]
  else Raise UnicodeEncodeError.

Fixpoint utf8_encode (s : pystr) : outcome bytes :=
  match s with
  | [] => Ok []
  | cp :: rest =>
      match utf8_char (Z.of_N cp), utf8_encode rest with
      | Ok b, Ok bs => Ok (b ++ bs)
      | Raise e, _ => Raise e
      | _, Raise e => Raise e
      end
  end.

(** [time.time() < end_time] *)
Definition Qlt_bool (x y : Q) : bool := negb (Qle_bool y x).

(** What one pass of the receive loop asks for. *)
Inductive loop_ctl := Continue | Break.

Definition get_time : M Q := fun c w => (Ok (time_time w), c, w).

(** [send_text] *)
Definition send_text (text : pystr) : M unit :=
  do so <- get_sock;
  match so with
  | None => raise (RuntimeError NotConnected)
  | Some _ =>
      do data <- of_outcome (utf8_encode text);
      do frame <- _encode_frame data 0x1;
      os (sock_sendall frame)
  end.

(** [_send_pong] *)
Definition _send_pong (payload : bytes) : M unit :=
  do so <- get_sock;
  match so with
  | None => ret tt
  | Some _ =>
      do frame <- _encode_frame payload 0xA;
      try_except (os (sock_sendall frame)) is_OSError (ret tt)
  end.

(** [close] *)
Definition close : M unit :=
  do so <- get_sock;
  match so with
  | None => ret tt
  | Some _ =>
      run try_except (do frame <- _encode_frame [] 0x8; os (sock_sendall frame))
                     is_OSError (ret tt);
      try_finally (os sock_close) (put_sock None)
  end.

Section Messages.

(** The dictionaries [send_json] is given, and [json.dumps(payload,
    ensure_ascii=False)], which raises on a value that JSON cannot hold. *)
Variable Dict : Type.
Variable json_dumps : Dict -> outcome pystr.

(** [b.decode("utf-8", errors="replace")] *)
Variable utf8_decode_replace : bytes -> pystr.

(** [send_json] *)
Definition send_json (payload : Dict) : M unit :=
  do text <- of_outcome (json_dumps payload);
  send_text text.

(** One pass of [while time.time() < end_time: ...] in [read_messages]. *)
Definition read_messages_body (end_time : Q) : M loop_ctl :=
  do t <- get_time;
  let remaining := Qmax (1 # 10) (end_time - t) in
  do message <- try_except (_recv_frame remaining) is_timeout (ret None);
  match message with
  | None => ret Continue
  | Some (opcode, payload) =>
      if opcode =? 0x1 then
        run os (fun w => (Ok tt, print ([0x1F4E8; 32]%N ++ utf8_decode_replace payload) w));
        ret Continue
      else if opcode =? 0x9 then
        run _send_pong payload;
        ret Continue
      else if opcode =? 0x8 then ret Break
      else ret Continue
  end.

(** The loop of [read_messages], for at most [fuel] passes: [None] when
    they do not suffice. *)
Fixpoint read_messages_loop (fuel : nat) (end_time : Q) (c : client) (w : world)
  : option (outcome unit * client * world) :=
  if Qlt_bool (time_time w) end_time then
    match fuel with
    | O => None
    | S fuel' =>
        match read_messages_body end_time c w with
        | (Ok Continue, c', w') => read_messages_loop fuel' end_time c' w'
        | (Ok Break, c', w') => Some (Ok tt, c', w')
        | (Raise e, c', w') => Some (Raise e, c', w')
        end
    end
  else Some (Ok tt, c, w).

(** [read_messages] *)
Definition read_messages (fuel : nat) (window_seconds : Z) (c : client) (w : world)
  : option (outcome unit * client * world) :=
  match sock c with
  | None => Some (Ok tt, c, w)
  | Some _ =>
      let end_time := (time_time w + inject_Z window_seconds)%Q in
      read_messages_loop fuel end_time c w
  end.

End Messages.

(** ** Auxiliary definitions for the statements *)

(** The integers a byte can hold. *)
Definition all_small : list Z := map Z.of_nat (seq 0 256).

(** The client's view of the byte stream: its leftover buffer followed by
    what the peer still has to deliver. *)
Definition stream (c : client) (w : world) : bytes := buffer c ++ pending (incoming w).

(** The events a call added to the trace. *)
Definition new_events (w w' : world) : list io_event :=
  drop (List.length (trace w)) (trace w').

(** The parts of the world that reading from the socket leaves alone. *)
Definition same_env (w w' : world) : Prop :=
  send_faults w' = send_faults w /\ entropy w' = entropy w /\ drawn w' = drawn w
  /\ connect_fault w' = connect_fault w /\ tls_fault w' = tls_fault w
  /\ close_fault w' = close_fault w.

(** A [recv] that blocked no longer than [T]. *)
Definition is_recv_within (T : Q) (ev : io_event) : Prop :=
  match ev with
  | EvRecv _ blocked _ => (blocked <= T)%Q
  | _ => False
  end.

(** A [recv] that returned zero bytes: the peer has closed. *)
Definition closed_read (ev : io_event) : bool :=
  match ev with
  | EvRecv _ _ (Ok []) => true
  | _ => false
  end.

(** A [recv] that raised [socket.timeout]. *)
Definition timed_out_read (ev : io_event) : bool :=
  match ev with
  | EvRecv _ _ (Raise socket_timeout) => true
  | _ => false
  end.

(** Reading moved the client from [(c, w)] to [(c', w')]: it took [consumed]
    off the front of the byte stream and made the socket reads [evs], each
    under the timeout [T], and nothing else. *)
Record pulled (T : Q) (c : client) (w : world) (c' : client) (w' : world)
    (consumed : bytes) (evs : list io_event) : Prop := {
  pulled_url : url c' = url c;
  pulled_sock : sock c' = sock c;
  pulled_stream : stream c w = consumed ++ stream c' w';
  pulled_env : same_env w w';
  pulled_trace : trace w' = trace w ++ evs;
  pulled_recv : Forall (is_recv_within T) evs
}.

(** The next [need] bytes reach the socket without a pause longer than [T]
    and before the peer closes. *)
Fixpoint arrives (T : Q) (inc : list (Q * bytes)) (need : nat) {struct inc} : bool :=
  match need, inc with
  | O, _ => true
  | _, [] => false
  | _, (d, chunk) :: rest =>
      Qle_bool d T && negb (Nat.eqb (List.length chunk) 0)
      && arrives T rest (need - List.length chunk)
  end.

(** The next [k] bytes of the stream are in the buffer or arrive in time. *)
Definition available (T : Q) (c : client) (w : world) (k : nat) : bool :=
  arrives T (incoming w) (k - List.length (buffer c)).

(** A pause longer than [T] comes before the next [need] bytes have
    reached the socket. *)
Fixpoint starves (T : Q) (inc : list (Q * bytes)) (need : nat) {struct inc} : bool :=
  match need, inc with
  | O, _ => false
  | _, [] => true
  | _, (d, chunk) :: rest =>
      if Qle_bool d T
      then negb (Nat.eqb (List.length chunk) 0) && starves T rest (need - List.length chunk)
      else true
  end.

(** *** The frame wire format, as the specification states it

    byte0 = FIN(1) RSV(3) opcode(4); byte1 = MASK(1) len7(7); a 2 or 8 byte
    big-endian extended length when len7 is 126 or 127; a 4-byte mask key
    when MASK = 1; the payload bytes, unmasked by cyclic XOR when masked.
    [wire_frame s] reads one frame off the front of [s]: its opcode, its
    payload and the bytes behind it; [None] when [s] holds no whole frame. *)

Definition take_exact (n : nat) (s : bytes) : option (bytes * bytes) :=
  if (List.length s <? n)%nat then None else Some (take n s, drop n s).

Definition wire_frame (s : bytes) : option (Z * bytes * bytes) :=
  match s with
  | byte0 :: byte1 :: s1 =>
      let opcode := Z_of_byte byte0 mod 16 in
      let mask := Z.testbit (Z_of_byte byte1) 7 in
      let len7 := Z_of_byte byte1 mod 128 in
      '(len, s2) ← (if len7 =? 126 then
                      '(ext, s2) ← take_exact 2 s1; Some (unpack_uint ext, s2)
                    else if len7 =? 127 then
                      '(ext, s2) ← take_exact 8 s1; Some (unpack_uint ext, s2)
                    else Some (len7, s1));
      '(key, s3) ← (if mask then '(k, s3) ← take_exact 4 s2; Some (Some k, s3)
                    else Some (None, s2));
      '(body, rest) ← take_exact (Z.to_nat len) s3;
      Some (opcode, match key with Some k => xor_mask k body | None => body end, rest)
  | _ => None
  end.

(** The header [_encode_frame] packs for a payload of [len] bytes. *)
Definition frame_header (opcode len : Z) : outcome bytes :=
  if len <? 126 then pack_BB (Z.lor 0x80 opcode) (Z.lor 0x80 len)
  else if len <? Z.shiftl 1 16
       then pack_BBH (Z.lor 0x80 opcode) (Z.lor 0x80 126) len
       else pack_BBQ (Z.lor 0x80 opcode) (Z.lor 0x80 127) len.

(** The layout of a client frame, as the specification states it: the FIN
    bit and the mask flag set; the length in the 7-bit field below 126,
    with the marker 126 and a 16-bit big-endian field for 126..65535, with
    the marker 127 and a 64-bit big-endian field beyond; a 4-byte mask key;
    the payload XORed with the key cycling over its 4 bytes. *)
Definition frame_layout (payload frame : bytes) : Prop :=
  let len := Z.of_nat (List.length payload) in
  exists (b0 b1 : byte) (ext mask_key : bytes),
    frame = [b0; b1] ++ ext ++ mask_key ++ xor_mask mask_key payload
    /\ Z.testbit (Z_of_byte b0) 7 = true
    /\ Z.testbit (Z_of_byte b1) 7 = true
    /\ List.length mask_key = 4%nat
    /\ (len < 126 -> Z.land (Z_of_byte b1) 0x7F = len /\ ext = [])
    /\ (126 <= len < 65536 ->
          Z.land (Z_of_byte b1) 0x7F = 126 /\ ext = be_bytes 2 len
          /\ unpack_uint ext = len)
    /\ (65536 <= len ->
          Z.land (Z_of_byte b1) 0x7F = 127 /\ ext = be_bytes 8 len
          /\ unpack_uint ext = len)
    /\ List.length (xor_mask mask_key payload) = List.length payload
    /\ (forall (i : nat) (b : byte), payload !! i = Some b ->
          exists k, mask_key !! (i mod 4)%nat = Some k
                    /\ xor_mask mask_key payload !! i = Some (byte_xor b k)).

(** What one call of [_recv_frame], from [(c, w)] to the result [r] in
    [(c', w')], owes its caller: a socket read that returned zero bytes makes
    it raise [ConnectionError]; when the read timeout elapses before two
    header bytes are there it returns [None] and loses no byte; and a frame
    it returns is a whole frame of the wire format, taken off the front of
    the byte stream and unmasked. *)
Definition decode_contract (T : Q) (c : client) (w : world)
    (r : outcome (option (Z * bytes))) (c' : client) (w' : world) : Prop :=
  (existsb closed_read (new_events w w') = true -> r = Raise ConnectionError)
  /\ ((0 < T)%Q -> starves T (incoming w) (2 - List.length (buffer c)) = true ->
      r = Ok None /\ stream c' w' = stream c w)
  /\ (forall op pl, r = Ok (Some (op, pl)) ->
      wire_frame (stream c w) = Some (op, pl, stream c' w')).

(** The exchange [connect] makes before it judges the reply: the key it
    sent, its socket, the parsed response and the bytes behind the
    response. *)
Definition handshake_exchange (urlparse : pystr -> url_parts)
  : M (pystr * socket * response * bytes) :=
  do ks <- open_socket urlparse;
  do rl <- os (_read_http_response (snd ks));
  ret (fst ks, snd ks, fst rl, snd rl).

(** The status field of the response held in [data]: the second
    white-space separated field of its first line, if there is one. *)
Definition status_field (data : bytes) : option pystr :=
  match split_by CRLF (fst (partition CRLF2 data)) with
  | first :: _ => split_ws (ascii_decode_replace first) !! 1%nat
  | [] => None
  end.

(** A malformed status line: the status field is missing or is not a
    number. *)
Definition malformed_status_line (data : bytes) : Prop :=
  match status_field data with
  | None => True
  | Some field => forall n, py_int field <> Ok n
  end.

(** ** Sample inputs *)

Definition demo_entropy (i : nat) : byte := byte_of_Z (Z.of_nat i * 37 + 5).

(** A world whose peer will send [inc]. *)
Definition demo_world (inc : list (Q * bytes)) : world :=
  World 0 inc [] demo_entropy 0 [] false false false.

(** A connected client with an empty buffer. *)
Definition demo_client : client := Client [] (Some (Socket 10)) [].

Definition demo_payload : bytes := ["h"; "e"; "l"; "l"; "o"]%byte.

(** [demo_payload] as a text frame under the mask key [05 2a 4f 74]. *)
Definition demo_frame : bytes :=
  ["129"; "133"; "005"; "*"; "O"; "t"; "m"; "O"; "#"; "024"; "j"]%byte.

(** A client that has not connected yet, for [ws://localhost:2953/]. *)
Definition demo_urlparse (u : pystr) : url_parts :=
  UrlParts (py "ws") (Some (py "localhost")) (Ok (Some 2953)) (py "/") [].
Definition demo_fresh : client := init (py "ws://localhost:2953/").

(** The key [connect] draws in [demo_world] and the reply of a server that
    accepts it. *)
Definition demo_key : pystr :=
  match ascii_decode (b64encode (map demo_entropy (seq 0 16))) with
  | Ok k => k
  | Raise _ => []
  end.
Definition demo_accept : bytes :=
  match accept_value demo_key with
  | Ok a => match ascii_encode a with Ok b => b | Raise _ => [] end
  | Raise _ => []
  end.
Definition demo_reply : bytes :=
  pyb "HTTP/1.1 101 Switching Protocols" ++ CRLF
  ++ pyb "Upgrade: websocket" ++ CRLF
  ++ pyb "Sec-WebSocket-Accept: " ++ demo_accept ++ CRLF2.

(** A reply whose status field is not a number. *)
Definition demo_bad_reply : bytes :=
  pyb "HTTP/1.1 abc Switching Protocols" ++ CRLF
  ++ pyb "Sec-WebSocket-Accept: " ++ demo_accept ++ CRLF2.

(** A socket read, if [ev] is one, blocked no longer than [T]. *)
Definition recv_blocked_within (T : Q) (ev : io_event) : Prop :=
  match ev with
  | EvRecv _ blocked _ => (blocked <= T)%Q
  | _ => True
  end.

(** A stand-in for the UTF-8 decoder in the sample runs. *)
Definition demo_decode (b : bytes) : pystr := map Byte.to_N b.

(** The unmasked text frame "hi", and a peer that sends it one piece every
    0.9 seconds. *)
Definition demo_text_frame : bytes := ["129"; "002"; "h"; "i"]%byte.
Definition demo_slow_world : world :=
  demo_world [((9 # 10)%Q, ["129"]%byte); ((9 # 10)%Q, ["002"]%byte);
              ((9 # 10)%Q, ["h"; "i"]%byte)].

(** A peer that sends the unmasked ping "hi", and one that sends an empty
    close frame. *)
Definition demo_ping_world : world := demo_world [(1%Q, ["137"; "002"; "h"; "i"]%byte)].
Definition demo_close_world : world := demo_world [(1%Q, ["136"; "000"]%byte)].

(** A peer that sends the header of a 5-byte text frame and then stays
    silent for 100 seconds. *)
Definition demo_stalled_world : world :=
  demo_world [(0%Q, ["129"; "005"]%byte); (100%Q, pyb "hello")].

(** The port [connect] goes to: the URL's, unless it is absent or zero;
    then 443 for wss and 80 for ws. *)
Definition effective_port (parsed : url_parts) (p : option Z) : Z :=
  let dflt := if bool_decide (scheme parsed = py "wss") then 443 else 80 in
  match p with
  | Some n => if n =? 0 then dflt else n
  | None => dflt
  end.

(** The socket was closed. *)
Definition is_close (ev : io_event) : bool :=
  match ev with EvClose => true | _ => false end.

(** ** The end of [main]: the exchange with the server *)

(** How a piece of [main] ends: it goes on, an exception leaves it, or
    [sys.exit(msg)] ends the process. *)
Inductive ending :=
| Returns
| Raises (e : exn)
| Exits (msg : pystr).

Section Session.

Variable Dict : Type.
Variable json_dumps : Dict -> outcome pystr.
Variable utf8_decode_replace : bytes -> pystr.

(** [{"type": "sensory", "text": description}] *)
Variable sensory : pystr -> Dict.

(** [str(err)] for an exception. *)
Variable str_of_exn : exn -> pystr.

(** The [try] block at the end of [main] (source lines 358-361): the
    credentials, the sensory message, then the replies. *)
Definition interaction (fuel : nat) (user token description : pystr) (reply_window : Z)
    (c : client) (w : world) : option (outcome unit * client * world) :=
  match (run send_text (user ++ py ":" ++ token);
         run send_json Dict json_dumps (sensory description);
         os (fun w => (Ok tt,
               print (0x1F4E4%N :: py " Sent sensory message, waiting for replies...") w)))
          c w with
  | (Ok _, c1, w1) => read_messages utf8_decode_replace fuel reply_window c1 w1
  | (Raise e, c1, w1) => Some (Raise e, c1, w1)
  end.

(** [try: ... except Exception as err: sys.exit(...) finally: client.close()]
    (source lines 357-365).  An exception of [close] replaces the pending
    exit. *)
Definition session (fuel : nat) (user token description : pystr) (reply_window : Z)
    (c : client) (w : world) : option (ending * client * world) :=
  match interaction fuel user token description reply_window c w with
  | None => None
  | Some (r, c1, w1) =>
      let '(rc, c2, w2) := close c1 w1 in
      Some (match rc, r with
            | Raise e, _ => Raises e
            | Ok _, Ok _ => Returns
            | Ok _, Raise e =>
                Exits (py "WebSocket interaction failed: " ++ str_of_exn e)
            end, c2, w2)
  end.

End Session.

(** Every chunk of the peer arrives after a delay that is not negative. *)
Definition punctual (w : world) : Prop :=
  Forall (fun dc : Q * bytes => (0 <= fst dc)%Q) (incoming w).

(** ** The tool around the client *)

(** How a function of the tool ends: it returns a value, [sys.exit(msg)]
    ends the process, or an exception leaves it. *)
Inductive completion (A : Type) :=
| Done (a : A)
| SysExit (msg : pystr)
| Uncaught (e : exn).
Arguments Done {A} a.
Arguments SysExit {A} msg.
Arguments Uncaught {A} e.

(** *** [load_config] *)

Record Config := {
  ws_url : pystr;
  user : pystr;
  token : pystr;
  openai_api_key : pystr;
  openai_model : pystr;
  capture_cmd : list pystr;
  openai_base_url : pystr;
  request_timeout : Z;
  reply_window : Z
}.

(** [os.getenv(name, default)] over the process environment. *)
Definition getenv (environ : gmap pystr pystr) (name default : pystr) : pystr :=
  match environ !! name with
  | Some value => value
  | None => default
  end.

(** [s.rstrip("/")] *)
Fixpoint lstrip_slashes (s : pystr) : pystr :=
  match s with
  | ch :: rest => if (ch =? 47)%N then lstrip_slashes rest else s
  | [] => []
  end.
Definition rstrip_slashes (s : pystr) : pystr := rev (lstrip_slashes (rev s)).

Section LoadConfig.

(** [int(s)] for any [str] *)
Variable int : pystr -> outcome Z.

Definition load_config (environ : gmap pystr pystr) : completion Config :=
  let ws_url := getenv environ (py "WS_URL") (py "ws://localhost:2953/") in
  let user := getenv environ (py "USER_NAME") (py "camera-user") in
  let token := getenv environ (py "WEB_AUTH_TOKEN") (py "test-token") in
  match environ !! py "OPENAI_API_KEY" with
  | None | Some [] => SysExit (py "OPENAI_API_KEY is required")
  | Some openai_api_key =>
      let openai_model := getenv environ (py "OPENAI_MODEL") (py "gpt-4o-mini") in
      let openai_base_url :=
        getenv environ (py "OPENAI_BASE_URL") (py "https://api.openai.com") in
      match int (getenv environ (py "OPENAI_TIMEOUT_SECONDS") (py "30")) with
      | Raise e => Uncaught e
      | Ok request_timeout =>
          match int (getenv environ (py "WS_REPLY_WINDOW_SECONDS") (py "10")) with
          | Raise e => Uncaught e
          | Ok reply_window =>
              let capture_cmd :=
                [py "fswebcam"; py "--device"; py "/dev/video0"; py "--input"; py "0";
                 py "--resolution"; py "1920x1080"; py "--no-banner"] in
              Done {| ws_url := ws_url;
                      user := user;
                      token := token;
                      openai_api_key := openai_api_key;
                      openai_model := openai_model;
                      capture_cmd := capture_cmd;
                      openai_base_url := rstrip_slashes openai_base_url;
                      request_timeout := request_timeout;
                      reply_window := reply_window |}
          end
      end
  end.

End LoadConfig.

(** The URL [describe_image] posts to. *)
Definition completions_url (cfg : Config) : pystr :=
  openai_base_url cfg ++ py "/v1/chat/completions".

(** An environment that sets the API key and a base URL with slashes at its
    end. *)
Definition demo_environ : gmap pystr pystr :=
  <[py "OPENAI_API_KEY" := py "sk-demo"]>
    (<[py "OPENAI_BASE_URL" := py "http://proxy.local/api//"]> ∅).

(** * Properties *)

(** ** Bytes *)

Lemma small_in (z : Z) : 0 <= z < 256 -> In z all_small.
Proof.
  intros H. unfold all_small. apply in_map_iff. exists (Z.to_nat z).
  split; [lia | apply in_seq; lia].
Qed.

Lemma Z_of_byte_of_Z_small (z : Z) : 0 <= z < 256 -> Z_of_byte (byte_of_Z z) = z.
Proof.
  intros H. apply small_in in H.
  assert (A : forallb (fun z => Z_of_byte (byte_of_Z z) =? z) all_small = true)
    by (vm_compute; reflexivity).
  rewrite forallb_forall in A. apply Z.eqb_eq, A, H.
Qed.

Lemma byte_of_Z_mod (z : Z) : byte_of_Z (z mod 256) = byte_of_Z z.
Proof.
  unfold byte_of_Z. change 256 with (2 ^ 8).
  rewrite !Z.mod_pow2_bits_low by lia. reflexivity.
Qed.

Lemma Z_of_byte_of_Z (z : Z) : Z_of_byte (byte_of_Z z) = z mod 256.
Proof.
  rewrite <- byte_of_Z_mod. apply Z_of_byte_of_Z_small. apply Z.mod_pos_bound. lia.
Qed.

Lemma Z_of_byte_range (b : byte) : 0 <= Z_of_byte b < 256.
Proof.
  unfold Z_of_byte. pose proof (Byte.to_N_bounded b). lia.
Qed.

Lemma byte_of_Z_of_byte (b : byte) : byte_of_Z (Z_of_byte b) = b.
Proof. destruct b; reflexivity. Qed.

Lemma byte_xor_involutive (a k : byte) : byte_xor (byte_xor a k) k = a.
Proof.
  unfold byte_xor.
  destruct (Byte.to_bits a) as (a0 & a1 & a2 & a3 & a4 & a5 & a6 & a7) eqn:Ea.
  destruct (Byte.to_bits k) as (k0 & k1 & k2 & k3 & k4 & k5 & k6 & k7) eqn:Ek.
  rewrite Byte.to_bits_of_bits.
  rewrite !xorb_assoc, !xorb_nilpotent, !xorb_false_r.
  rewrite <- Ea. apply Byte.of_bits_to_bits.
Qed.

(** On the integers the Python code works with, [byte_xor] is [^]. *)
Lemma byte_xor_lxor (a b : byte) :
  Z_of_byte (byte_xor a b) = Z.lxor (Z_of_byte a) (Z_of_byte b).
Proof.
  assert (A : forallb (fun x => forallb (fun y =>
      Z_of_byte (byte_xor (byte_of_Z x) (byte_of_Z y))
      =? Z.lxor (Z_of_byte (byte_of_Z x)) (Z_of_byte (byte_of_Z y))) all_small) all_small = true)
    by (vm_compute; reflexivity).
  rewrite forallb_forall in A.
  specialize (A _ (small_in _ (Z_of_byte_range a))).
  rewrite forallb_forall in A.
  specialize (A _ (small_in _ (Z_of_byte_range b))).
  rewrite !byte_of_Z_of_byte in A. apply Z.eqb_eq, A.
Qed.

(** ** Masking *)

Lemma xor_mask_length (k p : bytes) : length (xor_mask k p) = length p.
Proof. apply length_imap. Qed.

Lemma xor_mask_involutive (k p : bytes) : xor_mask k (xor_mask k p) = p.
Proof.
  unfold xor_mask. apply list_eq. intros i.
  rewrite !list_lookup_imap. destruct (p !! i) as [b|]; simpl; [|reflexivity].
  f_equal. apply byte_xor_involutive.
Qed.

(** ** Big-endian fields *)

Lemma be_bytes_length (n : nat) (v : Z) : length (be_bytes n v) = n.
Proof. induction n; simpl; congruence. Qed.

Lemma unpack_be_bytes_acc (n : nat) (v acc : Z) :
  0 <= v ->
  fold_left (fun a b => a * 256 + Z_of_byte b) (be_bytes n v) acc
  = acc * 2 ^ (8 * Z.of_nat n) + v mod 2 ^ (8 * Z.of_nat n).
Proof.
  intros Hv. revert acc. induction n as [|k IH]; intros acc.
  - simpl. rewrite Z.mod_1_r. lia.
  - cbn [be_bytes fold_left]. rewrite IH, Z_of_byte_of_Z, Z.shiftr_div_pow2 by lia.
    replace (8 * Z.of_nat (S k)) with (8 * Z.of_nat k + 8) by lia.
    rewrite Z.pow_add_r by lia.
    change (2 ^ 8) with 256.
    rewrite (Z.rem_mul_r v (2 ^ (8 * Z.of_nat k)) 256) by lia.
    lia.
Qed.

Lemma unpack_be_bytes (n : nat) (v : Z) :
  0 <= v < 2 ^ (8 * Z.of_nat n) -> unpack_uint (be_bytes n v) = v.
Proof.
  intros H. unfold unpack_uint. rewrite unpack_be_bytes_acc by lia.
  rewrite Z.mod_small; lia.
Qed.

Lemma unpack_uint_bound (bs : bytes) : 0 <= unpack_uint bs < 2 ^ (8 * Z.of_nat (length bs)).
Proof.
  unfold unpack_uint.
  enough (G : forall acc k, 0 <= acc < 2 ^ (8 * Z.of_nat k) ->
              0 <= fold_left (fun a b => a * 256 + Z_of_byte b) bs acc
                < 2 ^ (8 * Z.of_nat (k + length bs))).
  { apply (G 0 0%nat). simpl. lia. }
  induction bs as [|b bs IH]; intros acc k H; simpl.
  - rewrite Nat.add_0_r. exact H.
  - replace (k + S (length bs))%nat with (S k + length bs)%nat by lia.
    apply IH. pose proof (Z_of_byte_range b).
    replace (8 * Z.of_nat (S k)) with (8 * Z.of_nat k + 8) by lia.
    rewrite Z.pow_add_r by lia. change (2 ^ 8) with 256. lia.
Qed.

(** ** The monad *)

Ltac inv_eq H := inversion H; subst; clear H.

(** ** [sock.recv] *)

Lemma pending_cons (d : Q) (chunk : bytes) (rest : list (Q * bytes)) :
  pending ((d, chunk) :: rest) = chunk ++ pending rest.
Proof. reflexivity. Qed.

Lemma recv_step_spec (s : socket) (n : nat) (inc : list (Q * bytes)) r blocked inc' :
  recv_step s n inc = (r, blocked, inc') ->
  (blocked <= timeout s)%Q
  /\ pending inc = match r with Ok chunk => chunk | Raise _ => [] end ++ pending inc'.
Proof.
  unfold recv_step. destruct inc as [|[d chunk] rest].
  - intros H; inv_eq H. split; [apply Qle_refl | reflexivity].
  - destruct (Qle_bool d (timeout s)) eqn:E.
    + apply Qle_bool_iff in E.
      destruct chunk as [|b chunk].
      { intros H; inv_eq H. split; [exact E | reflexivity]. }
      destruct (drop n (b :: chunk)) as [|x later] eqn:D; intros H; inv_eq H.
      * split; [exact E | reflexivity].
      * split; [exact E |]. rewrite !pending_cons, <- D.
        rewrite app_assoc. f_equal. symmetry. apply take_drop.
    + intros H; inv_eq H. split; [apply Qle_refl | reflexivity].
Qed.

Lemma sock_recv_spec (s : socket) (n : nat) (w : world) r w' :
  sock_recv s n w = (r, w') ->
  exists blocked,
    (blocked <= timeout s)%Q
    /\ pending (incoming w) = match r with Ok chunk => chunk | Raise _ => [] end
                               ++ pending (incoming w')
    /\ same_env w w'
    /\ trace w' = trace w ++ [EvRecv n blocked r].
Proof.
  unfold sock_recv. destruct (recv_step s n (incoming w)) as [[r0 blocked] inc'] eqn:E.
  intros H; inv_eq H. apply recv_step_spec in E as [Hb Hp].
  exists blocked. repeat split; assumption.
Qed.

(** ** [_read_exact] *)

Lemma read_exact_loop_eq (n : nat) (c : client) (w : world) :
  read_exact_loop n c w =
  if lt_dec (length (buffer c)) n then
    match sock c with
    | None => (Raise AttributeError, c, w)
    | Some s =>
        match sock_recv s (n - length (buffer c)) w with
        | (Raise e, w') => (Raise e, c, w')
        | (Ok [], w') => (Raise ConnectionError, c, w')
        | (Ok (b :: chunk), w') =>
            read_exact_loop n (set_buffer (buffer c ++ b :: chunk) c) w'
        end
    end
  else (Ok tt, c, w).
Proof.
  simp read_exact_loop.
  destruct (lt_dec (length (buffer c)) n); simpl; [|reflexivity].
  destruct (sock c); simpl; [|reflexivity].
  destruct (sock_recv s _ w) as [[[|b chunk]|e] w']; reflexivity.
Qed.

Lemma pulled_refl (T : Q) (c : client) (w : world) : pulled T c w c w [] [].
Proof.
  split; try reflexivity.
  - unfold same_env; tauto.
  - symmetry; apply app_nil_r.
  - constructor.
Qed.

Lemma same_env_trans (w1 w2 w3 : world) : same_env w1 w2 -> same_env w2 w3 -> same_env w1 w3.
Proof. unfold same_env. intuition congruence. Qed.

Lemma pulled_trans (T : Q) c1 w1 c2 w2 c3 w3 b1 b2 e1 e2 :
  pulled T c1 w1 c2 w2 b1 e1 -> pulled T c2 w2 c3 w3 b2 e2 ->
  pulled T c1 w1 c3 w3 (b1 ++ b2) (e1 ++ e2).
Proof.
  intros [] []. split.
  - congruence.
  - congruence.
  - rewrite <- app_assoc. congruence.
  - eapply same_env_trans; eassumption.
  - rewrite app_assoc. congruence.
  - apply Forall_app; split; assumption.
Qed.

(** One pass of the loop leaves the stream as it was: what [recv] returned is
    now at the end of the buffer. *)
Lemma read_exact_loop_spec (n : nat) (s : socket) (c : client) (w : world) r c' w' :
  sock c = Some s ->
  read_exact_loop n c w = (r, c', w') ->
  exists evs,
    pulled (timeout s) c w c' w' [] evs
    /\ (existsb closed_read evs = true -> r = Raise ConnectionError)
    /\ (r = Ok tt -> n <= length (buffer c'))%nat.
Proof.
  remember (n - length (buffer c))%nat as m eqn:Hm.
  revert c w Hm. induction m as [m IH] using lt_wf_ind. intros c w Hm Hs.
  rewrite read_exact_loop_eq, Hs.
  destruct (lt_dec (length (buffer c)) n) as [Hlt|Hge].
  - destruct (sock_recv s (n - length (buffer c)) w) as [[[|b chunk]|e] w1] eqn:E;
      apply sock_recv_spec in E as (blocked & Hb & Hp & He & Ht).
    + intros H; inv_eq H. eexists; split; [split|split]; try reflexivity; try eassumption.
      * unfold stream. rewrite Hp. reflexivity.
      * repeat constructor. exact Hb.
      * discriminate.
    + intros H.
      eapply (IH (n - length (buffer (set_buffer (buffer c ++ b :: chunk) c)))%nat) in H;
        [ | simpl; rewrite length_app; simpl; lia | reflexivity | exact Hs ].
      destruct H as (evs & Hpull & Hclosed & Hlen).
      exists ([EvRecv (n - length (buffer c)) blocked (Ok (b :: chunk))] ++ evs).
      split; [|split].
      * change (@nil byte) with (@nil byte ++ @nil byte).
        eapply pulled_trans; [|exact Hpull].
        split; try reflexivity; try assumption.
        -- unfold stream. simpl. rewrite Hp, <- app_assoc. reflexivity.
        -- repeat constructor. exact Hb.
      * simpl. exact Hclosed.
      * exact Hlen.
    + intros H; inv_eq H. eexists; split; [split|split]; try reflexivity; try eassumption.
      * unfold stream. rewrite Hp. reflexivity.
      * repeat constructor. exact Hb.
      * simpl. destruct e; discriminate.
      * discriminate.
  - intros H; inv_eq H. exists []. split; [apply pulled_refl|]. split; [discriminate|lia].
Qed.

Lemma read_exact_spec (n : nat) (s : socket) (c : client) (w : world) r c' w' :
  sock c = Some s ->
  _read_exact n c w = (r, c', w') ->
  exists evs,
    pulled (timeout s) c w c' w' (match r with Ok data => data | Raise _ => [] end) evs
    /\ (existsb closed_read evs = true -> r = Raise ConnectionError)
    /\ (forall data, r = Ok data -> length data = n).
Proof.
  intros Hs. unfold _read_exact.
  destruct (n =? 0)%nat eqn:En.
  - apply Nat.eqb_eq in En. subst n. intros H; inv_eq H.
    exists []. split; [apply pulled_refl|]. split; [discriminate|].
    intros data H; inv_eq H. reflexivity.
  - unfold bind, get_buffer, put_buffer, ret.
    destruct (read_exact_loop n c w) as [[[[]|e] c1] w1] eqn:E; intros H; inv_eq H;
      apply (read_exact_loop_spec _ _ _ _ _ _ _ Hs) in E as (evs & Hp & Hc & Hl);
      exists evs.
    + split; [|split].
      * destruct Hp. split; try assumption.
        unfold stream in *. simpl. rewrite app_assoc, take_drop. assumption.
      * intros H. apply Hc in H. discriminate.
      * intros data H; inv_eq H. rewrite length_take. specialize (Hl eq_refl). lia.
    + split; [exact Hp|]. split; [|discriminate].
      intros H. apply Hc in H. congruence.
Qed.

Lemma arrives_0 (T : Q) (inc : list (Q * bytes)) : arrives T inc 0 = true.
Proof. destruct inc; reflexivity. Qed.

Lemma read_exact_loop_available (n k : nat) (s : socket) (c : client) (w : world) :
  sock c = Some s -> (0 <= timeout s)%Q -> (n <= k)%nat ->
  available (timeout s) c w k = true ->
  exists c' w',
    read_exact_loop n c w = (Ok tt, c', w')
    /\ available (timeout s) c' w' k = true.
Proof.
  intros Hs HT Hk.
  remember (n - length (buffer c))%nat as m eqn:Hm.
  revert c w Hm Hs. induction m as [m IH] using lt_wf_ind. intros c w Hm Hs Hav.
  rewrite read_exact_loop_eq, Hs.
  destruct (lt_dec (length (buffer c)) n) as [Hlt|Hge]; [|eauto].
  unfold available in Hav.
  destruct (k - length (buffer c))%nat as [|k'] eqn:Ek; [lia|].
  unfold sock_recv, recv_step.
  destruct (incoming w) as [|[d chunk] rest] eqn:Ei; [discriminate|].
  simpl in Hav. apply andb_prop in Hav as [Hav Hrest]. apply andb_prop in Hav as [Hd Hne].
  rewrite Hd. destruct chunk as [|b chunk]; [discriminate|].
  destruct (drop (n - length (buffer c)) (b :: chunk)) as [|x later] eqn:D.
  - eapply (IH (n - length (buffer (set_buffer (buffer c ++ b :: chunk) c)))%nat);
      [simpl; rewrite length_app; simpl; lia | reflexivity | exact Hs |].
    unfold available. simpl. rewrite length_app. simpl in *.
    replace (k - (length (buffer c) + S (length chunk)))%nat
      with (S k' - S (length chunk))%nat by lia.
    exact Hrest.
  - destruct (n - length (buffer c))%nat as [|m'] eqn:Em; [lia|].
    simpl take.
    eapply (IH (n - length (buffer (set_buffer (buffer c ++ b :: take m' chunk) c)))%nat);
      [simpl; rewrite length_app; simpl; lia | reflexivity | exact Hs |].
    unfold available. simpl.
    assert (Hl : length (x :: later) = (length (b :: chunk) - S m')%nat)
      by (rewrite <- D; apply length_drop).
    simpl in Hl.
    assert (Htk : length (take m' chunk) = m') by (rewrite length_take; lia).
    rewrite length_app. simpl. rewrite Htk.
    destruct (k - (length (buffer c) + S m'))%nat as [|j] eqn:Ej; [reflexivity|].
    simpl. apply Qle_bool_iff in HT. rewrite HT. simpl.
    replace (j - length later)%nat with (S k' - S (length chunk))%nat by lia.
    exact Hrest.
Qed.

(** When the next [n] bytes are available, [_read_exact n] returns them. *)
Lemma read_exact_available (n k : nat) (s : socket) (c : client) (w : world) :
  sock c = Some s -> (0 <= timeout s)%Q -> (n <= k)%nat ->
  available (timeout s) c w k = true ->
  exists c' w',
    _read_exact n c w = (Ok (take n (stream c w)), c', w')
    /\ sock c' = Some s
    /\ stream c' w' = drop n (stream c w)
    /\ available (timeout s) c' w' (k - n) = true.
Proof.
  intros Hs HT Hk Hav.
  destruct (_read_exact n c w) as [[r c'] w'] eqn:E.
  pose proof (read_exact_spec _ _ _ _ _ _ _ Hs E) as (evs & Hp & _ & Hlen).
  revert E. unfold _read_exact.
  destruct (n =? 0)%nat eqn:En.
  - apply Nat.eqb_eq in En. subst n. intros H; inv_eq H.
    exists c', w'. rewrite Nat.sub_0_r. auto.
  - destruct (read_exact_loop_available n k s c w Hs HT Hk Hav) as (c1 & w1 & E1 & Hav1).
    unfold bind, get_buffer, put_buffer, ret. rewrite E1. intros H; inv_eq H.
    destruct Hp. simpl in *.
    assert (Hn : length (take n (buffer c1)) = n) by (apply Hlen; reflexivity).
    exists (set_buffer (drop n (buffer c1)) c1), w'. split; [|split; [|split]].
    + rewrite pulled_stream0. rewrite take_app_length'; [reflexivity | symmetry; exact Hn].
    + simpl. congruence.
    + rewrite pulled_stream0. rewrite drop_app_length'; [reflexivity | symmetry; exact Hn].
    + unfold available in *. simpl. rewrite length_drop.
      rewrite length_take in Hn.
      replace (k - n - (length (buffer c1) - n))%nat with (k - length (buffer c1))%nat by lia.
      exact Hav1.
Qed.

(** ** [_recv_frame] *)

Lemma take_exact_app (n : nat) (x y : bytes) :
  length x = n -> take_exact n (x ++ y) = Some (x, y).
Proof.
  intros H. unfold take_exact.
  destruct (Nat.ltb_spec (length (x ++ y)) n) as [Hlt|_].
  - rewrite length_app in Hlt. lia.
  - rewrite take_app_length', drop_app_length' by (symmetry; exact H). reflexivity.
Qed.

Lemma land_15 (z : Z) : Z.land z 0x0F = z mod 16.
Proof. change 0x0F with (Z.ones 4). rewrite Z.land_ones by lia. reflexivity. Qed.

Lemma land_127 (z : Z) : Z.land z 0x7F = z mod 128.
Proof. change 0x7F with (Z.ones 7). rewrite Z.land_ones by lia. reflexivity. Qed.

Lemma land_128 (z : Z) : (Z.land z 0x80 =? 0) = negb (Z.testbit z 7).
Proof.
  destruct (Z.testbit z 7) eqn:E; simpl.
  - apply Z.eqb_neq. intros H.
    assert (A : Z.testbit (Z.land z 128) 7 = true)
      by (rewrite Z.land_spec, E; reflexivity).
    rewrite H in A. discriminate.
  - apply Z.eqb_eq. apply Z.bits_inj'. intros n Hn.
    rewrite Z.land_spec, Z.bits_0.
    destruct (Z.eq_dec n 7) as [->|Hne]; [rewrite E; reflexivity|].
    change 128 with (2 ^ 7). rewrite Z.pow2_bits_eqb by lia.
    replace (7 =? n) with false by (symmetry; apply Z.eqb_neq; lia).
    apply andb_false_r.
Qed.

(** A read that is made or skipped, as [_recv_frame] does for the extended
    length, the mask key and the payload. *)
Lemma read_if_spec {A} (skip : bool) (n : nat) (dflt : A) (f : bytes -> A)
    (s : socket) (c : client) (w : world) r c' w' :
  sock c = Some s ->
  (if skip then ret dflt else do k <- _read_exact n; ret (f k)) c w = (r, c', w') ->
  exists data evs,
    pulled (timeout s) c w c' w' data evs
    /\ (existsb closed_read evs = true -> r = Raise ConnectionError)
    /\ (forall a, r = Ok a ->
          length data = (if skip then 0%nat else n)
          /\ a = if skip then dflt else f data).
Proof.
  intros Hs. destruct skip.
  - intros H; inv_eq H. exists [], []. split; [apply pulled_refl|].
    split; [discriminate|]. intros a H; inv_eq H. auto.
  - unfold bind, ret. destruct (_read_exact n c w) as [[[data|e] c1] w1] eqn:E;
      intros H; inv_eq H;
      apply (read_exact_spec _ _ _ _ _ _ _ Hs) in E as (evs & Hp & Hc & Hl).
    + exists data, evs. split; [exact Hp|]. split.
      * intros H. apply Hc in H. discriminate.
      * intros a H; inv_eq H. auto.
    + exists [], evs. split; [exact Hp|]. split.
      * intros H. apply Hc in H. congruence.
      * discriminate.
Qed.

Lemma pulled_new_events T c w c' w' consumed evs :
  pulled T c w c' w' consumed evs -> new_events w w' = evs.
Proof.
  intros []. unfold new_events. rewrite pulled_trace0.
  apply drop_app_length.
Qed.

Lemma bind_run {A B} (m : M A) (k : A -> M B) (c : client) (w : world) :
  bind m k c w =
  match m c w with
  | (Ok a, c', w') => k a c' w'
  | (Raise e, c', w') => (Raise e, c', w')
  end.
Proof. reflexivity. Qed.

Lemma bind_ret_r {A} (m : M A) (c : client) (w : world) :
  (do k <- m; ret k) c w = m c w.
Proof. unfold bind, ret. destruct (m c w) as [[[a|e] c1] w1]; reflexivity. Qed.

Ltac closed_tac :=
  let H := fresh "H" in
  intros H; rewrite ?existsb_app in H;
  repeat (apply orb_prop in H as [H|H]);
  match goal with
  | Hc : existsb closed_read ?e = true -> _, H' : existsb closed_read ?e = true |- _ =>
      apply Hc in H'; first [discriminate | congruence]
  end.

Lemma recv_frame_spec (T : Q) (s : socket) (c : client) (w : world) r c' w' :
  sock c = Some s -> (0 <= T)%Q ->
  _recv_frame T c w = (r, c', w') ->
  exists consumed evs,
    pulled T (set_sock (Some (Socket T)) c) w c' w' consumed evs
    /\ (existsb closed_read evs = true -> r = Raise ConnectionError)
    /\ (forall op pl, r = Ok (Some (op, pl)) ->
          forall rest, wire_frame (consumed ++ rest) = Some (op, pl, rest))
    /\ (r = Ok None -> consumed = []).
Proof.
  intros Hs HT. unfold _recv_frame. rewrite bind_run. unfold get_sock at 1. rewrite Hs.
  rewrite bind_run. unfold settimeout. apply Qle_bool_iff in HT. rewrite HT.
  unfold put_sock at 1. set (c1 := set_sock (Some (Socket T)) c).
  assert (Hs1 : sock c1 = Some (Socket T)) by reflexivity.
  rewrite bind_run. unfold try_except at 1. rewrite bind_run.
  destruct (_read_exact 2 c1 w) as [[[header|e] c2] w2] eqn:E1;
    apply (read_exact_spec _ _ _ _ _ _ _ Hs1) in E1 as (ev1 & Hp1 & Hc1 & Hl1);
    simpl timeout in *.
  2:{ destruct (is_timeout e) eqn:Et.
      - unfold ret. intros H; inv_eq H. exists [], ev1. split; [exact Hp1|].
        split; [|split; [discriminate|reflexivity]].
        intros H. apply Hc1 in H. destruct e; discriminate.
      - intros H; inv_eq H. exists [], ev1. split; [exact Hp1|].
        split; [|split; discriminate].
        intros H. apply Hc1 in H. congruence. }
  specialize (Hl1 _ eq_refl).
  destruct header as [|b1 [|b2 [|? ?]]]; try discriminate Hl1. clear Hl1.
  unfold ret at 1.
  assert (Hs2 : sock c2 = Some (Socket T)) by (destruct Hp1; congruence).
  rewrite bind_run.
  set (len7 := Z.land (Z_of_byte b2) 0x7F).
  set (long := negb (len7 =? 126) && negb (len7 =? 127)).
  set (n2 := if len7 =? 126 then 2%nat else 8%nat).
  replace (if len7 =? 126 then _ else _)
    with (if long then ret len7 else do k <- _read_exact n2; ret (unpack_uint k))
    by (unfold long, n2; destruct (len7 =? 126), (len7 =? 127); reflexivity).
  match goal with |- context [(if long then ?a else ?b) c2 w2] =>
    destruct ((if long then a else b) c2 w2) as [[r2 c3] w3] eqn:E2 end.
  apply (read_if_spec _ _ _ _ _ _ _ _ _ _ Hs2) in E2 as (d2 & ev2 & Hp2 & Hc2 & Hv2).
  simpl timeout in *.
  pose proof (pulled_trans _ _ _ _ _ _ _ _ _ _ _ Hp1 Hp2) as Hp12.
  destruct r2 as [len|e].
  2:{ intros H; inv_eq H. exists ([b1; b2] ++ d2), (ev1 ++ ev2). split; [exact Hp12|].
      split; [|split; discriminate]. closed_tac. }
  destruct (Hv2 _ eq_refl) as [Hl2 Hlen]. clear Hv2.
  assert (Hs3 : sock c3 = Some (Socket T)) by (destruct Hp2; congruence).
  rewrite bind_run.
  match goal with |- context [(if ?g =? 0 then ?a else ?b) c3 w3] =>
    destruct ((if g =? 0 then a else b) c3 w3) as [[r3 c4] w4] eqn:E3 end.
  apply (read_if_spec _ _ _ _ _ _ _ _ _ _ Hs3) in E3 as (d3 & ev3 & Hp3 & Hc3 & Hv3).
  simpl timeout in *.
  pose proof (pulled_trans _ _ _ _ _ _ _ _ _ _ _ Hp12 Hp3) as Hp123.
  destruct r3 as [key|e].
  2:{ intros H; inv_eq H. eexists _, _. split; [exact Hp123|].
      split; [|split; discriminate]. closed_tac. }
  destruct (Hv3 _ eq_refl) as [Hl3 Hkey]. clear Hv3.
  assert (Hs4 : sock c4 = Some (Socket T)) by (destruct Hp3; congruence).
  rewrite bind_run.
  replace ((if len =? 0 then ret [] else _read_exact (Z.to_nat len)) c4 w4)
    with ((if len =? 0 then ret [] else do k <- _read_exact (Z.to_nat len); ret k) c4 w4)
    by (destruct (len =? 0); [reflexivity | apply bind_ret_r]).
  match goal with |- context [(if len =? 0 then ?a else ?b) c4 w4] =>
    destruct ((if len =? 0 then a else b) c4 w4) as [[r4 c5] w5] eqn:E4 end.
  apply (read_if_spec _ _ _ _ _ _ _ _ _ _ Hs4) in E4 as (d4 & ev4 & Hp4 & Hc4 & Hv4).
  simpl timeout in *.
  pose proof (pulled_trans _ _ _ _ _ _ _ _ _ _ _ Hp123 Hp4) as Hp1234.
  destruct r4 as [payload|e].
  2:{ intros H; inv_eq H. eexists _, _. split; [exact Hp1234|].
      split; [|split; discriminate]. closed_tac. }
  destruct (Hv4 _ eq_refl) as [Hl4 Hpay]. clear Hv4.
  unfold ret. intros H; inv_eq H. eexists _, _. split; [exact Hp1234|].
  split; [closed_tac|]. split; [|discriminate].
  intros op pl H rest; inv_eq H.
  set (len := if long then len7 else unpack_uint d2) in *.
  assert (Hd4 : (if len =? 0 then [] else d4) = d4 /\ length d4 = Z.to_nat len).
  { destruct (Z.eqb_spec len 0) as [E|E].
    - rewrite E. destruct d4; [auto | discriminate].
    - auto. }
  destruct Hd4 as [-> Hl4'].
  rewrite <- !app_assoc. simpl app. unfold wire_frame.
  rewrite <- land_127. fold len7.
  rewrite <- land_15.
  rewrite land_128 in Hl3 |- *.
  assert (E2 : (if len7 =? 126
                then '(ext, s2) ← take_exact 2 (d2 ++ d3 ++ d4 ++ rest);
                     Some (unpack_uint ext, s2)
                else if len7 =? 127
                     then '(ext, s2) ← take_exact 8 (d2 ++ d3 ++ d4 ++ rest);
                          Some (unpack_uint ext, s2)
                     else Some (len7, d2 ++ d3 ++ d4 ++ rest))
               = Some (len, d3 ++ d4 ++ rest)).
  { unfold len, long, n2 in *.
    destruct (len7 =? 126); [|destruct (len7 =? 127)]; simpl in Hl2 |- *.
    - rewrite take_exact_app by assumption. reflexivity.
    - rewrite take_exact_app by assumption. reflexivity.
    - destruct d2; [reflexivity | discriminate]. }
  rewrite E2. clear E2.
  destruct (Z.testbit (Z_of_byte b2) 7); simpl in Hl3 |- *.
  - rewrite take_exact_app by assumption. simpl.
    rewrite take_exact_app by assumption. simpl.
    destruct d3; [discriminate | reflexivity].
  - destruct d3; [|discriminate]. simpl.
    rewrite take_exact_app by assumption. reflexivity.
Qed.

Lemma read_if_available {A} (skip : bool) (n k : nat) (dflt : A) (f : bytes -> A)
    (s : socket) (c : client) (w : world) (data rest : bytes) :
  sock c = Some s -> (0 <= timeout s)%Q ->
  stream c w = data ++ rest ->
  length data = (if skip then 0%nat else n) ->
  (length data <= k)%nat ->
  available (timeout s) c w k = true ->
  exists c' w',
    (if skip then ret dflt else do x <- _read_exact n; ret (f x)) c w
      = (Ok (if skip then dflt else f data), c', w')
    /\ sock c' = Some s
    /\ stream c' w' = rest
    /\ available (timeout s) c' w' (k - length data) = true.
Proof.
  intros Hs HT Hst Hl Hk Hav. destruct skip.
  - destruct data; [|discriminate]. exists c, w. rewrite Nat.sub_0_r. auto.
  - rewrite Hl in Hk.
    destruct (read_exact_available n k s c w Hs HT Hk Hav) as (c' & w' & E & Hs' & Hst' & Hav').
    rewrite Hst in E, Hst'.
    rewrite take_app_length' in E by (symmetry; exact Hl).
    rewrite drop_app_length' in Hst' by (symmetry; exact Hl).
    exists c', w'. rewrite bind_run, E. unfold ret.
    rewrite Hl. auto.
Qed.

(** A whole frame that arrives in time is decoded. *)
Lemma recv_frame_complete (T : Q) (s : socket) (c : client) (w : world)
    (b1 b2 : byte) (ext key body rest : bytes) :
  let len7 := Z.land (Z_of_byte b2) 0x7F in
  let masked := Z.land (Z_of_byte b2) 0x80 in
  let len := if len7 =? 126 then unpack_uint ext
             else if len7 =? 127 then unpack_uint ext else len7 in
  sock c = Some s -> (0 <= T)%Q ->
  stream c w = [b1; b2] ++ ext ++ key ++ body ++ rest ->
  length ext = (if len7 =? 126 then 2%nat else if len7 =? 127 then 8%nat else 0%nat) ->
  length key = (if masked =? 0 then 0%nat else 4%nat) ->
  length body = Z.to_nat len ->
  available T c w (2 + length ext + length key + length body) = true ->
  exists c' w',
    _recv_frame T c w
      = (Ok (Some (Z.land (Z_of_byte b1) 0x0F,
                   if masked =? 0 then body else xor_mask key body)), c', w')
    /\ sock c' = Some (Socket T)
    /\ stream c' w' = rest.
Proof.
  intros len7 masked len Hs HT Hst Hle Hlk Hlb Hav.
  unfold _recv_frame. rewrite bind_run. unfold get_sock at 1. rewrite Hs.
  rewrite bind_run. unfold settimeout.
  pose proof HT as HT'. apply Qle_bool_iff in HT'. rewrite HT'.
  unfold put_sock at 1. set (c1 := set_sock (Some (Socket T)) c).
  assert (Hs1 : sock c1 = Some (Socket T)) by reflexivity.
  rewrite bind_run. unfold try_except at 1.
  set (k := (2 + length ext + length key + length body)%nat) in *.
  assert (Hk1 : (length [b1; b2] <= k)%nat) by (unfold k; simpl; lia).
  assert (Hk2 : (length ext <= k - length [b1; b2])%nat) by (unfold k; simpl; lia).
  assert (Hk3 : (length key <= k - length [b1; b2] - length ext)%nat)
    by (unfold k; simpl; lia).
  assert (Hk4 : (length body <= k - length [b1; b2] - length ext - length key)%nat)
    by (unfold k; simpl; lia).
  destruct (read_if_available false 2 k None Some (Socket T) c1 w [b1; b2] _
              Hs1 HT Hst eq_refl Hk1 Hav)
    as (c2 & w2 & E1 & Hs2 & Hst2 & Hav2).
  simpl timeout in *. rewrite E1. unfold ret at 1.
  rewrite bind_run. fold len7.
  set (long := negb (len7 =? 126) && negb (len7 =? 127)).
  set (n2 := if len7 =? 126 then 2%nat else 8%nat).
  replace (if len7 =? 126 then _ else _)
    with (if long then ret len7 else do k <- _read_exact n2; ret (unpack_uint k))
    by (unfold long, n2; destruct (len7 =? 126), (len7 =? 127); reflexivity).
  assert (Hle' : length ext = if long then 0%nat else n2)
    by (unfold long, n2; destruct (len7 =? 126), (len7 =? 127); exact Hle).
  destruct (read_if_available long n2 _ len7 unpack_uint (Socket T) c2 w2 ext _
              Hs2 HT Hst2 Hle' Hk2 Hav2)
    as (c3 & w3 & E2 & Hs3 & Hst3 & Hav3).
  simpl timeout in *. rewrite E2.
  replace (if long then len7 else unpack_uint ext) with len
    by (unfold len, long; destruct (len7 =? 126), (len7 =? 127); reflexivity).
  rewrite bind_run. fold masked.
  destruct (read_if_available (masked =? 0) 4 _ None Some (Socket T) c3 w3 key _
              Hs3 HT Hst3 Hlk Hk3 Hav3)
    as (c4 & w4 & E3 & Hs4 & Hst4 & Hav4).
  simpl timeout in *. rewrite E3.
  rewrite bind_run.
  replace ((if len =? 0 then ret [] else _read_exact (Z.to_nat len)) c4 w4)
    with ((if len =? 0 then ret [] else do k <- _read_exact (Z.to_nat len); ret k) c4 w4)
    by (destruct (len =? 0); [reflexivity | apply bind_ret_r]).
  assert (Hlb' : length body = if len =? 0 then 0%nat else Z.to_nat len)
    by (destruct (Z.eqb_spec len 0) as [E|E]; [rewrite Hlb, E; reflexivity | exact Hlb]).
  destruct (read_if_available (len =? 0) (Z.to_nat len) _ [] (fun x => x) (Socket T)
              c4 w4 body _ Hs4 HT Hst4 Hlb' Hk4 Hav4)
    as (c5 & w5 & E4 & Hs5 & Hst5 & Hav5).
  rewrite E4. unfold ret. exists c5, w5. split; [|auto].
  do 3 f_equal. f_equal.
  assert (Hb : (if len =? 0 then [] else body) = body).
  { destruct (len =? 0); [|reflexivity]. destruct body; [reflexivity | discriminate]. }
  rewrite Hb.
  destruct (masked =? 0); [reflexivity|].
  destruct key; [discriminate | reflexivity].
Qed.

(** ** [_encode_frame] *)

Lemma pack_uint_ok (n : nat) (v : Z) (bs : bytes) :
  pack_uint n v = Ok bs <-> 0 <= v < 2 ^ (8 * Z.of_nat n) /\ bs = be_bytes n v.
Proof.
  unfold pack_uint.
  destruct (Z.leb_spec 0 v), (Z.ltb_spec v (2 ^ (8 * Z.of_nat n))); simpl; split;
    intros G; try discriminate; try (inv_eq G; split; [lia | reflexivity]);
    destruct G as [G ->]; try reflexivity; lia.
Qed.

Lemma lor_128_small (z : Z) : 0 <= z < 128 -> Z.lor 0x80 z = 128 + z.
Proof.
  intros H.
  assert (A : forallb (fun z => if z <? 128 then Z.lor 0x80 z =? 128 + z else true)
                all_small = true) by (vm_compute; reflexivity).
  rewrite forallb_forall in A. specialize (A z (small_in z ltac:(lia))).
  destruct (Z.ltb_spec z 128); [apply Z.eqb_eq, A | lia].
Qed.

Lemma lor_128_testbit (z : Z) : Z.testbit (Z.lor 0x80 z) 7 = true.
Proof. rewrite Z.lor_spec. reflexivity. Qed.

Lemma lor_128_low (z : Z) : Z.land (Z.lor 0x80 z) 0x0F = Z.land z 0x0F.
Proof. rewrite Z.land_lor_distr_l. reflexivity. Qed.

Lemma lor_128_len7 (z : Z) : Z.land (Z.lor 0x80 z) 0x7F = Z.land z 0x7F.
Proof. rewrite Z.land_lor_distr_l. reflexivity. Qed.

Lemma lor_128_range (z : Z) : 0 <= z < 256 -> 0 <= Z.lor 0x80 z < 256.
Proof.
  intros H.
  assert (A : forallb (fun z => (0 <=? Z.lor 0x80 z) && (Z.lor 0x80 z <? 256))
                all_small = true) by (vm_compute; reflexivity).
  rewrite forallb_forall in A. specialize (A z (small_in z H)).
  apply andb_prop in A as [A1 A2]. apply Z.leb_le in A1. apply Z.ltb_lt in A2. lia.
Qed.

Lemma urandom_length (n : nat) (w : world) : length (fst (os_urandom n w)) = n.
Proof. unfold os_urandom. simpl. rewrite length_map, length_seq. reflexivity. Qed.

Lemma encode_frame_run (payload : bytes) (opcode : Z) (c : client) (w : world) :
  _encode_frame payload opcode c w =
  match frame_header opcode (Z.of_nat (length payload)) with
  | Ok header =>
      let key := map (entropy w) (seq (drawn w) 4) in
      (Ok (header ++ key ++ xor_mask key payload), c, with_drawn (drawn w + 4) w)
  | Raise e => (Raise e, c, w)
  end.
Proof.
  unfold _encode_frame, frame_header, bind, of_outcome, os, ret.
  destruct (if Z.of_nat (length payload) <? 126 then _ else _); reflexivity.
Qed.

(** The header of every frame that is produced. *)
Lemma frame_header_ok (opcode len : Z) (header : bytes) :
  0 <= len ->
  frame_header opcode len = Ok header ->
  0 <= Z.lor 0x80 opcode < 256 /\ len < 2 ^ 64 /\
  exists b1 ext,
    header = [byte_of_Z (Z.lor 0x80 opcode); b1] ++ ext
    /\ Z.testbit (Z_of_byte b1) 7 = true
    /\ (len < 126 -> Z.land (Z_of_byte b1) 0x7F = len /\ ext = [])
    /\ (126 <= len < 65536 ->
          Z.land (Z_of_byte b1) 0x7F = 126 /\ ext = be_bytes 2 len)
    /\ (65536 <= len -> Z.land (Z_of_byte b1) 0x7F = 127 /\ ext = be_bytes 8 len).
Proof.
  intros Hlen. unfold frame_header, pack_BB, pack_BBH, pack_BBQ.
  change (Z.shiftl 1 16) with 65536.
  destruct (pack_uint 1 (Z.lor 0x80 opcode)) as [x|] eqn:E0;
    [|destruct (len <? 126), (len <? 65536); discriminate].
  apply pack_uint_ok in E0 as [H0 ->].
  change (2 ^ (8 * Z.of_nat 1)) with 256 in H0.
  destruct (Z.ltb_spec len 126) as [H1|H1]; [|destruct (Z.ltb_spec len 65536) as [H2|H2]].
  - destruct (pack_uint 1 (Z.lor 0x80 len)) as [y|] eqn:E1; [|discriminate].
    apply pack_uint_ok in E1 as [_ ->]. intros H; inv_eq H.
    split; [exact H0|]. split; [lia|].
    exists (byte_of_Z (Z.lor 0x80 len)), []. simpl.
    rewrite Z.shiftr_0_r.
    rewrite (Z_of_byte_of_Z_small (Z.lor 128 len)) by (rewrite lor_128_small; lia).
    split; [reflexivity|]. split; [apply lor_128_testbit|].
    split; [|split; intros; lia]. intros _.
    rewrite lor_128_len7, land_127, Z.mod_small by lia. auto.
  - destruct (pack_uint 2 len) as [z|] eqn:E2; [|discriminate].
    apply pack_uint_ok in E2 as [_ ->]. simpl. intros H; inv_eq H.
    split; [exact H0|]. split; [lia|].
    exists (byte_of_Z (Z.lor 0x80 126)), (be_bytes 2 len). rewrite Z.shiftr_0_r.
    split; [reflexivity|]. split; [reflexivity|].
    split; [intros; lia|]. split; [|intros; lia]. intros _. split; reflexivity.
  - destruct (pack_uint 8 len) as [z|] eqn:E2; [|discriminate].
    apply pack_uint_ok in E2 as [Hq ->]. simpl. intros H; inv_eq H.
    split; [exact H0|]. split; [exact (proj2 Hq)|].
    exists (byte_of_Z (Z.lor 0x80 127)), (be_bytes 8 len). rewrite Z.shiftr_0_r.
    split; [reflexivity|]. split; [reflexivity|].
    split; [intros; lia|]. split; [intros; lia|]. intros _. split; reflexivity.
Qed.

(** Within the ranges of [struct.pack], a frame is produced. *)
Lemma frame_header_total (opcode len : Z) :
  0 <= opcode < 256 -> 0 <= len < 2 ^ 64 ->
  exists header, frame_header opcode len = Ok header.
Proof.
  intros Ho Hl. apply lor_128_range in Ho.
  unfold frame_header, pack_BB, pack_BBH, pack_BBQ.
  change (Z.shiftl 1 16) with 65536.
  assert (E0 : pack_uint 1 (Z.lor 0x80 opcode) = Ok (be_bytes 1 (Z.lor 0x80 opcode)))
    by (apply pack_uint_ok; split; [exact Ho | reflexivity]).
  rewrite E0.
  destruct (Z.ltb_spec len 126) as [H1|H1]; [|destruct (Z.ltb_spec len 65536) as [H2|H2]].
  - assert (E1 : pack_uint 1 (Z.lor 0x80 len) = Ok (be_bytes 1 (Z.lor 0x80 len))).
    { apply pack_uint_ok. split; [|reflexivity]. apply lor_128_range. lia. }
    rewrite E1. eauto.
  - assert (E1 : pack_uint 2 len = Ok (be_bytes 2 len))
      by (apply pack_uint_ok; split; [simpl; lia | reflexivity]).
    rewrite E1. simpl. eauto.
  - assert (E1 : pack_uint 8 len = Ok (be_bytes 8 len))
      by (apply pack_uint_ok; split; [simpl; lia | reflexivity]).
    rewrite E1. simpl. eauto.
Qed.

Lemma encode_frame_ok (payload : bytes) (opcode : Z) (c : client) (w : world) frame c' w' :
  _encode_frame payload opcode c w = (Ok frame, c', w') ->
  let key := map (entropy w) (seq (drawn w) 4) in
  exists header,
    frame_header opcode (Z.of_nat (length payload)) = Ok header
    /\ frame = header ++ key ++ xor_mask key payload
    /\ c' = c /\ w' = with_drawn (drawn w + 4) w.
Proof.
  rewrite encode_frame_run.
  destruct (frame_header opcode (Z.of_nat (length payload))) as [header|e];
    intros H; inv_eq H. eauto.
Qed.

Lemma xor_mask_lookup (key payload : bytes) (i : nat) (b : byte) :
  length key = 4%nat ->
  payload !! i = Some b ->
  exists k, key !! (i mod 4)%nat = Some k
            /\ xor_mask key payload !! i = Some (byte_xor b k).
Proof.
  intros Hk Hb.
  destruct (lookup_lt_is_Some_2 key (i mod 4)%nat) as [k Ek].
  { rewrite Hk. apply Nat.mod_upper_bound. discriminate. }
  exists k. split; [exact Ek|].
  unfold xor_mask. rewrite list_lookup_imap, Hb. simpl.
  unfold mask_at. rewrite nth_lookup, Ek. reflexivity.
Qed.

(** C4.  Every frame [_encode_frame] produces is two header bytes with the
    FIN bit and the mask flag set, the length in the 7-bit field (below 126),
    or the marker 126 and a 16-bit big-endian length (126..65535), or the
    marker 127 and a 64-bit big-endian length (larger); then a 4-byte mask
    key; then the payload, each byte XORed with the key byte at its index
    modulo 4. *)
Theorem encode_frame_layout (payload : bytes) (opcode : Z) (c : client) (w : world)
    (frame : bytes) (c' : client) (w' : world) :
  _encode_frame payload opcode c w = (Ok frame, c', w') ->
  frame_layout payload frame.
Proof.
  intros E. unfold frame_layout. set (len := Z.of_nat (length payload)).
  apply encode_frame_ok in E as (header & Eh & -> & _ & _).
  apply frame_header_ok in Eh as (Ho & Hlen & b1 & ext & -> & Hm & H1 & H2 & H3);
    [|lia].
  set (key := map (entropy w) (seq (drawn w) 4)).
  assert (Hk : length key = 4%nat)
    by (unfold key; rewrite length_map, length_seq; reflexivity).
  exists (byte_of_Z (Z.lor 0x80 opcode)), b1, ext, key.
  split; [rewrite <- app_assoc; reflexivity|].
  split; [rewrite Z_of_byte_of_Z_small by exact Ho; apply lor_128_testbit|].
  split; [exact Hm|]. split; [exact Hk|].
  split; [exact H1|].
  split.
  { intros H. destruct (H2 H) as [Ha Hb]. repeat split; try assumption.
    rewrite Hb. apply unpack_be_bytes. simpl. fold len. lia. }
  split.
  { intros H. destruct (H3 H) as [Ha Hb]. repeat split; try assumption.
    rewrite Hb. apply unpack_be_bytes. simpl. fold len. lia. }
  split; [apply xor_mask_length|].
  intros i b Hb. apply xor_mask_lookup; assumption.
Qed.

Lemma encode_frame_layout_witness :
  frame_layout demo_payload
    (match fst (fst (_encode_frame demo_payload 1 demo_client (demo_world [])))
     with Ok frame => frame | Raise _ => [] end).
Proof.
  apply (encode_frame_layout demo_payload 1 demo_client (demo_world []) _
           demo_client (with_drawn 4 (demo_world []))).
  vm_compute. reflexivity.
Defined.

(** Encoding, then decoding what was encoded. *)
Lemma encode_then_decode (P : bytes) (O : Z) (ce : client) (we : world)
    (T : Q) (c : client) (w : world) (rest : bytes) :
  0 <= O < 16 ->
  Z.of_nat (length P) < 2 ^ 64 ->
  sock c <> None ->
  (0 <= T)%Q ->
  exists frame,
    fst (fst (_encode_frame P O ce we)) = Ok frame
    /\ (stream c w = frame ++ rest ->
        available T c w (length frame) = true ->
        exists c' w',
          _recv_frame T c w = (Ok (Some (O, P)), c', w')
          /\ stream c' w' = rest).
Proof.
  intros HO HP Hs HT.
  destruct (sock c) as [s|] eqn:Es; [clear Hs | congruence].
  destruct (frame_header_total O (Z.of_nat (length P))) as [header Eh]; [lia | lia |].
  rewrite encode_frame_run, Eh. cbv zeta. cbn [fst].
  set (key := map (entropy we) (seq (drawn we) 4)).
  eexists. split; [reflexivity|].
  assert (Hk : length key = 4%nat)
    by (unfold key; rewrite length_map, length_seq; reflexivity).
  apply frame_header_ok in Eh as (Ho & _ & b1 & ext & -> & Hm & H1 & H2 & H3); [|lia].
  set (len := Z.of_nat (length P)) in *.
  set (b0 := byte_of_Z (Z.lor 0x80 O)).
  assert (Hmask : (Z.land (Z_of_byte b1) 0x80 =? 0) = false)
    by (rewrite land_128, Hm; reflexivity).
  assert (Hext : length ext =
                 (if Z.land (Z_of_byte b1) 0x7F =? 126 then 2%nat
                  else if Z.land (Z_of_byte b1) 0x7F =? 127 then 8%nat else 0%nat)
                 /\ (if Z.land (Z_of_byte b1) 0x7F =? 126 then unpack_uint ext
                     else if Z.land (Z_of_byte b1) 0x7F =? 127 then unpack_uint ext
                          else Z.land (Z_of_byte b1) 0x7F) = len).
  { destruct (Z.lt_ge_cases len 126) as [L1|L1];
      [|destruct (Z.lt_ge_cases len 65536) as [L2|L2]].
    - destruct (H1 L1) as [-> ->].
      destruct (Z.eqb_spec len 126); [lia|]. destruct (Z.eqb_spec len 127); [lia|].
      auto.
    - destruct (H2 (conj L1 L2)) as [Ha Hb]. rewrite Ha, Hb.
      change (126 =? 126) with true. cbv iota.
      split; [apply be_bytes_length|]. apply unpack_be_bytes. simpl. lia.
    - destruct (H3 L2) as [Ha Hb]. rewrite Ha, Hb.
      change (127 =? 126) with false. change (127 =? 127) with true. cbv iota.
      split; [apply be_bytes_length|]. apply unpack_be_bytes. simpl. lia. }
  destruct Hext as [Hel Hlen].
  intros Hst Hav.
  destruct (recv_frame_complete T s c w b0 b1 ext key (xor_mask key P) rest Es HT)
    as (c' & w' & E & _ & Hst').
  - rewrite Hst. rewrite <- !app_assoc. reflexivity.
  - exact Hel.
  - rewrite Hmask. exact Hk.
  - rewrite Hlen, xor_mask_length. unfold len. rewrite Nat2Z.id. reflexivity.
  - rewrite !length_app in Hav. simpl in Hav.
    replace (2 + length ext + length key + length (xor_mask key P))%nat
      with (S (S (length ext + (length key + length (xor_mask key P)))))%nat by lia.
    exact Hav.
  - exists c', w'. split; [|exact Hst'].
    rewrite E, Hmask, xor_mask_involutive.
    unfold b0. rewrite Z_of_byte_of_Z_small by exact Ho.
    rewrite lor_128_low, land_15, Z.mod_small by lia. reflexivity.
Qed.


(** C1.  Round trip: a frame encoded from a payload [P] and an opcode [O] in
    0..15 decodes to [(O, P)], whatever the mask key and however the frame
    is split between the receiver's buffer and the chunks that reach its
    socket in time.  ([P] is shorter than 2^64 bytes, as every [bytes]
    object is.) *)
Theorem frame_roundtrip (P : bytes) (O : Z) (ce : client) (we : world)
    (T : Q) (c : client) (w : world) (rest : bytes) :
  0 <= O < 16 ->
  Z.of_nat (length P) < 2 ^ 64 ->
  sock c <> None ->
  (0 <= T)%Q ->
  exists frame,
    fst (fst (_encode_frame P O ce we)) = Ok frame
    /\ (stream c w = frame ++ rest ->
        available T c w (length frame) = true ->
        exists c' w',
          _recv_frame T c w = (Ok (Some (O, P)), c', w')
          /\ stream c' w' = rest).
Proof. apply encode_then_decode. Qed.

Lemma frame_roundtrip_witness :
  fst (fst (_recv_frame 1 demo_client
              (demo_world [((1 # 2)%Q, take 3 demo_frame); ((1 # 5)%Q, drop 3 demo_frame)])))
  = Ok (Some (1, demo_payload)).
Proof.
  destruct (frame_roundtrip demo_payload 1 demo_client (demo_world []) 1 demo_client
              (demo_world [((1 # 2)%Q, take 3 demo_frame); ((1 # 5)%Q, drop 3 demo_frame)])
              [])
    as (frame & E & H).
  - lia.
  - reflexivity.
  - discriminate.
  - discriminate.
  - vm_compute in E. inversion E; subst frame.
    destruct H as (c' & w' & E2 & _); [reflexivity | reflexivity |].
    rewrite E2. reflexivity.
Defined.

Lemma starves_0 (T : Q) (inc : list (Q * bytes)) : starves T inc 0 = false.
Proof. destruct inc; reflexivity. Qed.

Lemma read_exact_loop_starves (n : nat) (s : socket) (c : client) (w : world) :
  sock c = Some s -> (0 < timeout s)%Q ->
  starves (timeout s) (incoming w) (n - length (buffer c)) = true ->
  exists c' w', read_exact_loop n c w = (Raise socket_timeout, c', w').
Proof.
  intros Hs HT.
  assert (Hnd : no_data s = socket_timeout).
  { unfold no_data. destruct (Qeq_bool (timeout s) 0) eqn:E; [|reflexivity].
    apply Qeq_bool_iff in E. rewrite E in HT. exfalso. exact (Qlt_irrefl _ HT). }
  remember (n - length (buffer c))%nat as m eqn:Hm.
  revert c w Hm Hs. induction m as [m IH] using lt_wf_ind. intros c w Hm Hs Hst.
  rewrite read_exact_loop_eq, Hs.
  destruct m as [|m']; [rewrite starves_0 in Hst; discriminate|].
  destruct (lt_dec (length (buffer c)) n) as [Hlt|Hge]; [|lia].
  rewrite <- Hm. unfold sock_recv, recv_step.
  destruct (incoming w) as [|[d chunk] rest] eqn:Ei.
  - rewrite Hnd. eauto.
  - simpl in Hst. destruct (Qle_bool d (timeout s)); [|rewrite Hnd; eauto].
    apply andb_prop in Hst as [Hne Hrest].
    destruct chunk as [|b chunk]; [discriminate|].
    destruct (drop (S m') (b :: chunk)) as [|x later] eqn:D.
    + eapply (IH (n - length (buffer (set_buffer (buffer c ++ b :: chunk) c)))%nat);
        [simpl; rewrite length_app; simpl; lia | reflexivity | exact Hs |].
      simpl. rewrite length_app. simpl in *.
      replace (n - (length (buffer c) + S (length chunk)))%nat
        with (m' - length chunk)%nat by lia.
      exact Hrest.
    + assert (Hl : length (x :: later) = (length (b :: chunk) - S m')%nat)
        by (rewrite <- D; apply length_drop).
      simpl in Hl, Hrest.
      replace (m' - length chunk)%nat with 0%nat in Hrest by lia.
      rewrite starves_0 in Hrest. discriminate.
Qed.

Lemma read_exact_starves (n : nat) (s : socket) (c : client) (w : world) :
  sock c = Some s -> (0 < timeout s)%Q ->
  starves (timeout s) (incoming w) (n - length (buffer c)) = true ->
  exists c' w', _read_exact n c w = (Raise socket_timeout, c', w').
Proof.
  intros Hs HT Hst. unfold _read_exact.
  destruct n as [|n]; [rewrite starves_0 in Hst; discriminate|].
  change (S n =? 0)%nat with false. cbv iota.
  destruct (read_exact_loop_starves (S n) s c w Hs HT Hst) as (c3 & w3 & E).
  rewrite bind_run, E. eauto.
Qed.

Lemma recv_frame_starves (T : Q) (s : socket) (c : client) (w : world) r c' w' :
  sock c = Some s -> (0 < T)%Q ->
  starves T (incoming w) (2 - length (buffer c)) = true ->
  _recv_frame T c w = (r, c', w') ->
  r = Ok None /\ stream c' w' = stream c w.
Proof.
  intros Hs HT Hst. unfold _recv_frame. rewrite bind_run. unfold get_sock at 1. rewrite Hs.
  rewrite bind_run. unfold settimeout.
  assert (HT' : Qle_bool 0 T = true) by (apply Qle_bool_iff, Qlt_le_weak, HT).
  rewrite HT'. unfold put_sock at 1. set (c1 := set_sock (Some (Socket T)) c).
  assert (Hs1 : sock c1 = Some (Socket T)) by reflexivity.
  rewrite bind_run. unfold try_except at 1. rewrite bind_run.
  destruct (read_exact_starves 2 (Socket T) c1 w Hs1 HT Hst) as (c2 & w2 & E1).
  pose proof (read_exact_spec _ _ _ _ _ _ _ Hs1 E1) as (evs & Hp & _ & _).
  rewrite E1. simpl. unfold ret. intros H; inv_eq H.
  split; [reflexivity|]. destruct Hp. simpl in pulled_stream0. symmetry. exact pulled_stream0.
Qed.

(** C3.  One decode: a socket read that returns zero bytes makes it fail
    with [ConnectionError]; a read timeout that elapses before the two
    header bytes are there makes it return [None], not an error; and what it
    returns as a frame is never partial: it is a complete frame of the wire
    format, correctly unmasked, taken off the front of the byte stream. *)
Theorem recv_frame_contract (T : Q) (s : socket) (c : client) (w : world)
    (r : outcome (option (Z * bytes))) (c' : client) (w' : world) :
  sock c = Some s ->
  _recv_frame T c w = (r, c', w') ->
  decode_contract T c w r c' w'.
Proof.
  intros Hs E. unfold decode_contract.
  split; [|split].
  - destruct (Qle_bool 0 T) eqn:HT.
    + apply Qle_bool_iff in HT.
      destruct (recv_frame_spec T s c w r c' w' Hs HT E) as (consumed & evs & Hp & Hc & _).
      rewrite (pulled_new_events _ _ _ _ _ _ _ Hp). exact Hc.
    + revert E. unfold _recv_frame. rewrite bind_run. unfold get_sock at 1. rewrite Hs.
      rewrite bind_run. unfold settimeout. rewrite HT. unfold raise.
      intros H; inv_eq H. unfold new_events. rewrite drop_all. discriminate.
  - intros HT Hst. eapply recv_frame_starves; eassumption.
  - intros op pl ->.
    assert (HT : (0 <= T)%Q).
    { destruct (Qle_bool 0 T) eqn:HT; [apply Qle_bool_iff, HT|].
      revert E. unfold _recv_frame. rewrite bind_run. unfold get_sock at 1. rewrite Hs.
      rewrite bind_run. unfold settimeout. rewrite HT. discriminate. }
    destruct (recv_frame_spec T s c w _ c' w' Hs HT E) as (consumed & evs & Hp & _ & Hf & _).
    destruct Hp. change (stream c w = consumed ++ stream c' w') in pulled_stream0.
    rewrite pulled_stream0. apply Hf. reflexivity.
Qed.

Lemma recv_frame_contract_witness :
  let w := demo_world [((1 # 2)%Q, take 3 demo_frame); ((1 # 5)%Q, drop 3 demo_frame)] in
  decode_contract 1 demo_client w
    (fst (fst (_recv_frame 1 demo_client w)))
    (snd (fst (_recv_frame 1 demo_client w)))
    (snd (_recv_frame 1 demo_client w)).
Proof.
  intros w.
  apply (recv_frame_contract 1 (Socket 10) demo_client w); [reflexivity|].
  destruct (_recv_frame 1 demo_client w) as [[r c'] w']. reflexivity.
Defined.

(** ** The handshake *)

(** C9.  The accept value of the key of RFC 6455's sample handshake. *)
Theorem accept_value_sample :
  accept_value (py "dGhlIHNhbXBsZSBub25jZQ==") = Ok (py "s3pPLMBiTxaQ9kYGzzhZRbK+xOo=").
Proof. vm_compute. reflexivity. Qed.

Lemma b64_char_ascii (v : Z) : Z_of_byte (b64_char v) <? 128 = true.
Proof.
  unfold b64_char.
  assert (A : forallb (fun i => Z_of_byte (nth i b64_alphabet "="%byte) <? 128)
                (seq 0 64) = true) by (vm_compute; reflexivity).
  rewrite forallb_forall in A. apply A. apply in_seq.
  pose proof (Z.mod_pos_bound v 64). lia.
Qed.

Lemma b64encode_ascii (b : bytes) :
  forallb (fun x => Z_of_byte x <? 128) (b64encode b) = true.
Proof.
  remember (length b) as n eqn:Hn. revert b Hn.
  induction n as [n IH] using lt_wf_ind. intros b Hn.
  destruct b as [|x [|y [|z rest]]]; cbn [b64encode forallb].
  - reflexivity.
  - rewrite !b64_char_ascii. reflexivity.
  - rewrite !b64_char_ascii. reflexivity.
  - rewrite !b64_char_ascii. cbn [andb].
    apply (IH (length rest)); [subst n; cbn [length]; lia | reflexivity].
Qed.

Lemma ascii_decode_ok (b : bytes) (k : pystr) :
  ascii_decode b = Ok k -> forallb (fun cp => (cp <? 128)%N) k = true.
Proof.
  unfold ascii_decode. destruct (forallb _ b) eqn:E; [|discriminate].
  intros H; inv_eq H. rewrite forallb_forall in *. intros cp Hin.
  apply in_map_iff in Hin as (x & <- & Hx). specialize (E x Hx).
  unfold Z_of_byte in E. apply Z.ltb_lt in E. apply N.ltb_lt. lia.
Qed.

Lemma accept_value_total (key : pystr) :
  forallb (fun cp => (cp <? 128)%N) key = true ->
  exists expected, accept_value key = Ok expected.
Proof.
  intros Hk. unfold accept_value, ascii_encode.
  rewrite forallb_app, Hk. change (forallb _ GUID) with true. simpl andb. cbv iota.
  unfold ascii_decode. rewrite b64encode_ascii. eauto.
Qed.

Lemma open_socket_ok (urlparse : pystr -> url_parts) (c : client) (w : world)
    key s c1 w1 :
  open_socket urlparse c w = (Ok (key, s), c1, w1) ->
  c1 = c /\ forallb (fun cp => (cp <? 128)%N) key = true.
Proof.
  unfold open_socket.
  destruct (bool_decide _ || bool_decide _); [|discriminate].
  destruct (hostname (urlparse (url c))) as [[|h host]|]; try discriminate.
  rewrite bind_run. unfold of_outcome at 1.
  destruct (port (urlparse (url c))) as [p|e]; [|discriminate].
  rewrite bind_run. unfold os at 1. cbn [os_urandom].
  rewrite bind_run. unfold of_outcome at 1.
  destruct (ascii_decode _) as [k|e] eqn:Ek; [|discriminate].
  apply ascii_decode_ok in Ek.
  rewrite bind_run. unfold os at 1, create_connection at 1.
  match goal with |- context [connect_fault ?w0] => destruct (connect_fault w0) end;
    [discriminate|].
  rewrite bind_run.
  match goal with |- context [(if ?g then os (wrap_socket ?s0) else ret ?s1) ?c0 ?w0] =>
    destruct ((if g then os (wrap_socket s0) else ret s1) c0 w0) as [[[s2|e] c2] w2] eqn:Ew
  end.
  2:{ discriminate. }
  assert (c2 = c).
  { revert Ew. destruct (bool_decide _); [|intros H; inv_eq H; reflexivity].
    unfold os, wrap_socket. destruct (tls_fault _); intros H; inv_eq H. reflexivity. }
  subst c2.
  rewrite bind_run. unfold of_outcome at 1.
  destruct (ascii_encode _) as [req|e]; [|discriminate].
  rewrite bind_run. unfold os at 1.
  destruct (sock_sendall req w2) as [[[]|e] w3]; [|discriminate].
  unfold ret. intros H; inv_eq H. auto.
Qed.

Lemma connect_after_exchange (urlparse : pystr -> url_parts) (c : client) (w : world)
    key s resp leftover c1 w1 :
  handshake_exchange urlparse c w = (Ok (key, s, resp, leftover), c1, w1) ->
  exists expected,
    accept_value key = Ok expected
    /\ connect urlparse c w =
       if (status resp =? 101)
          && bool_decide (headers resp !! py "sec-websocket-accept" = Some expected)
       then (Ok tt, set_sock (Some s) (set_buffer leftover c1), w1)
       else (Raise (RuntimeError
                      (HandshakeFailed (status resp)
                         (headers resp !! py "sec-websocket-accept"))),
             set_buffer leftover c1, w1).
Proof.
  unfold handshake_exchange, connect. rewrite !bind_run.
  destruct (open_socket urlparse c w) as [[[[k s0]|e] c0] w0] eqn:Eo; [|discriminate].
  apply open_socket_ok in Eo as [-> Hk].
  rewrite !bind_run. cbn [fst snd]. unfold os.
  destruct (_read_http_response s0 w0) as [[[r l]|e] w2]; [|discriminate].
  unfold ret at 1. cbn [fst snd]. intros H; inv_eq H.
  destruct (accept_value_total key Hk) as [expected He].
  exists expected. split; [exact He|].
  rewrite bind_run. unfold put_buffer at 1. unfold check_handshake.
  rewrite bind_run. unfold of_outcome at 1. rewrite He.
  destruct (status resp =? 101); cbn [negb orb andb]; [|reflexivity].
  destruct (bool_decide _); reflexivity.
Qed.

(** C2.  Once the request is out and a response is read, [connect] succeeds
    if and only if the status is exactly 101 and the Sec-WebSocket-Accept
    header equals the accept value of the key; when either fails, alone or
    not, it raises the handshake error, which carries the status and the
    accept value that was seen. *)
Theorem handshake_acceptance (urlparse : pystr -> url_parts) (c : client) (w : world)
    (key : pystr) (s : socket) (resp : response) (leftover : bytes)
    (c1 : client) (w1 : world) :
  handshake_exchange urlparse c w = (Ok (key, s, resp, leftover), c1, w1) ->
  exists expected,
    accept_value key = Ok expected
    /\ let actual := headers resp !! py "sec-websocket-accept" in
       (fst (fst (connect urlparse c w)) = Ok tt
        <-> status resp = 101 /\ actual = Some expected)
       /\ (status resp = 101 /\ actual = Some expected ->
           connect urlparse c w
           = (Ok tt, set_sock (Some s) (set_buffer leftover c1), w1))
       /\ (status resp <> 101 \/ actual <> Some expected ->
           connect urlparse c w
           = (Raise (RuntimeError (HandshakeFailed (status resp) actual)),
              set_buffer leftover c1, w1)).
Proof.
  intros E. destruct (connect_after_exchange _ _ _ _ _ _ _ _ _ E) as (expected & He & Hc).
  exists expected. split; [exact He|]. cbv zeta. rewrite Hc.
  destruct (Z.eqb_spec (status resp) 101) as [H1|H1]; cbn [andb].
  - destruct (bool_decide_reflect
                (headers resp !! py "sec-websocket-accept" = Some expected)) as [H2|H2].
    + split; [|split]; [tauto | reflexivity | intros [?|?]; contradiction].
    + split; [|split]; [|tauto | reflexivity].
      split; [discriminate | tauto].
  - split; [|split]; [|tauto | reflexivity].
    split; [discriminate | tauto].
Qed.

Lemma handshake_acceptance_witness :
  fst (fst (connect demo_urlparse demo_fresh (demo_world [(0%Q, demo_reply)]))) = Ok tt.
Proof.
  destruct (handshake_exchange demo_urlparse demo_fresh (demo_world [(0%Q, demo_reply)]))
    as [[[[[[key s] resp] leftover]|e] c1] w1] eqn:E; [|vm_compute in E; discriminate].
  destruct (handshake_acceptance _ _ _ _ _ _ _ _ _ E) as (expected & He & Hiff & _).
  apply Hiff. vm_compute in E. inversion E; subst; clear E.
  vm_compute in He. inversion He; subst; clear He.
  split; vm_compute; reflexivity.
Defined.

(** *** The status line *)

Lemma index_raise {A} (l : list A) (i : nat) (e : exn) :
  index l i = Raise e -> e = IndexError /\ l !! i = None.
Proof. unfold index. destruct (l !! i); intros H; inv_eq H. auto. Qed.

Lemma py_int_raise (s : pystr) (e : exn) :
  py_int s = Raise e -> exists msg, e = ValueError msg.
Proof.
  unfold py_int.
  destruct (match s with
            | 43%N :: rest => (1, rest)
            | 45%N :: rest => (-1, rest)
            | _ => (1, s)
            end) as [sign body].
  destruct (int_digits false body) as [ds|].
  - destruct (length ds <=? int_max_str_digits)%nat; intros H; inv_eq H. eauto.
  - intros H; inv_eq H. eauto.
Qed.

Lemma parse_status_total (line : pystr) : exists n, parse_status line = Ok n.
Proof.
  unfold parse_status.
  destruct (index (split_ws line) 1) as [field|e] eqn:Ei.
  - destruct (py_int field) as [n|e] eqn:Ep; [eauto|].
    apply py_int_raise in Ep as [msg ->]. eauto.
  - apply index_raise in Ei as [-> _]. eauto.
Qed.

Lemma parse_status_malformed (line : pystr) :
  match split_ws line !! 1%nat with
  | None => True
  | Some field => forall n, py_int field <> Ok n
  end ->
  parse_status line = Ok (-1).
Proof.
  unfold parse_status, index.
  destruct (split_ws line !! 1%nat) as [field|]; [|reflexivity].
  intros H. destruct (py_int field) as [n|e] eqn:Ep.
  - exfalso. exact (H n eq_refl).
  - apply py_int_raise in Ep as [msg ->]. reflexivity.
Qed.

Lemma split_by_cons (sep b : bytes) : exists first rest, split_by sep b = first :: rest.
Proof.
  unfold split_by. destruct (length b) as [|n]; simpl.
  - destruct (cut sep b); eauto.
  - destruct (cut sep b) as [[before behind]|]; eauto.
Qed.

Lemma parse_response_total (data : bytes) :
  exists resp leftover,
    parse_response data = Ok (resp, leftover)
    /\ leftover = snd (partition CRLF2 data)
    /\ (malformed_status_line data -> status resp = -1).
Proof.
  unfold parse_response, malformed_status_line, status_field.
  destruct (partition CRLF2 data) as [header_bytes leftover]. cbn [fst snd].
  destruct (split_by_cons CRLF header_bytes) as (first & rest & ->).
  cbn [index lookup list_lookup drop].
  destruct (parse_status_total (ascii_decode_replace first)) as [n En].
  rewrite En. eexists _, _. split; [reflexivity|]. split; [reflexivity|].
  intros Hm. apply parse_status_malformed in Hm. cbn [status]. congruence.
Qed.

(** C8.  Parsing the handshake response never raises, whatever bytes were
    read; a status line whose status field is missing or is not a number
    gives the status -1; and [connect] then raises the handshake error. *)
Theorem malformed_status_line_rejected (urlparse : pystr -> url_parts)
    (c : client) (w : world) (key : pystr) (s : socket) (c0 : client) (w0 : world)
    (data : bytes) (w1 : world) :
  open_socket urlparse c w = (Ok (key, s), c0, w0) ->
  http_read_loop s [] w0 = (Ok data, w1) ->
  (forall d, exists resp leftover, parse_response d = Ok (resp, leftover))
  /\ exists resp leftover,
       parse_response data = Ok (resp, leftover)
       /\ (malformed_status_line data ->
           status resp = -1
           /\ connect urlparse c w
              = (Raise (RuntimeError
                          (HandshakeFailed (-1)
                             (headers resp !! py "sec-websocket-accept"))),
                 set_buffer leftover c0, w1)).
Proof.
  intros Eo El. split.
  { intros d. destruct (parse_response_total d) as (resp & leftover & E & _). eauto. }
  destruct (parse_response_total data) as (resp & leftover & Ep & _ & Hm).
  exists resp, leftover. split; [exact Ep|].
  intros Hmal. specialize (Hm Hmal). split; [exact Hm|].
  assert (Ex : handshake_exchange urlparse c w = (Ok (key, s, resp, leftover), c0, w1)).
  { unfold handshake_exchange. rewrite bind_run, Eo, bind_run. cbn [fst snd].
    unfold os, _read_http_response. rewrite El, Ep. reflexivity. }
  destruct (connect_after_exchange _ _ _ _ _ _ _ _ _ Ex) as (expected & _ & Hc).
  rewrite Hc, Hm. reflexivity.
Qed.

Lemma malformed_status_line_rejected_witness :
  fst (fst (connect demo_urlparse demo_fresh (demo_world [(0%Q, demo_bad_reply)])))
  = Raise (RuntimeError (HandshakeFailed (-1) (Some (map Byte.to_N demo_accept)))).
Proof.
  set (W := demo_world [(0%Q, demo_bad_reply)]).
  destruct (open_socket demo_urlparse demo_fresh W) as [[[[key s]|e] c0] w0] eqn:Eo.
  2:{ exfalso.
      assert (A : match fst (fst (open_socket demo_urlparse demo_fresh W)) with
                  | Ok _ => true | Raise _ => false end = true)
        by (vm_compute; reflexivity).
      rewrite Eo in A. discriminate. }
  destruct (http_read_loop s [] w0) as [[data|e] w1] eqn:El.
  2:{ exfalso.
      assert (A : match open_socket demo_urlparse demo_fresh W with
                  | (Ok (_, s'), _, w') =>
                      match fst (http_read_loop s' [] w') with
                      | Ok _ => true | Raise _ => false end
                  | _ => false end = true)
        by (vm_compute; reflexivity).
      rewrite Eo, El in A. discriminate. }
  destruct (malformed_status_line_rejected _ _ _ _ _ _ _ _ _ Eo El)
    as (_ & resp & leftover & Ep & Hm).
  destruct Hm as [_ Hc].
  - assert (A : match open_socket demo_urlparse demo_fresh W with
                | (Ok (_, s'), _, w') =>
                    match fst (http_read_loop s' [] w') with
                    | Ok d => match status_field d with
                              | Some f => match py_int f with
                                          | Ok _ => false | Raise _ => true end
                              | None => true
                              end
                    | Raise _ => false end
                | _ => false end = true)
      by (vm_compute; reflexivity).
    rewrite Eo, El in A. cbn [fst] in A. unfold malformed_status_line.
    destruct (status_field data) as [f|]; [|exact I].
    intros n Hn. rewrite Hn in A. discriminate.
  - rewrite Hc. cbn [fst]. do 3 f_equal.
    assert (A : match open_socket demo_urlparse demo_fresh W with
                | (Ok (_, s'), _, w') =>
                    match fst (http_read_loop s' [] w') with
                    | Ok d => match parse_response d with
                              | Ok (r, _) =>
                                  bool_decide (headers r !! py "sec-websocket-accept"
                                               = Some (map Byte.to_N demo_accept))
                              | Raise _ => false
                              end
                    | Raise _ => false end
                | _ => false end = true)
      by (vm_compute; reflexivity).
    rewrite Eo, El in A. cbn [fst] in A. rewrite Ep in A.
    apply bool_decide_eq_true in A. exact A.
Defined.

(** ** The receive loop *)

Lemma Qmax_floor (a b : Q) : (a <= Qmax a b)%Q /\ (b <= Qmax a b)%Q.
Proof. split; [apply Q.le_max_l | apply Q.le_max_r]. Qed.

Lemma take_exact_some (n : nat) (s a b : bytes) :
  take_exact n s = Some (a, b) -> length a = n /\ s = a ++ b.
Proof.
  unfold take_exact. destruct (Nat.ltb_spec (length s) n) as [L|L]; [discriminate|].
  intros H; inv_eq H. split; [rewrite length_take; lia | symmetry; apply take_drop].
Qed.

(** A frame of the wire format carries an opcode in 0..15 and fewer than
    2^64 payload bytes. *)
Lemma wire_frame_bounds (s : bytes) (op : Z) (pl rest : bytes) :
  wire_frame s = Some (op, pl, rest) ->
  0 <= op < 16 /\ Z.of_nat (length pl) < 2 ^ 64.
Proof.
  unfold wire_frame. destruct s as [|b0 [|b1 s1]]; try discriminate.
  set (len7 := Z_of_byte b1 mod 128).
  assert (H7 : 0 <= len7 < 128) by (apply Z.mod_pos_bound; lia).
  destruct (if len7 =? 126 then _ else _) as [[len s2]|] eqn:E1; [|discriminate].
  assert (Hlen : 0 <= len < 2 ^ 64).
  { revert E1. destruct (len7 =? 126); [|destruct (len7 =? 127)].
    - destruct (take_exact 2 s1) as [[ext s']|] eqn:Et; [|discriminate].
      intros H; inv_eq H. apply take_exact_some in Et as [Hl _].
      pose proof (unpack_uint_bound ext) as Hb. rewrite Hl in Hb.
      change (2 ^ (8 * Z.of_nat 2)) with 65536 in Hb. lia.
    - destruct (take_exact 8 s1) as [[ext s']|] eqn:Et; [|discriminate].
      intros H; inv_eq H. apply take_exact_some in Et as [Hl _].
      pose proof (unpack_uint_bound ext) as Hb. rewrite Hl in Hb. exact Hb.
    - intros H; inv_eq H. lia. }
  cbn [mbind option_bind].
  destruct (if Z.testbit (Z_of_byte b1) 7 then _ else _) as [[key s3]|]; [|discriminate].
  cbn [mbind option_bind].
  destruct (take_exact (Z.to_nat len) s3) as [[body rest']|] eqn:Eb; [|discriminate].
  cbn [mbind option_bind]. intros H; inv_eq H.
  apply take_exact_some in Eb as [Hl _].
  split; [apply Z.mod_pos_bound; lia|].
  assert (length (match key with Some k => xor_mask k body | None => body end)
          = length body) as -> by (destruct key; [apply xor_mask_length | reflexivity]).
  lia.
Qed.

Lemma wire_frame_encode (P : bytes) (O : Z) (ce : client) (we : world)
    (frame rest : bytes) :
  0 <= O < 16 -> Z.of_nat (length P) < 2 ^ 64 ->
  fst (fst (_encode_frame P O ce we)) = Ok frame ->
  wire_frame (frame ++ rest) = Some (O, P, rest).
Proof.
  intros HO HP E.
  set (c := Client [] (Some (Socket 0)) (frame ++ rest)).
  set (w := with_net 0 [] we).
  destruct (encode_then_decode P O ce we 0 c w rest HO HP) as (frame' & E' & H).
  { discriminate. }
  { apply Qle_refl. }
  rewrite E in E'. inv_eq E'.
  destruct H as (c' & w' & Er & Hst).
  { unfold stream, c, w. simpl. apply app_nil_r. }
  { unfold available, c, w. simpl. rewrite length_app.
    replace (length frame' - (length frame' + length rest))%nat with 0%nat by lia.
    reflexivity. }
  destruct (recv_frame_spec 0 (Socket 0) c w _ c' w' eq_refl (Qle_refl 0) Er)
    as (consumed & evs & Hp & _ & Hf & _).
  destruct Hp. change (stream c w = consumed ++ stream c' w') in pulled_stream0.
  unfold stream at 1 in pulled_stream0. simpl in pulled_stream0.
  rewrite app_nil_r, Hst in pulled_stream0. rewrite pulled_stream0.
  apply Hf. reflexivity.
Qed.


Lemma sock_sendall_spec (data : bytes) (w : world) r w' :
  sock_sendall data w = (r, w') ->
  trace w' = trace w ++ [EvSendall data r]
  /\ now w' = now w /\ incoming w' = incoming w
  /\ (r = Ok tt \/ r = Raise OSError).
Proof.
  unfold sock_sendall. destruct (send_faults w) as [|[] f]; intros H; inv_eq H; auto.
Qed.

Lemma sent_app (t1 t2 : list io_event) : sent_of (t1 ++ t2) = sent_of t1 ++ sent_of t2.
Proof. unfold sent_of. apply omap_app. Qed.

(** [_send_pong] on a connected client: one [sendall] of the pong frame, a
    failure of which is swallowed. *)
Lemma send_pong_spec (payload : bytes) (s : socket) (c : client) (w : world) :
  sock c = Some s -> Z.of_nat (length payload) < 2 ^ 64 ->
  exists frame res w',
    _send_pong payload c w = (Ok tt, c, w')
    /\ fst (fst (_encode_frame payload 0xA c w)) = Ok frame
    /\ trace w' = trace w ++ [EvSendall frame res]
    /\ now w' = now w /\ incoming w' = incoming w.
Proof.
  intros Hs Hl. unfold _send_pong. rewrite bind_run. unfold get_sock at 1. rewrite Hs.
  rewrite bind_run, encode_frame_run.
  destruct (frame_header_total 0xA (Z.of_nat (length payload))) as [header Eh]; [lia|lia|].
  rewrite Eh. cbv zeta.
  set (frame := header ++ _). set (w1 := with_drawn _ w).
  unfold try_except, os.
  destruct (sock_sendall frame w1) as [r w2] eqn:Es.
  apply sock_sendall_spec in Es as (Ht & Hn & Hi & Hr).
  exists frame, r, w2. split.
  - destruct Hr as [-> | ->]; reflexivity.
  - cbn [fst]. split; [reflexivity|]. split; [exact Ht|]. split; assumption.
Qed.

Section Loop.

Variable utf8_decode_replace : bytes -> pystr.

Lemma read_messages_body_eq (end_time : Q) (c : client) (w : world) :
  read_messages_body utf8_decode_replace end_time c w =
  match _recv_frame (Qmax (1 # 10) (end_time - now w)) c w with
  | (Raise e, c1, w1) =>
      if is_timeout e then (Ok Continue, c1, w1) else (Raise e, c1, w1)
  | (Ok None, c1, w1) => (Ok Continue, c1, w1)
  | (Ok (Some (opcode, payload)), c1, w1) =>
      if opcode =? 0x1 then
        (Ok Continue, c1, print ([0x1F4E8; 32]%N ++ utf8_decode_replace payload) w1)
      else if opcode =? 0x9 then
        match _send_pong payload c1 w1 with
        | (Ok _, c2, w2) => (Ok Continue, c2, w2)
        | (Raise e, c2, w2) => (Raise e, c2, w2)
        end
      else if opcode =? 0x8 then (Ok Break, c1, w1)
      else (Ok Continue, c1, w1)
  end.
Proof.
  unfold read_messages_body. rewrite bind_run. unfold get_time at 1, time_time.
  rewrite bind_run. unfold try_except at 1.
  destruct (_recv_frame _ c w) as [[[[[op pl]|]|e] c1] w1]; try reflexivity.
  - destruct (op =? 1); [reflexivity|]. destruct (op =? 9); [|destruct (op =? 8); reflexivity].
    rewrite bind_run. destruct (_send_pong pl c1 w1) as [[[]] ?]; reflexivity.
  - destruct (is_timeout e); reflexivity.
Qed.

(** C7.  A decoded close frame ends the receive loop at once, with a
    normal return, whatever time is left before the deadline. *)
Theorem close_frame_ends_loop (fuel : nat) (end_time : Q) (c : client) (w : world)
    (payload : bytes) (c' : client) (w' : world) :
  Qlt_bool (time_time w) end_time = true ->
  _recv_frame (Qmax (1 # 10) (end_time - now w)) c w = (Ok (Some (0x8, payload)), c', w') ->
  read_messages_loop utf8_decode_replace (S fuel) end_time c w = Some (Ok tt, c', w').
Proof.
  intros Ht E. cbn [read_messages_loop]. rewrite Ht, read_messages_body_eq, E.
  reflexivity.
Qed.


End Loop.

Lemma new_events_app (w w' : world) (evs : list io_event) :
  trace w' = trace w ++ evs -> new_events w w' = evs.
Proof. intros H. unfold new_events. rewrite H. apply drop_app_length. Qed.

Lemma is_recv_within_blocked (T : Q) (evs : list io_event) :
  Forall (is_recv_within T) evs -> Forall (recv_blocked_within T) evs.
Proof.
  intros H. eapply Forall_impl; [exact H|].
  intros [] G; simpl in *; try exact I; exact G.
Qed.

Section LoopTimeout.

Variable utf8_decode_replace : bytes -> pystr.

(** What one pass of the receive loop does to the socket and the console:
    socket reads under the clamped timeout, then at most one line printed
    or one frame sent. *)
Lemma read_messages_body_effects (end_time : Q) (s : socket)
    (c : client) (w : world) r (c' : client) (w' : world) :
  sock c = Some s ->
  read_messages_body utf8_decode_replace end_time c w = (r, c', w') ->
  let T := Qmax (1 # 10) (end_time - now w) in
  sock c' = Some (Socket T)
  /\ exists evs more,
       trace w' = trace w ++ evs ++ more
       /\ Forall (is_recv_within T) evs
       /\ (more = [] \/ (exists line, more = [EvPrint line])
           \/ exists frame res, more = [EvSendall frame res]).
Proof.
  intros Hs E T. destruct (Qmax_floor (1 # 10) (end_time - now w)) as [H1 H2].
  assert (HT : (0 <= T)%Q) by (eapply Qle_trans; [|exact H1]; discriminate).
  revert E. rewrite read_messages_body_eq. fold T.
  destruct (_recv_frame T c w) as [[r1 c1] w1] eqn:Er.
  destruct (recv_frame_spec T s c w r1 c1 w1 Hs HT Er) as (consumed & evs & Hp & _ & Hf & _).
  assert (Hs1 : sock c1 = Some (Socket T)) by (destruct Hp; assumption).
  assert (Ht : trace w1 = trace w ++ evs) by (destruct Hp; assumption).
  assert (Hr : Forall (is_recv_within T) evs) by (destruct Hp; assumption).
  assert (Fin0 : forall r0, (r0, c1, w1) = (r, c', w') ->
            sock c' = Some (Socket T)
            /\ exists evs more,
                 trace w' = trace w ++ evs ++ more
                 /\ Forall (is_recv_within T) evs
                 /\ (more = [] \/ (exists line, more = [EvPrint line])
                     \/ exists frame res, more = [EvSendall frame res])).
  { intros r0 H; inv_eq H. split; [exact Hs1|]. exists evs, [].
    rewrite app_nil_r. auto. }
  destruct r1 as [[[op pl]|]|e]; [|exact (Fin0 _)|destruct (is_timeout e); exact (Fin0 _)].
  destruct (op =? 1).
  { intros H; inv_eq H. split; [exact Hs1|]. eexists evs, [_].
    split; [|split; [exact Hr | right; left; eauto]].
    unfold print, log. simpl. rewrite Ht, <- app_assoc. reflexivity. }
  destruct (op =? 9); [|destruct (op =? 8); exact (Fin0 _)].
  assert (Hb : Z.of_nat (length pl) < 2 ^ 64)
    by (apply (wire_frame_bounds _ _ _ _ (Hf _ _ eq_refl []))).
  destruct (send_pong_spec pl _ c1 w1 Hs1 Hb) as (frame & res & w2 & Ep & _ & Ht2 & _).
  rewrite Ep. intros H; inv_eq H. split; [exact Hs1|]. exists evs, [EvSendall frame res].
  split; [|split; [exact Hr | right; right; eauto]].
  rewrite Ht2, Ht, <- app_assoc. reflexivity.
Qed.

(** Each pass of the receive loop sets the socket timeout to the time left
    before the deadline, but at least 0.1 s, and no single socket read of
    the pass blocks longer than that. *)
Theorem each_read_within_clamped_timeout (end_time : Q) (s : socket)
    (c : client) (w : world) r (c' : client) (w' : world) :
  sock c = Some s ->
  read_messages_body utf8_decode_replace end_time c w = (r, c', w') ->
  let T := Qmax (1 # 10) (end_time - now w) in
  ((1 # 10) <= T)%Q /\ (end_time - now w <= T)%Q
  /\ sock c' = Some (Socket T)
  /\ Forall (recv_blocked_within T) (new_events w w').
Proof.
  intros Hs E T. destruct (Qmax_floor (1 # 10) (end_time - now w)) as [H1 H2].
  split; [exact H1|]. split; [exact H2|].
  destruct (read_messages_body_effects _ _ _ _ _ _ _ Hs E)
    as (Hs' & evs & more & Ht & Hr & Hm).
  split; [exact Hs'|]. rewrite (new_events_app _ _ _ Ht).
  apply Forall_app. split; [apply is_recv_within_blocked; exact Hr|].
  destruct Hm as [-> | [[line ->] | (frame & res & ->)]]; repeat constructor.
Qed.

End LoopTimeout.

Lemma each_read_within_clamped_timeout_witness :
  Forall (recv_blocked_within (Qmax (1 # 10) (1 - now demo_slow_world)))
    (new_events demo_slow_world (snd (read_messages_body demo_decode 1 demo_client demo_slow_world))).
Proof.
  destruct (read_messages_body demo_decode 1 demo_client demo_slow_world) as [[r c'] w'] eqn:E.
  apply (each_read_within_clamped_timeout demo_decode 1 (Socket 10) demo_client
           demo_slow_world r c' w' eq_refl E).
Defined.

(** ** Connection life cycle *)

Lemma encode_close_frame (c : client) (w : world) :
  exists frame,
    _encode_frame [] 0x8 c w = (Ok frame, c, with_drawn (drawn w + 4) w)
    /\ wire_frame frame = Some (0x8, [], []).
Proof.
  destruct (frame_header_total 0x8 (Z.of_nat (length (@nil byte)))) as [header Eh];
    [lia | simpl; lia |].
  rewrite encode_frame_run, Eh. cbv zeta. eexists. split; [reflexivity|].
  rewrite <- (app_nil_r (header ++ _)).
  eapply (wire_frame_encode [] 0x8 c w); [lia | simpl; lia |].
  rewrite encode_frame_run, Eh. reflexivity.
Qed.

(** What [close] does on a connected client. *)
Lemma close_connected (s : socket) (c : client) (w : world) :
  sock c = Some s ->
  exists frame res r w',
    close c w = (r, set_sock None c, w')
    /\ wire_frame frame = Some (0x8, [], [])
    /\ trace w' = trace w ++ [EvSendall frame res; EvClose]
    /\ r = (if close_fault w then Raise OSError else Ok tt).
Proof.
  intros Hs. unfold close. rewrite bind_run. unfold get_sock at 1. rewrite Hs.
  rewrite bind_run. unfold try_except at 1. rewrite bind_run.
  destruct (encode_close_frame c w) as (frame & Ee & Hw). rewrite Ee.
  set (w1 := with_drawn _ w). unfold os at 1.
  destruct (sock_sendall frame w1) as [res w2] eqn:Es.
  pose proof Es as Es'. apply sock_sendall_spec in Es' as (Ht & _ & _ & Hr).
  assert (Hcf : close_fault w2 = close_fault w).
  { revert Es. unfold sock_sendall. destruct (send_faults w1) as [|[] f];
      intros H; inv_eq H; reflexivity. }
  exists frame, res.
  assert (G : forall c0, try_finally (os sock_close) (put_sock None) c0 w2
              = (if close_fault w then Raise OSError else Ok tt, set_sock None c0,
                 log EvClose w2)).
  { intros c0. unfold try_finally, os, sock_close, put_sock. rewrite Hcf. reflexivity. }
  destruct Hr as [-> | ->]; cbn [is_OSError]; unfold ret; rewrite G;
    eexists _, _; (split; [reflexivity|]); (split; [exact Hw|]); (split; [|reflexivity]);
    cbn [log trace]; rewrite Ht; rewrite <- app_assoc; reflexivity.
Qed.

(** [close] on a connected client: a masked, empty close frame is handed to
    [sendall], whose failure is swallowed; then the socket is closed and
    forgotten, also when closing it raises. *)
Theorem close_releases_socket (s : socket) (c : client) (w : world) :
  sock c = Some s ->
  exists frame res r w',
    close c w = (r, set_sock None c, w')
    /\ wire_frame frame = Some (0x8, [], [])
    /\ trace w' = trace w ++ [EvSendall frame res; EvClose]
    /\ r = (if close_fault w then Raise OSError else Ok tt).
Proof. apply close_connected. Qed.

Lemma close_releases_socket_witness :
  snd (fst (close demo_client (demo_world []))) = set_sock None demo_client.
Proof.
  destruct (close_releases_socket (Socket 10) demo_client (demo_world []) eq_refl)
    as (frame & res & r & w' & E & _).
  rewrite E. reflexivity.
Defined.

Section Disconnected.

Variable Dict : Type.
Variable json_dumps : Dict -> outcome pystr.

(** The methods of a client without a socket. *)
Lemma disconnected_ops (c : client) (w : world)
    (text : pystr) (payload : Dict) :
  sock c = None ->
  send_text text c w = (Raise (RuntimeError NotConnected), c, w)
  /\ (forall t, json_dumps payload = Ok t ->
        send_json Dict json_dumps payload c w = (Raise (RuntimeError NotConnected), c, w))
  /\ (exists e, send_json Dict json_dumps payload c w = (Raise e, c, w))
  /\ close c w = (Ok tt, c, w).
Proof.
  intros Hs.
  assert (St : forall t, send_text t c w = (Raise (RuntimeError NotConnected), c, w)).
  { intros t. unfold send_text. rewrite bind_run. unfold get_sock at 1. rewrite Hs.
    reflexivity. }
  split; [apply St|]. split; [|split].
  - intros t Ht. unfold send_json. rewrite bind_run. unfold of_outcome at 1.
    rewrite Ht. apply St.
  - unfold send_json. rewrite bind_run. unfold of_outcome at 1.
    destruct (json_dumps payload) as [t|e]; [rewrite St|]; eauto.
  - unfold close. rewrite bind_run. unfold get_sock at 1. rewrite Hs. reflexivity.
Qed.

Variable utf8_decode_replace : bytes -> pystr.

Lemma disconnected_reads (c : client) (w : world) :
  sock c = None ->
  (forall T, _recv_frame T c w = (Ok None, c, w))
  /\ (forall payload, _send_pong payload c w = (Ok tt, c, w))
  /\ (forall fuel window_seconds,
        read_messages utf8_decode_replace fuel window_seconds c w = Some (Ok tt, c, w)).
Proof.
  intros Hs. split; [|split].
  - intros T. unfold _recv_frame. rewrite bind_run. unfold get_sock at 1. rewrite Hs.
    reflexivity.
  - intros payload. unfold _send_pong. rewrite bind_run. unfold get_sock at 1. rewrite Hs.
    reflexivity.
  - intros fuel window_seconds. unfold read_messages. rewrite Hs. reflexivity.
Qed.

(** On a client without a socket no method touches the world: [send_text]
    raises the "not connected" error; [send_json] raises as well (the
    error of [json.dumps] if the payload cannot be serialised, "not
    connected" otherwise); [close], [_recv_frame], [_send_pong] and
    [read_messages] return at once. *)
Theorem not_connected_sends_nothing (c : client) (w : world)
    (text : pystr) (payload : Dict) :
  sock c = None ->
  send_text text c w = (Raise (RuntimeError NotConnected), c, w)
  /\ (forall t, json_dumps payload = Ok t ->
        send_json Dict json_dumps payload c w = (Raise (RuntimeError NotConnected), c, w))
  /\ (exists e, send_json Dict json_dumps payload c w = (Raise e, c, w))
  /\ close c w = (Ok tt, c, w)
  /\ (forall T, _recv_frame T c w = (Ok None, c, w))
  /\ (forall data, _send_pong data c w = (Ok tt, c, w))
  /\ (forall fuel window_seconds,
        read_messages utf8_decode_replace fuel window_seconds c w = Some (Ok tt, c, w)).
Proof.
  intros Hs. destruct (disconnected_ops c w text payload Hs) as (A & B & C & D).
  destruct (disconnected_reads c w Hs) as (E & F & G). auto 10.
Qed.

End Disconnected.

(** Whatever the client was, after [close] it has no socket: a second
    [close] does nothing and [send_text] is refused. *)
Theorem close_idempotent (c : client) (w : world) (text : pystr) :
  let '(_, c1, w1) := close c w in
  sock c1 = None
  /\ close c1 w1 = (Ok tt, c1, w1)
  /\ send_text text c1 w1 = (Raise (RuntimeError NotConnected), c1, w1).
Proof.
  destruct (close c w) as [[r c1] w1] eqn:E.
  assert (Hs : sock c1 = None).
  { destruct (sock c) as [s|] eqn:Es.
    - destruct (close_connected s c w Es) as (? & ? & ? & ? & E' & _).
      rewrite E' in E. inv_eq E. reflexivity.
    - revert E. unfold close. rewrite bind_run. unfold get_sock at 1. rewrite Es.
      intros H; inv_eq H. exact Es. }
  split; [exact Hs|].
  destruct (disconnected_ops unit (fun _ => Ok []) c1 w1 text tt Hs)
    as (A & _ & _ & B). auto.
Qed.

Lemma not_connected_sends_nothing_witness :
  send_text (py "hi") (init []) (demo_world [])
  = (Raise (RuntimeError NotConnected), init [], demo_world []).
Proof.
  exact (proj1 (not_connected_sends_nothing unit (fun _ => Ok []) demo_decode (init [])
                  (demo_world []) (py "hi") tt eq_refl)).
Defined.

(** ** More about [connect] *)

Lemma sock_sendall_net (data : bytes) (w : world) r w' :
  sock_sendall data w = (r, w') ->
  incoming w' = incoming w /\ now w' = now w /\ exists evs, trace w' = trace w ++ evs.
Proof.
  intros H. apply sock_sendall_spec in H as (Ht & Hn & Hi & _). eauto.
Qed.

(** The part of [connect] that opens the socket never changes the client
    object or what the peer will deliver. *)
Lemma open_socket_frame (urlparse : pystr -> url_parts) (c : client) (w : world)
    r c' w' :
  open_socket urlparse c w = (r, c', w') ->
  c' = c /\ incoming w' = incoming w /\ now w' = now w
  /\ forall key s, r = Ok (key, s) -> timeout s = 10%Q.
Proof.
  unfold open_socket.
  destruct (bool_decide _ || bool_decide _);
    [|intros H; inv_eq H; repeat split; discriminate].
  destruct (hostname (urlparse (url c))) as [[|h host]|];
    try (intros H; inv_eq H; repeat split; discriminate).
  rewrite bind_run. unfold of_outcome at 1.
  destruct (port (urlparse (url c))) as [p|e];
    [|intros H; inv_eq H; repeat split; discriminate].
  rewrite bind_run. unfold os at 1. cbn [os_urandom].
  rewrite bind_run. unfold of_outcome at 1.
  destruct (ascii_decode _) as [k|e];
    [|intros H; inv_eq H; repeat split; discriminate].
  rewrite bind_run. unfold os at 1, create_connection at 1.
  match goal with |- context [connect_fault ?w0] => destruct (connect_fault w0) end;
    [intros H; inv_eq H; repeat split; discriminate|].
  rewrite bind_run.
  match goal with |- context [(if ?g then os (wrap_socket ?s0) else ret ?s1) ?c0 ?w0] =>
    destruct ((if g then os (wrap_socket s0) else ret s1) c0 w0) as [[r2 c2] w2] eqn:Ew
  end.
  assert (Hw : c2 = c /\ incoming w2 = incoming w /\ now w2 = now w
               /\ forall s2, r2 = Ok s2 -> s2 = Socket 10).
  { revert Ew. destruct (bool_decide _).
    - unfold os, wrap_socket. cbn [log tls_fault with_drawn].
      destruct (tls_fault w); intros H; inv_eq H; repeat split;
        intros s2 H; inv_eq H; reflexivity.
    - intros H; inv_eq H. repeat split. intros s2 H; inv_eq H. reflexivity. }
  destruct Hw as (-> & Hi2 & Hn2 & Hs2).
  destruct r2 as [s2|e]; [|intros H; inv_eq H; repeat split; try assumption; discriminate].
  rewrite (Hs2 _ eq_refl).
  rewrite bind_run. unfold of_outcome at 1.
  destruct (ascii_encode _) as [req|e];
    [|intros H; inv_eq H; repeat split; try assumption; discriminate].
  rewrite bind_run. unfold os at 1.
  destruct (sock_sendall req w2) as [[[]|e] w3] eqn:Es;
    apply sock_sendall_net in Es as (Hi3 & Hn3 & _);
    unfold ret; intros H; inv_eq H; repeat split; try congruence.
  intros key s H; inv_eq H. reflexivity.
Qed.

(** [connect] stores the socket only when the handshake is accepted: a
    [connect] that raises leaves the client as disconnected as it was, and
    one that returns has stored a socket with the 10 s timeout. *)
Theorem connect_stores_socket_on_success (urlparse : pystr -> url_parts)
    (c : client) (w : world) r (c' : client) (w' : world) :
  connect urlparse c w = (r, c', w') ->
  url c' = url c
  /\ match r with
     | Ok _ => sock c' = Some (Socket 10)
     | Raise _ => sock c' = sock c
     end.
Proof.
  unfold connect. rewrite bind_run.
  destruct (open_socket urlparse c w) as [[[[key s]|e] c0] w0] eqn:Eo;
    apply open_socket_frame in Eo as (-> & _ & _ & Hs).
  2:{ intros H; inv_eq H. auto. }
  specialize (Hs _ _ eq_refl). destruct s as [t]. simpl in Hs. subst t.
  rewrite bind_run. cbn [fst snd]. unfold os at 1.
  destruct (_read_http_response (Socket 10) w0) as [[[resp leftover]|e] w1].
  2:{ intros H; inv_eq H. auto. }
  rewrite bind_run. unfold put_buffer at 1. cbn [fst snd].
  unfold check_handshake. rewrite bind_run. unfold of_outcome at 1.
  destruct (accept_value key) as [expected|e].
  2:{ intros H; inv_eq H. auto. }
  destruct (negb _ || negb _); intros H; inv_eq H; auto.
Qed.

(** A URL whose scheme is neither ws nor wss, or that names no host, is
    refused with [ValueError] before anything is drawn, opened or sent. *)
Theorem connect_refuses_bad_url (urlparse : pystr -> url_parts) (c : client) (w : world) :
  let parsed := urlparse (url c) in
  (scheme parsed <> py "ws" -> scheme parsed <> py "wss" ->
   connect urlparse c w = (Raise (ValueError "Unsupported scheme"), c, w))
  /\ (scheme parsed = py "ws" \/ scheme parsed = py "wss" ->
      hostname parsed = None \/ hostname parsed = Some [] ->
      connect urlparse c w
      = (Raise (ValueError "WebSocket URL must include a host"), c, w)).
Proof.
  cbv zeta. split.
  - intros H1 H2. unfold connect, open_socket. rewrite bind_run.
    rewrite !bool_decide_eq_false_2 by assumption. reflexivity.
  - intros Hs Hh. unfold connect, open_socket. rewrite bind_run.
    assert (E : bool_decide (scheme (urlparse (url c)) = py "ws")
                || bool_decide (scheme (urlparse (url c)) = py "wss") = true).
    { destruct Hs as [Hs|Hs]; rewrite Hs.
      - reflexivity.
      - apply orb_true_r. }
    rewrite E. destruct Hh as [-> | ->]; reflexivity.
Qed.

Lemma connect_stores_socket_on_success_witness :
  sock (snd (fst (connect demo_urlparse demo_fresh (demo_world [(0%Q, demo_bad_reply)]))))
  = None.
Proof.
  destruct (connect demo_urlparse demo_fresh (demo_world [(0%Q, demo_bad_reply)]))
    as [[r c'] w'] eqn:E.
  pose proof (connect_stores_socket_on_success _ _ _ _ _ _ E) as [_ H].
  assert (A : match fst (fst (connect demo_urlparse demo_fresh
                                (demo_world [(0%Q, demo_bad_reply)])))
              with Ok _ => false | Raise _ => true end = true)
    by (vm_compute; reflexivity).
  rewrite E in A. cbn [fst snd] in *. destruct r; [discriminate | exact H].
Defined.

Lemma connect_refuses_bad_url_witness :
  connect (fun _ => UrlParts (py "http") (Some (py "localhost")) (Ok None) [] [])
          demo_fresh (demo_world [])
  = (Raise (ValueError "Unsupported scheme"), demo_fresh, demo_world []).
Proof.
  apply (connect_refuses_bad_url
           (fun _ => UrlParts (py "http") (Some (py "localhost")) (Ok None) [] [])
           demo_fresh (demo_world [])); discriminate.
Defined.

(** *** Bytes behind the handshake response *)

Lemma starts_with_spec (p b : bytes) :
  starts_with p b = true -> b = p ++ drop (length p) b.
Proof.
  revert b. induction p as [|x p IH]; intros b H; simpl in *.
  - rewrite drop_0. reflexivity.
  - destruct b as [|y b]; [discriminate|].
    apply andb_prop in H as [Hxy Hp]. apply Byte.byte_dec_bl in Hxy. subst y.
    simpl. f_equal. apply IH. exact Hp.
Qed.

Lemma cut_spec (sep b before behind : bytes) :
  cut sep b = Some (before, behind) -> b = before ++ sep ++ behind.
Proof.
  revert before behind. induction b as [|x b IH]; intros before behind; simpl.
  - destruct (starts_with sep []) eqn:E; [|discriminate].
    intros H; inv_eq H. apply starts_with_spec in E. exact E.
  - destruct (starts_with sep (x :: b)) eqn:E.
    + intros H; inv_eq H. apply starts_with_spec in E. exact E.
    + destruct (cut sep b) as [[b1 b2]|] eqn:Ec; [|discriminate].
      simpl. intros H; inv_eq H. simpl. f_equal. apply IH. reflexivity.
Qed.

Lemma partition_spec (sep b hdr leftover : bytes) :
  partition sep b = (hdr, leftover) ->
  (contains sep b = true /\ b = hdr ++ sep ++ leftover)
  \/ (contains sep b = false /\ b = hdr /\ leftover = []).
Proof.
  unfold partition, contains. destruct (cut sep b) as [[b1 b2]|] eqn:E; intros H; inv_eq H.
  - left. split; [reflexivity | apply cut_spec; exact E].
  - right. auto.
Qed.

Lemma http_read_loop_spec (s : socket) (data : bytes) (w : world) data' w' :
  http_read_loop s data w = (Ok data', w') ->
  data' ++ pending (incoming w') = data ++ pending (incoming w).
Proof.
  funelim (http_read_loop s data w); intros E.
  - inv_eq E. reflexivity.
  - match goal with e : sock_recv _ _ _ = _ |- _ =>
      pose proof (sock_recv_spec _ _ _ _ _ e) as (blk & _ & Hp & _) end.
    inv_eq E. rewrite Hp. reflexivity.
  - match goal with e : sock_recv _ _ _ = _ |- _ =>
      pose proof (sock_recv_spec _ _ _ _ _ e) as (blk & _ & Hp & _) end.
    match goal with IH : forall d v, _ -> _ |- _ => rewrite (IH _ _ E) end.
    rewrite Hp, <- app_assoc. reflexivity.
  - discriminate.
Qed.

Lemma starts_with_app (p b rest : bytes) :
  starts_with p b = true -> starts_with p (b ++ rest) = true.
Proof.
  revert b. induction p as [|x p IH]; intros b H; simpl in *; [reflexivity|].
  destruct b as [|y b]; [discriminate|]. simpl.
  apply andb_prop in H as [Hxy Hp]. rewrite Hxy. simpl. apply IH. exact Hp.
Qed.

(** [partition] cuts at the first occurrence of the separator. *)
Lemma cut_first (sep b before behind : bytes) :
  sep <> [] ->
  cut sep b = Some (before, behind) -> cut sep before = None.
Proof.
  intros Hsep. revert before behind. induction b as [|x b IH]; intros before behind; simpl.
  - destruct sep; [congruence|]. discriminate.
  - destruct (starts_with sep (x :: b)) eqn:E.
    + intros H; inv_eq H. destruct sep; [congruence | reflexivity].
    + destruct (cut sep b) as [[b1 b2]|] eqn:Ec; [|discriminate].
      simpl. intros H; inv_eq H. simpl.
      destruct (starts_with sep (x :: b1)) eqn:E1.
      * apply cut_spec in Ec. subst b.
        apply (starts_with_app _ _ (sep ++ behind)) in E1. simpl in E1.
        rewrite E1 in E. discriminate.
      * rewrite (IH _ _ eq_refl). reflexivity.
Qed.

(** When [connect] returns, no byte of the peer is lost: what came behind
    the first blank line, which ends the response, is the client's byte
    stream, ready for [_recv_frame].  (A response that the peer ended
    without a blank line has nothing behind it.) *)
Theorem connect_keeps_bytes_behind_response (urlparse : pystr -> url_parts)
    (c : client) (w : world) (c' : client) (w' : world) :
  connect urlparse c w = (Ok tt, c', w') ->
  exists head,
    contains CRLF2 head = false
    /\ (pending (incoming w) = head ++ CRLF2 ++ stream c' w'
        \/ pending (incoming w) = head ++ stream c' w' /\ buffer c' = []).
Proof.
  unfold connect. rewrite bind_run.
  destruct (open_socket urlparse c w) as [[[[key s]|e] c0] w0] eqn:Eo; [|discriminate].
  apply open_socket_frame in Eo as (-> & Hi & _ & _).
  rewrite bind_run. cbn [fst snd]. unfold os at 1, _read_http_response.
  destruct (http_read_loop s [] w0) as [[data|e] w1] eqn:El; [|discriminate].
  apply http_read_loop_spec in El. rewrite Hi in El. simpl in El.
  destruct (parse_response_total data) as (resp & leftover & Ep & Hl & _).
  rewrite Ep. rewrite bind_run. unfold put_buffer at 1. cbn [fst snd].
  unfold check_handshake. rewrite bind_run. unfold of_outcome at 1.
  destruct (accept_value key) as [expected|e]; [|discriminate].
  destruct (negb _ || negb _); [discriminate|].
  unfold put_sock. intros H; inv_eq H.
  unfold stream. cbn [buffer set_sock set_buffer].
  unfold partition, contains.
  destruct (cut CRLF2 data) as [[hdr l]|] eqn:Ec; cbn [snd].
  - exists hdr. rewrite (cut_first CRLF2 data hdr l ltac:(discriminate) Ec).
    split; [reflexivity|]. left.
    apply cut_spec in Ec. rewrite <- El, Ec, <- !app_assoc. reflexivity.
  - exists data. rewrite Ec. split; [reflexivity|]. right.
    split; [symmetry; exact El | reflexivity].
Qed.

Lemma connect_keeps_bytes_behind_response_witness :
  let W := demo_world [(0%Q, demo_reply ++ demo_text_frame)] in
  let c' := snd (fst (connect demo_urlparse demo_fresh W)) in
  let w' := snd (connect demo_urlparse demo_fresh W) in
  exists head,
    contains CRLF2 head = false
    /\ (pending (incoming W) = head ++ CRLF2 ++ stream c' w'
        \/ pending (incoming W) = head ++ stream c' w' /\ buffer c' = []).
Proof.
  intros W.
  destruct (connect demo_urlparse demo_fresh W) as [[r c'] w'] eqn:E.
  assert (A : match fst (fst (connect demo_urlparse demo_fresh W)) with
              | Ok _ => true | Raise _ => false end = true) by (vm_compute; reflexivity).
  rewrite E in A. destruct r as [[]|]; [|discriminate].
  exact (connect_keeps_bytes_behind_response _ _ _ _ _ E).
Defined.

(** ** More about sending and receiving *)

(** [send_text] on a connected client hands exactly one frame to [sendall]:
    a text frame (opcode 1) whose payload is the UTF-8 encoding of the text.
    A failure of [sendall] is not swallowed here.  A text that cannot be
    encoded raises before anything is sent. *)
Theorem send_text_sends_one_frame (s : socket) (c : client) (w : world) (text : pystr) :
  sock c = Some s ->
  match utf8_encode text with
  | Ok data =>
      Z.of_nat (length data) < 2 ^ 64 ->
      exists frame res w',
        send_text text c w = (res, c, w')
        /\ wire_frame frame = Some (0x1, data, [])
        /\ trace w' = trace w ++ [EvSendall frame res]
        /\ (res = Ok tt \/ res = Raise OSError)
  | Raise e => send_text text c w = (Raise e, c, w)
  end.
Proof.
  intros Hs.
  assert (U : send_text text c w =
              match utf8_encode text with
              | Ok data =>
                  (do frame <- _encode_frame data 0x1; os (sock_sendall frame)) c w
              | Raise e => (Raise e, c, w)
              end).
  { unfold send_text. rewrite bind_run. unfold get_sock at 1. rewrite Hs.
    rewrite bind_run. unfold of_outcome at 1.
    destruct (utf8_encode text); reflexivity. }
  rewrite U. clear U.
  destruct (utf8_encode text) as [data|e]; [|reflexivity].
  intros Hl. rewrite bind_run, encode_frame_run.
  destruct (frame_header_total 0x1 (Z.of_nat (length data))) as [header Eh]; [lia|lia|].
  rewrite Eh. cbv zeta. set (frame := header ++ _). set (w1 := with_drawn _ w).
  unfold os. destruct (sock_sendall frame w1) as [res w2] eqn:Es.
  apply sock_sendall_spec in Es as (Ht & _ & _ & Hr).
  exists frame, res, w2. split; [reflexivity|]. split; [|split; [exact Ht | exact Hr]].
  rewrite <- (app_nil_r frame).
  eapply (wire_frame_encode data 0x1 c w); [lia | exact Hl |].
  rewrite encode_frame_run, Eh. reflexivity.
Qed.

Lemma send_text_sends_one_frame_witness :
  exists frame res w',
    send_text (py "hi") demo_client (demo_world []) = (res, demo_client, w')
    /\ wire_frame frame = Some (0x1, pyb "hi", [])
    /\ trace w' = trace (demo_world []) ++ [EvSendall frame res]
    /\ (res = Ok tt \/ res = Raise OSError).
Proof.
  apply (send_text_sends_one_frame (Socket 10) demo_client (demo_world []) (py "hi") eq_refl).
  vm_compute. reflexivity.
Defined.

Section Dispatch.

Variable utf8_decode_replace : bytes -> pystr.

(** What the receive loop does with a decoded frame that is neither a
    ping nor a close: a text frame is printed (one line, nothing sent); a
    frame with any other opcode (continuation, binary, pong, reserved) is
    dropped without any effect.  Either way the loop goes on. *)
Theorem data_frame_dispatch (end_time : Q) (c : client) (w : world)
    (opcode : Z) (payload : bytes) (c1 : client) (w1 : world) :
  _recv_frame (Qmax (1 # 10) (end_time - now w)) c w
    = (Ok (Some (opcode, payload)), c1, w1) ->
  opcode <> 0x9 -> opcode <> 0x8 ->
  exists w2,
    read_messages_body utf8_decode_replace end_time c w = (Ok Continue, c1, w2)
    /\ sent w2 = sent w1
    /\ new_events w1 w2
       = if opcode =? 0x1
         then [EvPrint ([0x1F4E8; 32]%N ++ utf8_decode_replace payload)]
         else [].
Proof.
  intros E H9 H8. rewrite read_messages_body_eq, E.
  destruct (Z.eqb_spec opcode 1) as [->|H1].
  - eexists. split; [reflexivity|]. split.
    + unfold sent, print, log. cbn [trace]. rewrite sent_app. apply app_nil_r.
    + apply new_events_app. reflexivity.
  - destruct (Z.eqb_spec opcode 9); [contradiction|].
    destruct (Z.eqb_spec opcode 8); [contradiction|].
    exists w1. split; [reflexivity|]. split; [reflexivity|].
    apply new_events_app. symmetry. apply app_nil_r.
Qed.

End Dispatch.

Lemma data_frame_dispatch_witness :
  let R := _recv_frame (Qmax (1 # 10) (1 - now demo_slow_world)) demo_client demo_slow_world in
  let op := match fst (fst R) with Ok (Some (o, _)) => o | _ => 0 end in
  let pl := match fst (fst R) with Ok (Some (_, p)) => p | _ => [] end in
  exists w2,
    read_messages_body demo_decode 1 demo_client demo_slow_world
      = (Ok Continue, snd (fst R), w2)
    /\ sent w2 = sent (snd R)
    /\ new_events (snd R) w2
       = if op =? 0x1 then [EvPrint ([0x1F4E8; 32]%N ++ demo_decode pl)] else [].
Proof.
  intros R.
  assert (A : match fst (fst R) with
              | Ok (Some (op, pl)) => negb (op =? 9) && negb (op =? 8)
              | _ => false end = true) by (vm_compute; reflexivity).
  subst R.
  destruct (_recv_frame (Qmax (1 # 10) (1 - now demo_slow_world)) demo_client demo_slow_world)
    as [[r c1] w1] eqn:E.
  cbn [fst snd] in *. destruct r as [[[op pl]|]|]; try discriminate.
  apply andb_prop in A as [A1 A2].
  apply (data_frame_dispatch demo_decode 1 demo_client demo_slow_world op pl c1 w1 E).
  - intros ->. discriminate.
  - intros ->. discriminate.
Defined.

(** *** A read timeout in the middle of a frame *)

(** When [_recv_frame] raises [socket.timeout], the two header bytes of the
    frame it was reading, and whatever it read behind them, have left the
    byte stream. *)
Lemma recv_frame_timeout_consumed (T : Q) (s : socket) (c : client) (w : world)
    (e : exn) (c' : client) (w' : world) :
  sock c = Some s ->
  _recv_frame T c w = (Raise e, c', w') ->
  is_timeout e = true ->
  exists b1 b2 more, stream c w = b1 :: b2 :: more ++ stream c' w'.
Proof.
  intros Hs. unfold _recv_frame. rewrite bind_run. unfold get_sock at 1. rewrite Hs.
  rewrite bind_run. unfold settimeout.
  destruct (Qle_bool 0 T) eqn:HT; [|intros H; inv_eq H; discriminate].
  unfold put_sock at 1. set (c1 := set_sock (Some (Socket T)) c).
  assert (Hs1 : sock c1 = Some (Socket T)) by reflexivity.
  rewrite bind_run. unfold try_except at 1. rewrite bind_run.
  destruct (_read_exact 2 c1 w) as [[[header|e0] c2] w2] eqn:E1;
    apply (read_exact_spec _ _ _ _ _ _ _ Hs1) in E1 as (ev1 & Hp1 & Hc1 & Hl1);
    simpl timeout in *.
  2:{ destruct (is_timeout e0) eqn:Et.
      - unfold ret. discriminate.
      - intros H; inv_eq H. congruence. }
  specialize (Hl1 _ eq_refl).
  destruct header as [|b1 [|b2 [|? ?]]]; try discriminate Hl1. clear Hl1.
  unfold ret at 1.
  assert (Hs2 : sock c2 = Some (Socket T)) by (destruct Hp1; congruence).
  rewrite bind_run.
  set (len7 := Z.land (Z_of_byte b2) 0x7F).
  set (long := negb (len7 =? 126) && negb (len7 =? 127)).
  set (n2 := if len7 =? 126 then 2%nat else 8%nat).
  replace (if len7 =? 126 then _ else _)
    with (if long then ret len7 else do k <- _read_exact n2; ret (unpack_uint k))
    by (unfold long, n2; destruct (len7 =? 126), (len7 =? 127); reflexivity).
  match goal with |- context [(if long then ?a else ?b) c2 w2] =>
    destruct ((if long then a else b) c2 w2) as [[r2 c3] w3] eqn:E2 end.
  apply (read_if_spec _ _ _ _ _ _ _ _ _ _ Hs2) in E2 as (d2 & ev2 & Hp2 & _ & _).
  simpl timeout in *.
  pose proof (pulled_trans _ _ _ _ _ _ _ _ _ _ _ Hp1 Hp2) as Hp12.
  assert (Fin : forall cc ww dd ee, pulled T c1 w cc ww ([b1; b2] ++ dd) ee ->
                exists x1 x2 more, stream c w = x1 :: x2 :: more ++ stream cc ww).
  { intros cc ww dd ee [_ _ Hst _ _ _]. exists b1, b2, dd. exact Hst. }
  destruct r2 as [len|e2].
  2:{ intros H; inv_eq H. intros _. eapply Fin. exact Hp12. }
  assert (Hs3 : sock c3 = Some (Socket T)) by (destruct Hp2; congruence).
  rewrite bind_run.
  match goal with |- context [(if ?g =? 0 then ?a else ?b) c3 w3] =>
    destruct ((if g =? 0 then a else b) c3 w3) as [[r3 c4] w4] eqn:E3 end.
  apply (read_if_spec _ _ _ _ _ _ _ _ _ _ Hs3) in E3 as (d3 & ev3 & Hp3 & _ & _).
  simpl timeout in *.
  pose proof (pulled_trans _ _ _ _ _ _ _ _ _ _ _ Hp12 Hp3) as Hp123.
  rewrite <- app_assoc in Hp123.
  destruct r3 as [key|e3].
  2:{ intros H; inv_eq H. intros _. eapply Fin. exact Hp123. }
  assert (Hs4 : sock c4 = Some (Socket T)) by (destruct Hp3; congruence).
  rewrite bind_run.
  replace ((if len =? 0 then ret [] else _read_exact (Z.to_nat len)) c4 w4)
    with ((if len =? 0 then ret [] else do k <- _read_exact (Z.to_nat len); ret k) c4 w4)
    by (destruct (len =? 0); [reflexivity | apply bind_ret_r]).
  match goal with |- context [(if len =? 0 then ?a else ?b) c4 w4] =>
    destruct ((if len =? 0 then a else b) c4 w4) as [[r4 c5] w5] eqn:E4 end.
  apply (read_if_spec _ _ _ _ _ _ _ _ _ _ Hs4) in E4 as (d4 & ev4 & Hp4 & _ & _).
  simpl timeout in *.
  pose proof (pulled_trans _ _ _ _ _ _ _ _ _ _ _ Hp123 Hp4) as Hp1234.
  rewrite <- app_assoc in Hp1234.
  destruct r4 as [payload|e4].
  2:{ intros H; inv_eq H. intros _. eapply Fin. exact Hp1234. }
  unfold ret. discriminate.
Qed.

Section MidFrame.

Variable utf8_decode_replace : bytes -> pystr.

(** The receive loop swallows every [socket.timeout] of the decoder.  When
    the timeout struck after the header, in the middle of a frame, the
    loop goes on although the bytes of that frame read so far, at least
    its two header bytes, are gone from the byte stream: the next pass
    takes what is left of the frame for the start of a new one. *)
Theorem midframe_timeout_loses_alignment (end_time : Q) (s : socket)
    (c : client) (w : world) (c' : client) (w' : world) :
  sock c = Some s ->
  _recv_frame (Qmax (1 # 10) (end_time - now w)) c w = (Raise socket_timeout, c', w') ->
  read_messages_body utf8_decode_replace end_time c w = (Ok Continue, c', w')
  /\ exists b1 b2 more, stream c w = b1 :: b2 :: more ++ stream c' w'.
Proof.
  intros Hs E. split.
  - rewrite read_messages_body_eq, E. reflexivity.
  - eapply recv_frame_timeout_consumed; [exact Hs | exact E | reflexivity].
Qed.

End MidFrame.

Lemma midframe_timeout_loses_alignment_witness :
  let R := _recv_frame (Qmax (1 # 10) (1 - now demo_stalled_world))
             demo_client demo_stalled_world in
  read_messages_body demo_decode 1 demo_client demo_stalled_world
    = (Ok Continue, snd (fst R), snd R)
  /\ exists b1 b2 more,
       stream demo_client demo_stalled_world
       = b1 :: b2 :: more ++ stream (snd (fst R)) (snd R).
Proof.
  intros R.
  assert (A : match fst (fst R) with
              | Raise socket_timeout => true
              | _ => false end = true) by (vm_compute; reflexivity).
  subst R.
  destruct (_recv_frame (Qmax (1 # 10) (1 - now demo_stalled_world))
              demo_client demo_stalled_world) as [[r c1] w1] eqn:E.
  cbn [fst snd] in *. destruct r as [|[]]; try discriminate.
  exact (midframe_timeout_loses_alignment demo_decode 1 (Socket 10) demo_client
           demo_stalled_world c1 w1 eq_refl E).
Defined.

(** *** What [connect] does on the network *)

Lemma http_read_loop_trace (s : socket) (data : bytes) (w : world) r w' :
  http_read_loop s data w = (r, w') ->
  exists evs, trace w' = trace w ++ evs /\ existsb is_close evs = false.
Proof.
  funelim (http_read_loop s data w); intros E.
  - inv_eq E. exists []. split; [symmetry; apply app_nil_r | reflexivity].
  - match goal with e : sock_recv _ _ _ = _ |- _ =>
      pose proof (sock_recv_spec _ _ _ _ _ e) as (blk & _ & _ & _ & Ht) end.
    inv_eq E. eexists. split; [exact Ht | reflexivity].
  - match goal with e : sock_recv _ _ _ = _ |- _ =>
      pose proof (sock_recv_spec _ _ _ _ _ e) as (blk & _ & _ & _ & Ht) end.
    match goal with IH : forall r0 v, _ -> _ |- _ =>
      destruct (IH _ _ E) as (evs & Ht' & Hc) end.
    eexists. split; [rewrite Ht', Ht, <- app_assoc; reflexivity|].
    simpl. exact Hc.
  - match goal with e : sock_recv _ _ _ = _ |- _ =>
      pose proof (sock_recv_spec _ _ _ _ _ e) as (blk & _ & _ & _ & Ht) end.
    inv_eq E. eexists. split; [exact Ht | reflexivity].
Qed.

(** The network side of [open_socket]: for a ws or wss URL with a host and
    a valid port, the first thing it does is to connect to that host, at the
    effective port; it never closes the socket. *)
Lemma open_socket_trace (urlparse : pystr -> url_parts) (c : client) (w : world)
    r c' w' :
  open_socket urlparse c w = (r, c', w') ->
  exists evs,
    trace w' = trace w ++ evs /\ existsb is_close evs = false
    /\ forall host p,
         scheme (urlparse (url c)) = py "ws" \/ scheme (urlparse (url c)) = py "wss" ->
         hostname (urlparse (url c)) = Some host -> host <> [] ->
         port (urlparse (url c)) = Ok p ->
         exists rest, evs = EvConnect host (effective_port (urlparse (url c)) p) :: rest.
Proof.
  unfold open_socket.
  assert (Nil : forall (r0 : outcome (pystr * socket)),
            (r0, c, w) = (r, c', w') ->
            (forall host p,
               scheme (urlparse (url c)) = py "ws" \/ scheme (urlparse (url c)) = py "wss" ->
               hostname (urlparse (url c)) = Some host -> host <> [] ->
               port (urlparse (url c)) = Ok p -> False) ->
            exists evs,
              trace w' = trace w ++ evs /\ existsb is_close evs = false
              /\ forall host p,
                   scheme (urlparse (url c)) = py "ws"
                   \/ scheme (urlparse (url c)) = py "wss" ->
                   hostname (urlparse (url c)) = Some host -> host <> [] ->
                   port (urlparse (url c)) = Ok p ->
                   exists rest,
                     evs = EvConnect host (effective_port (urlparse (url c)) p) :: rest).
  { intros r0 H Habs. inv_eq H. exists []. split; [symmetry; apply app_nil_r|].
    split; [reflexivity|]. intros host p H1 H2 H3 H4. destruct (Habs host p H1 H2 H3 H4). }
  destruct (bool_decide (scheme (urlparse (url c)) = py "ws")
            || bool_decide (scheme (urlparse (url c)) = py "wss")) eqn:Esch.
  2:{ intros H. apply (Nil _ H). intros host p [Hs|Hs] _ _ _; rewrite Hs in Esch;
        [discriminate | rewrite orb_true_r in Esch; discriminate]. }
  destruct (hostname (urlparse (url c))) as [[|h host0]|] eqn:Eh.
  1:{ intros H. apply (Nil _ H). intros host p _ Hh Hne _. congruence. }
  2:{ intros H. apply (Nil _ H). intros host p _ Hh _ _. discriminate. }
  rewrite bind_run. unfold of_outcome at 1.
  destruct (port (urlparse (url c))) as [p0|e] eqn:Ep.
  2:{ intros H. apply (Nil _ H). intros host p _ _ _ Hp. discriminate. }
  rewrite bind_run. unfold os at 1. cbn [os_urandom].
  rewrite bind_run. unfold of_outcome at 1.
  assert (Hkey : exists k, ascii_decode (b64encode (map (entropy w) (seq (drawn w) 16)))
                           = Ok k).
  { unfold ascii_decode. rewrite b64encode_ascii. eauto. }
  destruct Hkey as [k Ek]. rewrite Ek.
  rewrite bind_run. unfold os at 1, create_connection at 1.
  fold (effective_port (urlparse (url c)) p0).
  set (w1 := with_drawn _ w).
  set (ev := EvConnect (h :: host0) (effective_port (urlparse (url c)) p0)).
  assert (Fin : forall (r0 : outcome (pystr * socket)) w2 evs,
            trace w2 = (trace w ++ [ev]) ++ evs -> existsb is_close evs = false ->
            (r0, c, w2) = (r, c', w') ->
            exists evs0,
              trace w' = trace w ++ evs0 /\ existsb is_close evs0 = false
              /\ forall host p,
                   scheme (urlparse (url c)) = py "ws"
                   \/ scheme (urlparse (url c)) = py "wss" ->
                   Some (h :: host0) = Some host -> host <> [] ->
                   Ok p0 = Ok p ->
                   exists rest,
                     evs0 = EvConnect host (effective_port (urlparse (url c)) p) :: rest).
  { intros r0 w2 evs Ht Hc H. inv_eq H. exists (ev :: evs).
    split; [rewrite Ht, <- app_assoc; reflexivity|]. split; [exact Hc|].
    intros host p _ Hh _ Hp. inv_eq Hh. inv_eq Hp. eauto. }
  destruct (connect_fault w1).
  { intros H. apply (Fin _ (log ev w1) [] (eq_sym (app_nil_r (trace w ++ [ev]))) eq_refl H). }
  rewrite bind_run.
  match goal with |- context [(if ?g then os (wrap_socket ?s0) else ret ?s1) ?c0 ?w0] =>
    destruct ((if g then os (wrap_socket s0) else ret s1) c0 w0) as [[r2 c2] w2] eqn:Ew
  end.
  assert (Hw : c2 = c /\ w2 = log ev w1).
  { revert Ew. destruct (bool_decide (scheme (urlparse (url c)) = py "wss")).
    - unfold os, wrap_socket. destruct (tls_fault (log ev w1)); intros H; inv_eq H; auto.
    - intros H; inv_eq H. auto. }
  destruct Hw as [-> ->].
  destruct r2 as [s2|e].
  2:{ intros H. apply (Fin _ (log ev w1) [] (eq_sym (app_nil_r (trace w ++ [ev]))) eq_refl H). }
  rewrite bind_run. unfold of_outcome at 1.
  destruct (ascii_encode _) as [req|e].
  2:{ intros H. apply (Fin _ (log ev w1) [] (eq_sym (app_nil_r (trace w ++ [ev]))) eq_refl H). }
  rewrite bind_run. unfold os at 1.
  destruct (sock_sendall req (log ev w1)) as [r3 w3] eqn:Es.
  apply sock_sendall_spec in Es as (Ht & _ & _ & _).
  destruct r3 as [[]|e]; unfold ret; intros H;
    apply (Fin _ _ _ Ht eq_refl H).
Qed.

Lemma connect_trace (urlparse : pystr -> url_parts) (c : client) (w : world)
    r c' w' :
  connect urlparse c w = (r, c', w') ->
  exists evs,
    new_events w w' = evs /\ existsb is_close evs = false
    /\ forall host p,
         scheme (urlparse (url c)) = py "ws" \/ scheme (urlparse (url c)) = py "wss" ->
         hostname (urlparse (url c)) = Some host -> host <> [] ->
         port (urlparse (url c)) = Ok p ->
         exists rest, evs = EvConnect host (effective_port (urlparse (url c)) p) :: rest.
Proof.
  unfold connect. rewrite bind_run.
  destruct (open_socket urlparse c w) as [[ro c0] w0] eqn:Eo.
  destruct (open_socket_trace _ _ _ _ _ _ Eo) as (ev0 & Ht0 & Hc0 & Hp0).
  destruct ro as [[key s]|e].
  2:{ intros H; inv_eq H. exists ev0. split; [apply new_events_app; exact Ht0|]. auto. }
  rewrite bind_run. cbn [fst snd]. unfold os at 1, _read_http_response.
  destruct (http_read_loop s [] w0) as [rl w1] eqn:El.
  destruct (http_read_loop_trace _ _ _ _ _ El) as (ev1 & Ht1 & Hc1).
  assert (Ht : trace w1 = trace w ++ ev0 ++ ev1)
    by (rewrite Ht1, Ht0, <- app_assoc; reflexivity).
  assert (Hc : existsb is_close (ev0 ++ ev1) = false)
    by (rewrite existsb_app, Hc0, Hc1; reflexivity).
  assert (Fin : forall (r0 : outcome unit) cc, (r0, cc, w1) = (r, c', w') ->
            exists evs,
              new_events w w' = evs /\ existsb is_close evs = false
              /\ forall host p,
                   scheme (urlparse (url c)) = py "ws"
                   \/ scheme (urlparse (url c)) = py "wss" ->
                   hostname (urlparse (url c)) = Some host -> host <> [] ->
                   port (urlparse (url c)) = Ok p ->
                   exists rest,
                     evs = EvConnect host (effective_port (urlparse (url c)) p) :: rest).
  { intros r0 cc H. inv_eq H. exists (ev0 ++ ev1).
    split; [apply new_events_app; exact Ht|]. split; [exact Hc|].
    intros host p H1 H2 H3 H4. destruct (Hp0 host p H1 H2 H3 H4) as [rest ->].
    eexists. reflexivity. }
  destruct rl as [data|e]; [|intros H; exact (Fin _ _ H)].
  destruct (parse_response data) as [[resp leftover]|e]; [|intros H; exact (Fin _ _ H)].
  rewrite bind_run. unfold put_buffer at 1. cbn [fst snd].
  unfold check_handshake. rewrite bind_run. unfold of_outcome at 1.
  destruct (accept_value key) as [expected|e]; [|intros H; exact (Fin _ _ H)].
  destruct (negb _ || negb _); intros H; exact (Fin _ _ H).
Qed.

(** For a ws or wss URL that names a host and a valid port, whatever
    happens later, the first thing [connect] does on the network is to open
    a connection to that host at the URL's port; a port that is absent, or
    zero, is replaced by 443 for wss and by 80 for ws. *)
Theorem connect_goes_to_effective_port (urlparse : pystr -> url_parts)
    (c : client) (w : world) r (c' : client) (w' : world) (host : pystr) (p : option Z) :
  connect urlparse c w = (r, c', w') ->
  scheme (urlparse (url c)) = py "ws" \/ scheme (urlparse (url c)) = py "wss" ->
  hostname (urlparse (url c)) = Some host -> host <> [] ->
  port (urlparse (url c)) = Ok p ->
  exists rest,
    new_events w w' = EvConnect host (effective_port (urlparse (url c)) p) :: rest.
Proof.
  intros E H1 H2 H3 H4. destruct (connect_trace _ _ _ _ _ _ E) as (evs & <- & _ & Hp).
  exact (Hp host p H1 H2 H3 H4).
Qed.

Lemma connect_goes_to_effective_port_witness :
  let up := fun _ : pystr => UrlParts (py "wss") (Some (py "example.org")) (Ok (Some 0)) [] [] in
  exists rest,
    new_events (demo_world []) (snd (connect up demo_fresh (demo_world [])))
    = EvConnect (py "example.org") 443 :: rest.
Proof.
  intros up.
  destruct (connect up demo_fresh (demo_world [])) as [[r c'] w'] eqn:E.
  apply (connect_goes_to_effective_port up demo_fresh (demo_world []) r c' w'
           (py "example.org") (Some 0) E); [right; reflexivity | reflexivity | discriminate
           | reflexivity].
Defined.

(** [connect] never closes the socket it opened: when it refuses the
    handshake, or fails while reading the response, the connection stays
    open although the client keeps no handle on it. *)
Theorem connect_never_closes_socket (urlparse : pystr -> url_parts)
    (c : client) (w : world) r (c' : client) (w' : world) :
  connect urlparse c w = (r, c', w') ->
  existsb is_close (new_events w w') = false
  /\ (r <> Ok tt -> sock c' = sock c).
Proof.
  intros E. split.
  - destruct (connect_trace _ _ _ _ _ _ E) as (evs & <- & Hc & _). exact Hc.
  - intros Hr. pose proof E as E'. revert E'. unfold connect. rewrite bind_run.
    destruct (open_socket urlparse c w) as [[[[key s]|e] c0] w0] eqn:Eo;
      apply open_socket_frame in Eo as (-> & _ & _ & _).
    2:{ intros H; inv_eq H. reflexivity. }
    rewrite bind_run. cbn [fst snd]. unfold os at 1.
    destruct (_read_http_response s w0) as [[[resp leftover]|e] w1].
    2:{ intros H; inv_eq H. reflexivity. }
    rewrite bind_run. unfold put_buffer at 1. cbn [fst snd].
    unfold check_handshake. rewrite bind_run. unfold of_outcome at 1.
    destruct (accept_value key) as [expected|e].
    2:{ intros H; inv_eq H. reflexivity. }
    destruct (negb _ || negb _); intros H; inv_eq H; [reflexivity|].
    exfalso. apply Hr. reflexivity.
Qed.

Lemma connect_never_closes_socket_witness :
  let R := connect demo_urlparse demo_fresh (demo_world [(0%Q, demo_bad_reply)]) in
  existsb is_close (new_events (demo_world [(0%Q, demo_bad_reply)]) (snd R)) = false
  /\ (fst (fst R) <> Ok tt -> sock (snd (fst R)) = sock demo_fresh).
Proof.
  intros R. subst R.
  destruct (connect demo_urlparse demo_fresh (demo_world [(0%Q, demo_bad_reply)]))
    as [[r c'] w'] eqn:E.
  exact (connect_never_closes_socket _ _ _ _ _ _ E).
Defined.

Lemma close_frame_ends_loop_witness :
  let R := _recv_frame (Qmax (1 # 10) (10 - now demo_close_world))
             demo_client demo_close_world in
  read_messages_loop demo_decode 1 10 demo_client demo_close_world
  = Some (Ok tt, snd (fst R), snd R).
Proof.
  intros R.
  assert (A : match fst (fst R) with
              | Ok (Some (op, _)) => op =? 8
              | _ => false end = true) by (vm_compute; reflexivity).
  subst R.
  destruct (_recv_frame (Qmax (1 # 10) (10 - now demo_close_world))
              demo_client demo_close_world) as [[r c1] w1] eqn:E.
  cbn [fst snd] in *. destruct r as [[[op pl]|]|]; try discriminate.
  apply Z.eqb_eq in A. subst op.
  exact (close_frame_ends_loop demo_decode 0 10 demo_client demo_close_world pl c1 w1
           eq_refl E).
Defined.


(** ** The exchange at the end of [main] *)

Lemma recv_events_not_close (T : Q) (evs : list io_event) :
  Forall (is_recv_within T) evs -> existsb is_close evs = false.
Proof.
  induction 1 as [|ev evs H _ IH]; [reflexivity|].
  simpl. rewrite IH. destruct ev; try contradiction; reflexivity.
Qed.

Lemma send_text_effects (s : socket) (c : client) (w : world) (text : pystr) r c' w' :
  sock c = Some s ->
  send_text text c w = (r, c', w') ->
  c' = c /\ exists evs, trace w' = trace w ++ evs /\ existsb is_close evs = false.
Proof.
  intros Hs. unfold send_text. rewrite bind_run. unfold get_sock at 1. rewrite Hs.
  rewrite bind_run. unfold of_outcome at 1.
  assert (Nil : forall r0, (r0, c, w) = (r, c', w') ->
            c' = c /\ exists evs, trace w' = trace w ++ evs /\ existsb is_close evs = false).
  { intros r0 H; inv_eq H. split; [reflexivity|]. exists [].
    split; [symmetry; apply app_nil_r | reflexivity]. }
  destruct (utf8_encode text) as [data|e]; [|exact (Nil _)].
  rewrite bind_run, encode_frame_run.
  destruct (frame_header 1 (Z.of_nat (length data))) as [header|e]; [|exact (Nil _)].
  cbv zeta. unfold os. set (frame := header ++ _). set (w1 := with_drawn _ w).
  destruct (sock_sendall frame w1) as [res w2] eqn:Es.
  apply sock_sendall_spec in Es as (Ht & _ & _ & _).
  intros H; inv_eq H. split; [reflexivity|]. eexists. split; [exact Ht | reflexivity].
Qed.

(** ** More about reading *)

(** [_read_exact] neither loses nor reorders bytes: what it returns is the
    next [n] bytes of the stream, and the rest stays for the next read; when
    it raises (time-out, peer closed) everything received so far is still
    in the buffer.  The socket is not replaced. *)
Theorem read_exact_keeps_stream (n : nat) (s : socket) (c : client) (w : world)
    (r : outcome bytes) (c' : client) (w' : world) :
  sock c = Some s ->
  _read_exact n c w = (r, c', w') ->
  stream c w = match r with Ok data => data | Raise _ => [] end ++ stream c' w'
  /\ (forall data, r = Ok data -> length data = n)
  /\ sock c' = sock c.
Proof.
  intros Hs E. destruct (read_exact_spec _ _ _ _ _ _ _ Hs E) as (evs & Hp & _ & Hl).
  destruct Hp. auto.
Qed.

Lemma read_exact_keeps_stream_witness :
  let R := _read_exact 4 demo_client demo_stalled_world in
  stream demo_client demo_stalled_world
  = match fst (fst R) with Ok data => data | Raise _ => [] end
    ++ stream (snd (fst R)) (snd R)
  /\ (forall data, fst (fst R) = Ok data -> length data = 4%nat)
  /\ sock (snd (fst R)) = sock demo_client.
Proof.
  intros R. subst R.
  destruct (_read_exact 4 demo_client demo_stalled_world) as [[r c'] w'] eqn:E.
  exact (read_exact_keeps_stream 4 (Socket 10) demo_client demo_stalled_world r c' w'
           eq_refl E).
Defined.

(** A frame that trickles in keeps the receive loop busy long after its
    deadline: here the budget is 1 s, each of the three reads waits 0.9 s,
    and [read_messages] returns after 2.7 s. *)
Lemma receive_loop_outlasts_budget :
  exists c' w',
    read_messages demo_decode 1 1 demo_client demo_slow_world = Some (Ok tt, c', w')
    /\ (now w' == 27 # 10)%Q
    /\ (now demo_slow_world + 1 + (1 # 10) < now w')%Q.
Proof.
  eexists _, _. split; [vm_compute; reflexivity|]. split; reflexivity.
Qed.

(** ** Header lines *)

Lemma cut_byte (x : byte) (name value : bytes) :
  cut [x] name = None -> cut [x] (name ++ [x] ++ value) = Some (name, value).
Proof.
  induction name as [|y name IH]; simpl in *.
  - intros _. unfold byte_eqb. rewrite Byte.byte_dec_lb by reflexivity. simpl.
    rewrite drop_0. reflexivity.
  - destruct (byte_eqb x y && true) eqn:E; [discriminate|].
    destruct (cut [x] name) as [[a b]|] eqn:Ec; [discriminate|]. intros _.
    rewrite IH by reflexivity. reflexivity.
Qed.

(** A header line is split at its first colon: the name, in lower case, is
    bound to the stripped value, which may itself contain colons; a later
    line with the same name replaces the binding; the other names stay. *)
Theorem header_line_binds_name (hs : gmap pystr pystr) (name value : bytes) :
  contains (pyb ":") name = false ->
  let hs' := parse_header_line hs (name ++ pyb ":" ++ value) in
  hs' !! lower (ascii_decode_replace name) = Some (ascii_decode_replace (strip value))
  /\ forall k, k <> lower (ascii_decode_replace name) -> hs' !! k = hs !! k.
Proof.
  unfold contains, parse_header_line, partition, contains. change (pyb ":") with [":"%byte].
  destruct (cut [":"%byte] name) eqn:E; [discriminate|]. intros _.
  rewrite (cut_byte _ _ _ E). cbv zeta. split.
  - apply lookup_insert_eq.
  - intros k Hk. apply lookup_insert_ne. congruence.
Qed.

Lemma header_line_binds_name_witness :
  let hs' := parse_header_line (<[py "upgrade" := py "h2c"]> ∅)
               (pyb "UpGrade" ++ pyb ":" ++ pyb " websocket:13 ") in
  hs' !! lower (ascii_decode_replace (pyb "UpGrade"))
  = Some (ascii_decode_replace (strip (pyb " websocket:13 ")))
  /\ forall k, k <> lower (ascii_decode_replace (pyb "UpGrade")) ->
       hs' !! k = (<[py "upgrade" := py "h2c"]> ∅ : gmap pystr pystr) !! k.
Proof.
  apply (header_line_binds_name (<[py "upgrade" := py "h2c"]> ∅) (pyb "UpGrade")
           (pyb " websocket:13 ")).
  vm_compute. reflexivity.
Defined.

(** ** The range of [_encode_frame] *)

Lemma lor_128_outside (z : Z) : ~ 0 <= z < 256 -> ~ 0 <= Z.lor 0x80 z < 256.
Proof.
  intros H [G1 G2]. apply Z.lor_nonneg in G1 as [_ G1].
  destruct (Z.eq_dec z 0) as [->|Hz]; [lia|].
  assert (L : Z.log2 (Z.lor 0x80 z) = Z.max (Z.log2 0x80) (Z.log2 z))
    by (apply Z.log2_lor; lia).
  assert (B : Z.log2 (Z.lor 0x80 z) < 8).
  { apply Z.log2_lt_pow2; [|exact G2].
    assert (0 <= Z.lor 0x80 z) by (apply Z.lor_nonneg; lia).
    assert (Z.lor 0x80 z <> 0) by (intros Q; apply Z.lor_eq_0_iff in Q as [Q _]; discriminate).
    lia. }
  assert (Z.log2 z < 8) by lia.
  apply Z.log2_lt_pow2 in H0; [|lia]. change (2 ^ 8) with 256 in H0. lia.
Qed.

(** [_encode_frame] produces a frame exactly for the opcodes 0..255 (the
    payload being shorter than 2^64 bytes); it then draws the 4 bytes of the
    mask key and changes nothing else.  For any other opcode [struct.pack]
    raises before a random byte is drawn. *)
Theorem encode_frame_opcode_range (payload : bytes) (opcode : Z) (c : client) (w : world) :
  Z.of_nat (length payload) < 2 ^ 64 ->
  (0 <= opcode < 256 ->
     exists frame, _encode_frame payload opcode c w
                   = (Ok frame, c, with_drawn (drawn w + 4) w))
  /\ (~ 0 <= opcode < 256 ->
     _encode_frame payload opcode c w = (Raise struct_error, c, w)).
Proof.
  intros Hl. rewrite encode_frame_run. split.
  - intros Ho.
    destruct (frame_header_total opcode (Z.of_nat (length payload)) Ho ltac:(lia))
      as [header ->]. eauto.
  - intros Ho. apply lor_128_outside in Ho.
    assert (E0 : pack_uint 1 (Z.lor 0x80 opcode) = Raise struct_error).
    { unfold pack_uint.
      destruct (Z.leb_spec 0 (Z.lor 0x80 opcode)),
               (Z.ltb_spec (Z.lor 0x80 opcode) (2 ^ (8 * Z.of_nat 1))); simpl;
        try reflexivity. change (2 ^ (8 * Z.of_nat 1)) with 256 in *. lia. }
    unfold frame_header, pack_BB, pack_BBH, pack_BBQ. rewrite E0.
    destruct (_ <? 126); [reflexivity|]. destruct (_ <? _); reflexivity.
Qed.

Lemma encode_frame_opcode_range_witness :
  (exists frame, _encode_frame demo_payload 0x9 demo_client (demo_world [])
                 = (Ok frame, demo_client,
                    with_drawn (drawn (demo_world []) + 4) (demo_world [])))
  /\ _encode_frame demo_payload 0x109 demo_client (demo_world [])
     = (Raise struct_error, demo_client, demo_world []).
Proof.
  assert (L : Z.of_nat (length demo_payload) < 2 ^ 64) by (vm_compute; reflexivity).
  split.
  - apply (proj1 (encode_frame_opcode_range demo_payload 0x9 demo_client (demo_world []) L)).
    lia.
  - apply (proj2 (encode_frame_opcode_range demo_payload 0x109 demo_client (demo_world []) L)).
    lia.
Defined.

(** ** The clock *)

Lemma recv_step_clock (s : socket) (n : nat) (inc : list (Q * bytes)) r blocked inc' :
  (0 <= timeout s)%Q ->
  Forall (fun dc : Q * bytes => (0 <= fst dc)%Q) inc ->
  recv_step s n inc = (r, blocked, inc') ->
  Forall (fun dc : Q * bytes => (0 <= fst dc)%Q) inc'
  /\ (0 <= blocked)%Q
  /\ (forall e, r = Raise e -> blocked = timeout s).
Proof.
  intros HT Hp. unfold recv_step. destruct inc as [|[d chunk] rest].
  - intros H; inv_eq H. auto.
  - apply Forall_cons in Hp as [Hd Hrest]. simpl in Hd.
    destruct (Qle_bool d (timeout s)) eqn:E.
    + destruct chunk as [|b chunk].
      { intros H; inv_eq H. split; [|split; [exact Hd | discriminate]].
        constructor; [apply Qle_refl | exact Hrest]. }
      destruct (drop n (b :: chunk)) as [|x later] eqn:D; intros H; inv_eq H.
      * split; [exact Hrest | split; [exact Hd | discriminate]].
      * split; [|split; [exact Hd | discriminate]].
        constructor; [apply Qle_refl | exact Hrest].
    + intros H; inv_eq H. split; [|split; [exact HT | reflexivity]].
      constructor; [|exact Hrest]. simpl.
      assert (L : ~ (d <= timeout s)%Q)
        by (intros L; apply Qle_bool_iff in L; congruence).
      apply Qnot_le_lt in L. apply Qlt_le_weak in L.
      unfold Qminus. rewrite <- (Qplus_opp_r (timeout s)).
      apply Qplus_le_l. exact L.
Qed.

Lemma sock_recv_clock (s : socket) (n : nat) (w : world) r w' :
  (0 <= timeout s)%Q -> punctual w ->
  sock_recv s n w = (r, w') ->
  punctual w' /\ (now w <= now w')%Q
  /\ (forall e, r = Raise e -> (now w + timeout s <= now w')%Q).
Proof.
  intros HT Hp. unfold sock_recv.
  destruct (recv_step s n (incoming w)) as [[r0 blocked] inc'] eqn:E.
  intros H; inv_eq H. apply (recv_step_clock _ _ _ _ _ _ HT Hp) in E as (Hp' & Hb & Hr).
  split; [exact Hp'|]. simpl. split.
  - rewrite <- (Qplus_0_r (now w)) at 1. apply Qplus_le_r. exact Hb.
  - intros e He. rewrite (Hr _ He). apply Qle_refl.
Qed.

Lemma read_exact_loop_clock (n : nat) (s : socket) (c : client) (w : world) r c' w' :
  sock c = Some s -> (0 <= timeout s)%Q -> punctual w ->
  read_exact_loop n c w = (r, c', w') ->
  punctual w' /\ (now w <= now w')%Q
  /\ (r = Raise socket_timeout -> (now w + timeout s <= now w')%Q).
Proof.
  remember (n - length (buffer c))%nat as m eqn:Hm.
  revert c w Hm. induction m as [m IH] using lt_wf_ind. intros c w Hm Hs HT Hp.
  rewrite read_exact_loop_eq, Hs.
  destruct (lt_dec (length (buffer c)) n) as [Hlt|Hge].
  - destruct (sock_recv s (n - length (buffer c)) w) as [[[|b chunk]|e] w1] eqn:E;
      apply (sock_recv_clock _ _ _ _ _ HT Hp) in E as (Hp1 & Hn1 & Hr1).
    + intros H; inv_eq H. split; [exact Hp1|]. split; [exact Hn1 | discriminate].
    + intros H.
      eapply (IH (n - length (buffer (set_buffer (buffer c ++ b :: chunk) c)))%nat) in H;
        [ | simpl; rewrite length_app; simpl; lia | reflexivity | exact Hs | exact HT
          | exact Hp1 ].
      destruct H as (Hp2 & Hn2 & Hr2). split; [exact Hp2|]. split.
      * eapply Qle_trans; eassumption.
      * intros Hr. eapply Qle_trans; [|exact (Hr2 Hr)]. apply Qplus_le_l. exact Hn1.
    + intros H; inv_eq H. split; [exact Hp1|]. split; [exact Hn1|].
      intros _. exact (Hr1 _ eq_refl).
  - intros H; inv_eq H. split; [exact Hp|]. split; [apply Qle_refl | discriminate].
Qed.

Lemma read_exact_clock (n : nat) (s : socket) (c : client) (w : world) r c' w' :
  sock c = Some s -> (0 <= timeout s)%Q -> punctual w ->
  _read_exact n c w = (r, c', w') ->
  punctual w' /\ (now w <= now w')%Q
  /\ (r = Raise socket_timeout -> (now w + timeout s <= now w')%Q).
Proof.
  intros Hs HT Hp. unfold _read_exact.
  destruct (n =? 0)%nat.
  - intros H; inv_eq H. split; [exact Hp|]. split; [apply Qle_refl | discriminate].
  - unfold bind, get_buffer, put_buffer, ret.
    destruct (read_exact_loop n c w) as [[[[]|e] c1] w1] eqn:E; intros H; inv_eq H;
      apply (read_exact_loop_clock _ _ _ _ _ _ _ Hs HT Hp) in E as (Hp1 & Hn1 & Hr1).
    + split; [exact Hp1|]. split; [exact Hn1 | discriminate].
    + split; [exact Hp1|]. split; [exact Hn1|]. intros H; inv_eq H. apply Hr1. reflexivity.
Qed.

Lemma read_if_clock {A} (skip : bool) (n : nat) (dflt : A) (f : bytes -> A)
    (s : socket) (c : client) (w : world) r c' w' :
  sock c = Some s -> (0 <= timeout s)%Q -> punctual w ->
  (if skip then ret dflt else do k <- _read_exact n; ret (f k)) c w = (r, c', w') ->
  punctual w' /\ (now w <= now w')%Q
  /\ (r = Raise socket_timeout -> (now w + timeout s <= now w')%Q).
Proof.
  intros Hs HT Hp. destruct skip.
  - intros H; inv_eq H. split; [exact Hp|]. split; [apply Qle_refl | discriminate].
  - unfold bind, ret. destruct (_read_exact n c w) as [[[data|e] c1] w1] eqn:E;
      intros H; inv_eq H;
      apply (read_exact_clock _ _ _ _ _ _ _ Hs HT Hp) in E as (Hp1 & Hn1 & Hr1).
    + split; [exact Hp1|]. split; [exact Hn1 | discriminate].
    + split; [exact Hp1|]. split; [exact Hn1|]. intros H; inv_eq H. apply Hr1. reflexivity.
Qed.

Lemma recv_frame_clock (T : Q) (s : socket) (c : client) (w : world) r c' w' :
  sock c = Some s -> (0 <= T)%Q -> punctual w ->
  _recv_frame T c w = (r, c', w') ->
  punctual w' /\ (now w <= now w')%Q
  /\ (r = Ok None \/ r = Raise socket_timeout -> (now w + T <= now w')%Q).
Proof.
  intros Hs HT Hp. unfold _recv_frame. rewrite bind_run. unfold get_sock at 1. rewrite Hs.
  rewrite bind_run. unfold settimeout. pose proof HT as HT'.
  apply Qle_bool_iff in HT'. rewrite HT'.
  unfold put_sock at 1. set (c1 := set_sock (Some (Socket T)) c).
  assert (Hs1 : sock c1 = Some (Socket T)) by reflexivity.
  rewrite bind_run. unfold try_except at 1. rewrite bind_run.
  destruct (_read_exact 2 c1 w) as [[[header|e] c2] w2] eqn:E1;
    pose proof (read_exact_clock _ _ _ _ _ _ _ Hs1 HT Hp E1) as (Hp2 & Hn2 & Hr2);
    apply (read_exact_spec _ _ _ _ _ _ _ Hs1) in E1 as (ev1 & Hq1 & _ & Hl1);
    simpl timeout in *.
  2:{ destruct (is_timeout e) eqn:Et.
      - unfold ret. intros H; inv_eq H. split; [exact Hp2|]. split; [exact Hn2|].
        intros _. apply Hr2. destruct e; try discriminate. reflexivity.
      - intros H; inv_eq H. split; [exact Hp2|]. split; [exact Hn2|].
        intros [H|H]; inv_eq H. apply Hr2. reflexivity. }
  specialize (Hl1 _ eq_refl).
  destruct header as [|b1 [|b2 [|? ?]]]; try discriminate Hl1. clear Hl1.
  unfold ret at 1.
  assert (Hs2 : sock c2 = Some (Socket T)) by (destruct Hq1; congruence).
  rewrite bind_run.
  set (len7 := Z.land (Z_of_byte b2) 0x7F).
  set (long := negb (len7 =? 126) && negb (len7 =? 127)).
  set (n2 := if len7 =? 126 then 2%nat else 8%nat).
  replace (if len7 =? 126 then _ else _)
    with (if long then ret len7 else do k <- _read_exact n2; ret (unpack_uint k))
    by (unfold long, n2; destruct (len7 =? 126), (len7 =? 127); reflexivity).
  match goal with |- context [(if long then ?a else ?b) c2 w2] =>
    destruct ((if long then a else b) c2 w2) as [[r2 c3] w3] eqn:E2 end.
  pose proof (read_if_clock _ _ _ _ _ _ _ _ _ _ Hs2 HT Hp2 E2) as (Hp3 & Hn3 & Hr3).
  apply (read_if_spec _ _ _ _ _ _ _ _ _ _ Hs2) in E2 as (d2 & ev2 & Hq2 & _ & _).
  simpl timeout in *.
  assert (Hn13 : (now w <= now w3)%Q) by (eapply Qle_trans; eassumption).
  assert (Hr13 : r2 = Raise socket_timeout -> (now w + T <= now w3)%Q).
  { intros H. eapply Qle_trans; [|exact (Hr3 H)]. apply Qplus_le_l. exact Hn2. }
  destruct r2 as [len|e].
  2:{ intros H; inv_eq H. split; [exact Hp3|]. split; [exact Hn13|].
      intros [H|H]; inv_eq H. apply Hr13. reflexivity. }
  assert (Hs3 : sock c3 = Some (Socket T)) by (destruct Hq2; congruence).
  rewrite bind_run.
  match goal with |- context [(if ?g =? 0 then ?a else ?b) c3 w3] =>
    destruct ((if g =? 0 then a else b) c3 w3) as [[r3 c4] w4] eqn:E3 end.
  pose proof (read_if_clock _ _ _ _ _ _ _ _ _ _ Hs3 HT Hp3 E3) as (Hp4 & Hn4 & Hr4).
  apply (read_if_spec _ _ _ _ _ _ _ _ _ _ Hs3) in E3 as (d3 & ev3 & Hq3 & _ & _).
  simpl timeout in *.
  assert (Hn14 : (now w <= now w4)%Q) by (eapply Qle_trans; eassumption).
  assert (Hr14 : r3 = Raise socket_timeout -> (now w + T <= now w4)%Q).
  { intros H. eapply Qle_trans; [|exact (Hr4 H)]. apply Qplus_le_l. exact Hn13. }
  destruct r3 as [key|e].
  2:{ intros H; inv_eq H. split; [exact Hp4|]. split; [exact Hn14|].
      intros [H|H]; inv_eq H. apply Hr14. reflexivity. }
  assert (Hs4 : sock c4 = Some (Socket T)) by (destruct Hq3; congruence).
  rewrite bind_run.
  replace ((if len =? 0 then ret [] else _read_exact (Z.to_nat len)) c4 w4)
    with ((if len =? 0 then ret [] else do k <- _read_exact (Z.to_nat len); ret k) c4 w4)
    by (destruct (len =? 0); [reflexivity | apply bind_ret_r]).
  match goal with |- context [(if len =? 0 then ?a else ?b) c4 w4] =>
    destruct ((if len =? 0 then a else b) c4 w4) as [[r4 c5] w5] eqn:E4 end.
  pose proof (read_if_clock _ _ _ _ _ _ _ _ _ _ Hs4 HT Hp4 E4) as (Hp5 & Hn5 & Hr5).
  assert (Hn15 : (now w <= now w5)%Q) by (eapply Qle_trans; eassumption).
  assert (Hr15 : r4 = Raise socket_timeout -> (now w + T <= now w5)%Q).
  { intros H. eapply Qle_trans; [|exact (Hr5 H)]. apply Qplus_le_l. exact Hn14. }
  destruct r4 as [payload|e].
  2:{ intros H; inv_eq H. split; [exact Hp5|]. split; [exact Hn15|].
      intros [H|H]; inv_eq H. apply Hr15. reflexivity. }
  unfold ret. intros H; inv_eq H. split; [exact Hp5|]. split; [exact Hn15|].
  intros [H|H]; discriminate.
Qed.

Lemma Qlt_bool_false (x y : Q) : (y <= x)%Q -> Qlt_bool x y = false.
Proof. intros H. unfold Qlt_bool. apply Qle_bool_iff in H. rewrite H. reflexivity. Qed.

Section Termination.

Variable utf8_decode_replace : bytes -> pystr.

(** A pass of the receive loop that asks for another one has either
    taken a frame off the stream or let the deadline go by. *)
Lemma read_messages_body_progress (end_time : Q) (s : socket)
    (c : client) (w : world) (c' : client) (w' : world) :
  sock c = Some s -> punctual w ->
  read_messages_body utf8_decode_replace end_time c w = (Ok Continue, c', w') ->
  punctual w'
  /\ ((length (stream c' w') < length (stream c w))%nat \/ (end_time <= now w')%Q).
Proof.
  intros Hs Hp. set (T := Qmax (1 # 10) (end_time - now w)).
  destruct (Qmax_floor (1 # 10) (end_time - now w)) as [H1 H2]. fold T in H1, H2.
  assert (HT : (0 <= T)%Q) by (eapply Qle_trans; [|exact H1]; discriminate).
  assert (Hend : forall w1, (now w + T <= now w1)%Q -> (end_time <= now w1)%Q).
  { intros w1 H. eapply Qle_trans; [|exact H].
    apply (Qplus_le_r _ _ (now w)) in H2.
    eapply Qle_trans; [|exact H2]. ring_simplify. apply Qle_refl. }
  rewrite read_messages_body_eq. fold T.
  destruct (_recv_frame T c w) as [[r1 c1] w1] eqn:Er.
  destruct (recv_frame_clock T s c w r1 c1 w1 Hs HT Hp Er) as (Hp1 & Hn1 & Hr1).
  destruct (recv_frame_spec T s c w r1 c1 w1 Hs HT Er) as (consumed & evs & Hq & _ & Hf & _).
  assert (Hs1 : sock c1 = Some (Socket T)) by (destruct Hq; assumption).
  destruct r1 as [[[op pl]|]|e].
  - assert (Hlen : (length (stream c1 w1) < length (stream c w))%nat).
    { destruct Hq as [_ _ Hst _ _ _]. change (stream (set_sock _ c) w) with (stream c w) in Hst.
      rewrite Hst, length_app. specialize (Hf _ _ eq_refl []).
      destruct consumed; [rewrite app_nil_r in Hf; discriminate|]. simpl. lia. }
    destruct (op =? 1).
    { intros H; inv_eq H. split; [exact Hp1 | left; exact Hlen]. }
    destruct (op =? 9); [|destruct (op =? 8); intros H; inv_eq H;
                            split; [exact Hp1 | left; exact Hlen]].
    assert (Hb : Z.of_nat (length pl) < 2 ^ 64)
      by (apply (wire_frame_bounds _ _ _ _ (Hf _ _ eq_refl []))).
    destruct (send_pong_spec pl _ c1 w1 Hs1 Hb) as (frame & res & w2 & Ep & _ & _ & _ & Hi).
    rewrite Ep. intros H; inv_eq H. split.
    + unfold punctual. rewrite Hi. exact Hp1.
    + left. unfold stream in *. rewrite Hi. exact Hlen.
  - intros H; inv_eq H. split; [exact Hp1|]. right. apply Hend, Hr1. auto.
  - destruct (is_timeout e) eqn:Et; intros H; inv_eq H. split; [exact Hp1|].
    right. apply Hend, Hr1. destruct e; try discriminate. auto.
Qed.

Lemma read_messages_loop_returns (fuel : nat) (end_time : Q) (s : socket)
    (c : client) (w : world) :
  sock c = Some s -> punctual w ->
  (length (stream c w) < fuel)%nat \/ (end_time <= now w)%Q ->
  exists r c' w', read_messages_loop utf8_decode_replace fuel end_time c w = Some (r, c', w').
Proof.
  revert s c w. induction fuel as [|fuel IH]; intros s c w Hs Hp Hm;
    cbn [read_messages_loop]; unfold time_time.
  - destruct Hm as [Hm|Hm]; [lia|].
    rewrite (Qlt_bool_false _ _ Hm). eauto.
  - destruct (Qlt_bool (now w) end_time) eqn:E; [|eauto].
    destruct (read_messages_body utf8_decode_replace end_time c w) as [[rb c1] w1] eqn:Eb.
    destruct rb as [[]|e]; [|eauto|eauto].
    destruct (read_messages_body_effects _ _ _ _ _ _ _ _ Hs Eb) as (Hs1 & _).
    destruct (read_messages_body_progress _ _ _ _ _ _ Hs Hp Eb) as (Hp1 & Hm1).
    apply (IH _ _ _ Hs1 Hp1).
    destruct Hm1 as [Hm1|Hm1]; [|right; exact Hm1].
    destruct Hm as [Hm|Hm]; [left; lia|].
    rewrite (Qlt_bool_false _ _ Hm) in E. discriminate.
Qed.

Lemma read_messages_total (fuel : nat) (window_seconds : Z) (c : client) (w : world) :
  punctual w ->
  (length (stream c w) < fuel)%nat ->
  exists r c' w',
    read_messages utf8_decode_replace fuel window_seconds c w = Some (r, c', w').
Proof.
  intros Hp Hf. unfold read_messages. destruct (sock c) as [s|] eqn:Hs; [|eauto].
  apply (read_messages_loop_returns _ _ s); auto.
Qed.

(** [read_messages] returns: when no chunk of the peer arrives after a
    negative delay, the loop ends after fewer passes than the stream
    (buffer and pending data) has bytes, plus one: by an exception, by a
    close frame, or because the deadline has gone by. *)
Theorem read_messages_returns (fuel : nat) (window_seconds : Z) (c : client) (w : world) :
  punctual w ->
  (length (stream c w) < fuel)%nat ->
  exists r c' w',
    read_messages utf8_decode_replace fuel window_seconds c w = Some (r, c', w').
Proof. exact (read_messages_total fuel window_seconds c w). Qed.

End Termination.

(** ** The end of [main] *)

Lemma send_text_net (c : client) (w : world) (text : pystr) r c' w' :
  send_text text c w = (r, c', w') -> c' = c /\ incoming w' = incoming w.
Proof.
  unfold send_text. rewrite bind_run. unfold get_sock at 1.
  destruct (sock c); [|intros H; inv_eq H; auto].
  rewrite bind_run. unfold of_outcome at 1.
  destruct (utf8_encode text) as [data|e]; [|intros H; inv_eq H; auto].
  rewrite bind_run, encode_frame_run.
  destruct (frame_header 1 (Z.of_nat (length data))) as [header|e];
    [|intros H; inv_eq H; auto].
  cbv zeta. unfold os. set (frame := header ++ _). set (w1 := with_drawn _ w).
  destruct (sock_sendall frame w1) as [res w2] eqn:Es.
  apply sock_sendall_spec in Es as (_ & _ & Hi & _).
  intros H; inv_eq H. auto.
Qed.

Section SessionProofs.

Variable Dict : Type.
Variable json_dumps : Dict -> outcome pystr.
Variable utf8_decode_replace : bytes -> pystr.
Variable sensory : pystr -> Dict.
Variable str_of_exn : exn -> pystr.

Lemma read_messages_loop_effects (fuel : nat) (end_time : Q) (s : socket)
    (c : client) (w : world) r c' w' :
  sock c = Some s ->
  read_messages_loop utf8_decode_replace fuel end_time c w = Some (r, c', w') ->
  (exists s', sock c' = Some s')
  /\ exists evs, trace w' = trace w ++ evs /\ existsb is_close evs = false.
Proof.
  revert s c w. induction fuel as [|fuel IH]; intros s c w Hs; cbn [read_messages_loop].
  - destruct (Qlt_bool (time_time w) end_time); [discriminate|].
    intros H; inv_eq H. split; [eauto|]. exists [].
    split; [symmetry; apply app_nil_r | reflexivity].
  - destruct (Qlt_bool (time_time w) end_time).
    2:{ intros H; inv_eq H. split; [eauto|]. exists [].
        split; [symmetry; apply app_nil_r | reflexivity]. }
    destruct (read_messages_body utf8_decode_replace end_time c w) as [[rb c1] w1] eqn:Eb.
    destruct (read_messages_body_effects _ _ _ _ _ _ _ _ Hs Eb)
      as (Hs1 & evs & more & Ht & Hr & Hm).
    assert (Hc : existsb is_close (evs ++ more) = false).
    { rewrite existsb_app, (recv_events_not_close _ _ Hr).
      destruct Hm as [-> | [[line ->] | (frame & res & ->)]]; reflexivity. }
    destruct rb as [[]|e].
    + intros H. destruct (IH _ _ _ Hs1 H) as (Hs' & evs' & Ht' & Hc').
      split; [exact Hs'|]. exists ((evs ++ more) ++ evs').
      split; [rewrite Ht', Ht, <- !app_assoc; reflexivity|].
      rewrite existsb_app, Hc, Hc'. reflexivity.
    + intros H; inv_eq H. split; [eauto|]. eauto.
    + intros H; inv_eq H. split; [eauto|]. eauto.
Qed.

Lemma interaction_effects (fuel : nat) (user token description : pystr)
    (reply_window : Z) (s : socket) (c : client) (w : world) r c' w' :
  sock c = Some s ->
  interaction Dict json_dumps utf8_decode_replace sensory fuel user token description
              reply_window c w = Some (r, c', w') ->
  (exists s', sock c' = Some s')
  /\ exists evs, trace w' = trace w ++ evs /\ existsb is_close evs = false.
Proof.
  intros Hs. unfold interaction. rewrite bind_run.
  destruct (send_text (user ++ py ":" ++ token) c w) as [[r1 c1] w1] eqn:E1.
  destruct (send_text_effects _ _ _ _ _ _ _ Hs E1) as (-> & ev1 & Ht1 & Hc1).
  destruct r1 as [[]|e]; [|intros H; inv_eq H; split; eauto].
  rewrite bind_run. unfold send_json at 1. rewrite bind_run. unfold of_outcome at 1.
  destruct (json_dumps (sensory description)) as [text|e];
    [|intros H; inv_eq H; split; eauto].
  destruct (send_text text c w1) as [[r2 c2] w2] eqn:E2.
  destruct (send_text_effects _ _ _ _ _ _ _ Hs E2) as (-> & ev2 & Ht2 & Hc2).
  assert (Ht12 : trace w2 = trace w ++ ev1 ++ ev2)
    by (rewrite Ht2, Ht1, <- app_assoc; reflexivity).
  assert (Hc12 : existsb is_close (ev1 ++ ev2) = false)
    by (rewrite existsb_app, Hc1, Hc2; reflexivity).
  destruct r2 as [[]|e]; [|intros H; inv_eq H; split; eauto].
  unfold os. unfold read_messages. rewrite Hs.
  set (line := (_ :: py _)). set (w3 := print line w2).
  intros H.
  destruct (read_messages_loop_effects _ _ _ _ _ _ _ _ Hs H) as (Hs' & ev3 & Ht3 & Hc3).
  split; [exact Hs'|]. exists ((ev1 ++ ev2) ++ [EvPrint line] ++ ev3).
  split.
  - rewrite Ht3. unfold w3, print, log. cbn [trace]. rewrite Ht12, <- !app_assoc.
    reflexivity.
  - rewrite !existsb_app, Hc1, Hc2, Hc3. reflexivity.
Qed.

Lemma interaction_returns (fuel : nat) (user token description : pystr)
    (reply_window : Z) (s : socket) (c : client) (w : world) :
  sock c = Some s -> punctual w -> (length (stream c w) < fuel)%nat ->
  exists r c' w',
    interaction Dict json_dumps utf8_decode_replace sensory fuel user token description
                reply_window c w = Some (r, c', w').
Proof.
  intros Hs Hp Hf. unfold interaction. rewrite bind_run.
  destruct (send_text (user ++ py ":" ++ token) c w) as [[r1 c1] w1] eqn:E1.
  destruct (send_text_net _ _ _ _ _ _ E1) as (-> & Hi1).
  destruct r1 as [[]|e]; [|eauto].
  rewrite bind_run. unfold send_json at 1. rewrite bind_run. unfold of_outcome at 1.
  destruct (json_dumps (sensory description)) as [text|e]; [|eauto].
  destruct (send_text text c w1) as [[r2 c2] w2] eqn:E2.
  destruct (send_text_net _ _ _ _ _ _ E2) as (-> & Hi2).
  destruct r2 as [[]|e]; [|eauto].
  unfold os, print.
  apply read_messages_total.
  - unfold punctual. simpl. rewrite Hi2, Hi1. exact Hp.
  - unfold stream. simpl. rewrite Hi2, Hi1. exact Hf.
Qed.

(** However the exchange at the end of [main] goes (a send that fails, a
    peer that closes, a frame that cannot be decoded, the deadline), it
    comes to an end, and it ends with [close]: the close frame has been
    handed to [sendall], the socket has been closed, exactly once and last
    of all, and the client has no socket left. *)
Theorem session_always_closes (fuel : nat) (user token description : pystr)
    (reply_window : Z) (s : socket) (c : client) (w : world) :
  sock c = Some s -> punctual w -> (length (stream c w) < fuel)%nat ->
  exists (r : ending) (c' : client) (w' : world),
    session Dict json_dumps utf8_decode_replace sensory str_of_exn fuel user token
            description reply_window c w = Some (r, c', w')
    /\ sock c' = None
    /\ exists evs frame res,
         new_events w w' = evs ++ [EvSendall frame res; EvClose]
         /\ existsb is_close evs = false
         /\ wire_frame frame = Some (0x8, [], []).
Proof.
  intros Hs Hp Hf. unfold session.
  destruct (interaction_returns fuel user token description reply_window s c w Hs Hp Hf)
    as (ri & c1 & w1 & Ei).
  rewrite Ei.
  destruct (interaction_effects _ _ _ _ _ _ _ _ _ _ _ Hs Ei) as ([s1 Hs1] & evs & Ht & Hc).
  destruct (close_connected s1 c1 w1 Hs1) as (frame & res & rc & w2 & Ec & Hw & Ht2 & _).
  rewrite Ec. eexists _, _, _. split; [reflexivity|]. split; [reflexivity|].
  exists evs, frame, res. split; [|split; assumption].
  apply new_events_app. rewrite Ht2, Ht, <- app_assoc. reflexivity.
Qed.

End SessionProofs.

Lemma session_always_closes_witness :
  exists (r : ending) (c' : client) (w' : world),
    session unit (fun _ => Ok (py "{}")) demo_decode (fun _ => tt) (fun _ => [])
            5 (py "user") (py "token") (py "a room") 10 demo_client demo_close_world
    = Some (r, c', w')
    /\ sock c' = None
    /\ exists evs frame res,
         new_events demo_close_world w' = evs ++ [EvSendall frame res; EvClose]
         /\ existsb is_close evs = false
         /\ wire_frame frame = Some (0x8, [], []).
Proof.
  apply (session_always_closes unit (fun _ => Ok (py "{}")) demo_decode (fun _ => tt)
           (fun _ => []) 5 (py "user") (py "token") (py "a room") 10 (Socket 10)
           demo_client demo_close_world).
  - reflexivity.
  - unfold punctual. simpl. repeat constructor. simpl. unfold Qle. simpl. lia.
  - simpl. lia.
Defined.

Lemma read_messages_returns_witness :
  exists r c' w', read_messages demo_decode 5 1 demo_client demo_slow_world = Some (r, c', w').
Proof.
  apply (read_messages_returns demo_decode 5 1 demo_client demo_slow_world).
  - unfold punctual. simpl. repeat constructor; simpl; unfold Qle; simpl; lia.
  - simpl. lia.
Defined.

(** ** What [_recv_frame] does not look at *)

Lemma read_exact_buffered (n : nat) (c : client) (w : world) :
  (n <= length (buffer c))%nat ->
  _read_exact n c w = (Ok (take n (buffer c)), set_buffer (drop n (buffer c)) c, w).
Proof.
  intros H. unfold _read_exact. destruct (n =? 0)%nat eqn:E.
  - apply Nat.eqb_eq in E. subst n. unfold ret. rewrite take_0, drop_0.
    destruct c; reflexivity.
  - rewrite bind_run, read_exact_loop_eq.
    destruct (lt_dec (length (buffer c)) n); [lia|]. reflexivity.
Qed.

(** What [_recv_frame] does once the two header bytes are in the buffer. *)
Lemma recv_frame_buffered_header (T : Q) (s : socket) (c : client) (w : world)
    (b1 b2 : byte) (rest : bytes) :
  sock c = Some s -> (0 <= T)%Q -> buffer c = b1 :: b2 :: rest ->
  _recv_frame T c w =
  (let opcode := Z.land (Z_of_byte b1) 0x0F in
   let masked := Z.land (Z_of_byte b2) 0x80 in
   let length := Z.land (Z_of_byte b2) 0x7F in
   do length <-
     (if length =? 126 then
        do length_bytes <- _read_exact 2; ret (unpack_uint length_bytes)
      else if length =? 127 then
        do length_bytes <- _read_exact 8; ret (unpack_uint length_bytes)
      else ret length);
   do mask_key <-
     (if masked =? 0 then ret None
      else do k <- _read_exact 4; ret (Some k));
   do payload <-
     (if length =? 0 then ret [] else _read_exact (Z.to_nat length));
   let payload :=
     match mask_key with
     | Some ((_ :: _) as k) => xor_mask k payload
     | _ => payload
     end in
   ret (Some (opcode, payload)))
    (Client (url c) (Some (Socket T)) rest) w.
Proof.
  intros Hs HT Hb. unfold _recv_frame. rewrite bind_run. unfold get_sock at 1. rewrite Hs.
  rewrite bind_run. unfold settimeout. apply Qle_bool_iff in HT. rewrite HT.
  unfold put_sock at 1. rewrite bind_run. unfold try_except at 1. rewrite bind_run.
  rewrite read_exact_buffered by (simpl; rewrite Hb; simpl; lia).
  simpl buffer. rewrite Hb. simpl take. simpl drop. unfold ret at 1.
  reflexivity.
Qed.

(** [_recv_frame] reads the opcode off the first byte and nothing else: the
    FIN bit and the three reserved bits are ignored, so a fragment or a
    frame of an extension is returned like a whole plain frame. *)
Theorem recv_frame_ignores_fin_and_rsv (T : Q) (s : socket) (c : client) (w : world)
    (b1 b1' b2 : byte) (rest : bytes) :
  sock c = Some s -> (0 <= T)%Q ->
  buffer c = b1 :: b2 :: rest ->
  Z.land (Z_of_byte b1') 0x0F = Z.land (Z_of_byte b1) 0x0F ->
  _recv_frame T (set_buffer (b1' :: b2 :: rest) c) w = _recv_frame T c w.
Proof.
  intros Hs HT Hb Ho.
  rewrite (recv_frame_buffered_header T s c w b1 b2 rest Hs HT Hb).
  rewrite (recv_frame_buffered_header T s (set_buffer (b1' :: b2 :: rest) c) w b1' b2 rest
             Hs HT eq_refl).
  cbv zeta. rewrite Ho. reflexivity.
Qed.

Lemma recv_frame_ignores_fin_and_rsv_witness :
  _recv_frame 1 (set_buffer ["001"; "002"; "h"; "i"]%byte
                   (Client [] (Some (Socket 10)) demo_text_frame)) (demo_world [])
  = _recv_frame 1 (Client [] (Some (Socket 10)) demo_text_frame) (demo_world []).
Proof.
  apply (recv_frame_ignores_fin_and_rsv 1 (Socket 10)
           (Client [] (Some (Socket 10)) demo_text_frame) (demo_world [])
           "129"%byte "001"%byte "002"%byte ["h"; "i"]%byte).
  - reflexivity.
  - unfold Qle. simpl. lia.
  - reflexivity.
  - reflexivity.
Defined.

(** ** A window that is over *)

Section NoWindow.

Variable utf8_decode_replace : bytes -> pystr.

(** With a window of zero or fewer seconds [read_messages] reads nothing:
    the deadline is not in the future, the loop body never runs, and
    client and world are as they were. *)
Theorem read_messages_without_window (fuel : nat) (window_seconds : Z)
    (c : client) (w : world) :
  window_seconds <= 0 ->
  read_messages utf8_decode_replace fuel window_seconds c w = Some (Ok tt, c, w).
Proof.
  intros Hw. unfold read_messages. destruct (sock c); [|reflexivity].
  assert (E : Qlt_bool (time_time w) (time_time w + inject_Z window_seconds) = false).
  { apply Qlt_bool_false. rewrite <- (Qplus_0_r (time_time w)) at 2.
    apply Qplus_le_r. unfold Qle, inject_Z. simpl. lia. }
  destruct fuel; cbn [read_messages_loop]; rewrite E; reflexivity.
Qed.

End NoWindow.

Lemma read_messages_without_window_witness :
  read_messages demo_decode 0 0 demo_client demo_ping_world
  = Some (Ok tt, demo_client, demo_ping_world).
Proof.
  apply (read_messages_without_window demo_decode 0 0 demo_client demo_ping_world). lia.
Defined.

(** ** [load_config] *)

Lemma lstrip_slashes_spec (s : pystr) :
  exists k, s = repeat 47%N k ++ lstrip_slashes s /\ head (lstrip_slashes s) <> Some 47%N.
Proof.
  induction s as [|x s IH].
  - exists 0%nat. split; [reflexivity | discriminate].
  - simpl. destruct (N.eqb_spec x 47) as [->|Hx].
    + destruct IH as (k & E & H). exists (S k). simpl. split; [f_equal; exact E | exact H].
    + exists 0%nat. split; [reflexivity|]. simpl. congruence.
Qed.

Lemma last_rev {A} (l : list A) : last (rev l) = head l.
Proof. rewrite rev_alt. exact (last_reverse l). Qed.

Lemma rstrip_slashes_spec (s : pystr) :
  exists k, s = rstrip_slashes s ++ repeat 47%N k /\ last (rstrip_slashes s) <> Some 47%N.
Proof.
  unfold rstrip_slashes. destruct (lstrip_slashes_spec (rev s)) as (k & E & H).
  exists k. split.
  - rewrite <- (rev_involutive s), E at 1. rewrite rev_app_distr.
    f_equal. clear. induction k; simpl; [reflexivity|].
    rewrite IHk. clear. induction k; simpl; [reflexivity | f_equal; exact IHk].
  - rewrite last_rev. exact H.
Qed.

Section LoadConfigProofs.

Variable int : pystr -> outcome Z.

(** [load_config] ends the process exactly when [OPENAI_API_KEY] is unset
    or empty, and then with the message that names it; this is checked
    before the two numbers are parsed, so a bad number does not hide it. *)
Theorem load_config_requires_api_key (environ : gmap pystr pystr) :
  ((exists msg, load_config int environ = SysExit msg)
   <-> environ !! py "OPENAI_API_KEY" = None \/ environ !! py "OPENAI_API_KEY" = Some [])
  /\ (forall msg, load_config int environ = SysExit msg ->
        msg = py "OPENAI_API_KEY is required").
Proof.
  unfold load_config.
  destruct (environ !! py "OPENAI_API_KEY") as [[|k key]|].
  - split; [split; eauto|]. intros msg H; inv_eq H. reflexivity.
  - destruct (int (getenv environ (py "OPENAI_TIMEOUT_SECONDS") (py "30")));
      [destruct (int (getenv environ (py "WS_REPLY_WINDOW_SECONDS") (py "10")))|];
      (split; [split; [intros [msg H]; discriminate | intros [H|H]; discriminate]
              |intros msg H; discriminate]).
  - split; [split; eauto|]. intros msg H; inv_eq H. reflexivity.
Qed.

(** The base URL of a configuration never ends in a slash: it is
    [OPENAI_BASE_URL] (or its default) without the slashes at its end, so
    that the URL [describe_image] builds has one slash at the join. *)
Theorem load_config_base_url_has_no_final_slash (environ : gmap pystr pystr)
    (cfg : Config) :
  load_config int environ = Done cfg ->
  last (openai_base_url cfg) <> Some 47%N
  /\ (exists k,
        getenv environ (py "OPENAI_BASE_URL") (py "https://api.openai.com")
        = openai_base_url cfg ++ repeat 47%N k)
  /\ completions_url cfg = openai_base_url cfg ++ py "/v1/chat/completions".
Proof.
  unfold load_config.
  destruct (environ !! py "OPENAI_API_KEY") as [[|k key]|]; try discriminate.
  destruct (int (getenv environ (py "OPENAI_TIMEOUT_SECONDS") (py "30"))); [|discriminate].
  destruct (int (getenv environ (py "WS_REPLY_WINDOW_SECONDS") (py "10"))); [|discriminate].
  intros H; inv_eq H. cbn [openai_base_url].
  destruct (rstrip_slashes_spec
              (getenv environ (py "OPENAI_BASE_URL") (py "https://api.openai.com")))
    as (n & E & L).
  split; [exact L|]. split; [exists n; exact E | reflexivity].
Qed.

End LoadConfigProofs.

Lemma load_config_base_url_has_no_final_slash_witness :
  match load_config py_int demo_environ with
  | Done cfg =>
      last (openai_base_url cfg) <> Some 47%N
      /\ (exists k,
            getenv demo_environ (py "OPENAI_BASE_URL") (py "https://api.openai.com")
            = openai_base_url cfg ++ repeat 47%N k)
      /\ completions_url cfg = openai_base_url cfg ++ py "/v1/chat/completions"
  | _ => False
  end.
Proof.
  destruct (load_config py_int demo_environ) as [cfg| |] eqn:E;
    [|vm_compute in E; discriminate|vm_compute in E; discriminate].
  exact (load_config_base_url_has_no_final_slash py_int demo_environ cfg E).
Defined.

(** ** After a time-out *)

Section TimedOut.

Variable utf8_decode_replace : bytes -> pystr.

(** The loop never waits twice: when a pass ends in a time-out (before the
    header or in the middle of a frame), the deadline has gone by, and
    [read_messages] returns without another read. *)
Theorem timed_out_pass_ends_loop (fuel : nat) (end_time : Q) (s : socket)
    (c : client) (w : world) r (c' : client) (w' : world) :
  sock c = Some s -> punctual w ->
  Qlt_bool (time_time w) end_time = true ->
  _recv_frame (Qmax (1 # 10) (end_time - now w)) c w = (r, c', w') ->
  r = Ok None \/ r = Raise socket_timeout ->
  (end_time <= now w')%Q
  /\ read_messages_loop utf8_decode_replace (S fuel) end_time c w = Some (Ok tt, c', w').
Proof.
  intros Hs Hp Hlt Er Hr. set (T := Qmax (1 # 10) (end_time - now w)) in *.
  destruct (Qmax_floor (1 # 10) (end_time - now w)) as [H1 H2]. fold T in H1, H2.
  assert (HT : (0 <= T)%Q) by (eapply Qle_trans; [|exact H1]; discriminate).
  destruct (recv_frame_clock T s c w r c' w' Hs HT Hp Er) as (_ & _ & Hc).
  assert (Hend : (end_time <= now w')%Q).
  { eapply Qle_trans; [|exact (Hc Hr)].
    apply (Qplus_le_r _ _ (now w)) in H2.
    eapply Qle_trans; [|exact H2]. ring_simplify. apply Qle_refl. }
  split; [exact Hend|].
  cbn [read_messages_loop]. rewrite Hlt, read_messages_body_eq. fold T. rewrite Er.
  assert (E : Qlt_bool (time_time w') end_time = false) by (apply Qlt_bool_false, Hend).
  destruct Hr as [-> | ->]; cbn [is_timeout]; destruct fuel; cbn [read_messages_loop];
    rewrite E; reflexivity.
Qed.

End TimedOut.

Lemma timed_out_pass_ends_loop_witness :
  let R := _recv_frame (Qmax (1 # 10) (1 - now demo_stalled_world)) demo_client
             demo_stalled_world in
  (1 <= now (snd R))%Q
  /\ read_messages_loop demo_decode 1 1 demo_client demo_stalled_world
     = Some (Ok tt, snd (fst R), snd R).
Proof.
  intros R. subst R.
  assert (A : fst (fst (_recv_frame (Qmax (1 # 10) (1 - now demo_stalled_world)) demo_client
                          demo_stalled_world)) = Raise socket_timeout)
    by (vm_compute; reflexivity).
  destruct (_recv_frame (Qmax (1 # 10) (1 - now demo_stalled_world)) demo_client
              demo_stalled_world) as [[r c'] w'] eqn:E.
  cbn [fst snd] in *.
  apply (timed_out_pass_ends_loop demo_decode 0 1 (Socket 10) demo_client demo_stalled_world
           r c' w').
  - reflexivity.
  - unfold punctual. simpl. repeat constructor; simpl; unfold Qle; simpl; lia.
  - vm_compute. reflexivity.
  - exact E.
  - right. exact A.
Defined.
